(** * CML publish and reconciliation engine: a shallow embedding

    The development follows [src/cml.js] (the class [CML]) and the helper
    module [utils.js].

    - JavaScript strings are modelled by [string], read as sequences of
      code units below 256; [JsString] has the string methods the code
      calls, with the template expansion of [replace].
    - Asynchronous code is a [Prog]: a tree of external calls (file system,
      git, HTTP, the platform driver, the watcher), each answered by a
      value or by an error.  A [World] answers the calls; [run] gives the
      outcome of a program, the next state of the world and the calls made.
    - Libraries outside the two source files (Node's [path], the URL
      class, the markdown processor, the driver classes) are the fields of
      a [Platform].
    - The tree of the report is shared by the visitors and the serializer:
      a node object is known by its place in the tree ([NodeRef]), and
      [visit] follows the traversal of unist-util-visit, which reads the
      number the callback returns.
    - The callback of the watch loop is a transition function on the state
      of the loop ([WatchLoop]).
    - The constructor reads the environment and the git remote through a
      [Process].  The callbacks of [exec] and [isProcRunning] take what the
      child process answered as arguments, and the retry loop of
      [sshConnection] the settlements of its attempts.

    The embedding comes first, then the definitions the statements use and
    the sample inputs of the concrete runs, then the properties. *)

From Stdlib Require Import String Ascii List Bool Arith Lia ZArith.
From Stdlib Require Import Strings.Byte DecimalString.
Import ListNotations.
Open Scope string_scope.

(** ** JavaScript string primitives *)

Module JsString.

Definition dquote : string := String (ascii_of_nat 34) EmptyString.
Definition backslash : ascii := ascii_of_nat 92.

Definition singleton (c : ascii) : string := String c EmptyString.

Fixpoint drop (n : nat) (s : string) : string :=
  match n, s with
  | S k, String _ s' => drop k s'
  | _, _ => s
  end.

Fixpoint take (n : nat) (s : string) : string :=
  match n, s with
  | S k, String c s' => String c (take k s')
  | _, _ => EmptyString
  end.

(** [String.prototype.startsWith] *)
Definition startsWith (s pat : string) : bool := prefix pat s.

(** [String.prototype.includes]: [pat] occurs in [s] as a literal substring. *)
Fixpoint includes (s pat : string) : bool :=
  if prefix pat s then true
  else match s with
       | EmptyString => false
       | String _ s' => includes s' pat
       end.

(** [String.prototype.endsWith] *)
Fixpoint endsWith (s suf : string) : bool :=
  if String.eqb s suf then true
  else match s with
       | EmptyString => false
       | String _ s' => endsWith s' suf
       end.

(** White space and line terminators removed by [trim], among the code
    units below 256: TAB, LF, VT, FF, CR, SP and NBSP. *)
Definition isWhiteSpace (c : ascii) : bool :=
  match nat_of_ascii c with
  | 9 | 10 | 11 | 12 | 13 | 32 | 160 => true
  | _ => false
  end.

Fixpoint trimStart (s : string) : string :=
  match s with
  | EmptyString => EmptyString
  | String c s' => if isWhiteSpace c then trimStart s' else s
  end.

Fixpoint trimEnd (s : string) : string :=
  match s with
  | EmptyString => EmptyString
  | String c s' =>
      match trimEnd s' with
      | EmptyString => if isWhiteSpace c then EmptyString else singleton c
      | t => String c t
      end
  end.

Definition trim (s : string) : string := trimEnd (trimStart s).

Definition isDigit (c : ascii) : bool :=
  Nat.leb 48 (nat_of_ascii c) && Nat.leb (nat_of_ascii c) 57.

Definition digitValue (c : ascii) : nat := nat_of_ascii c - 48.

(** The result of one successful match: the captures are the groups
    1, 2, ... of the pattern, [None] for a group that did not take part. *)
Definition Captures := list (option string).

Definition captureText (caps : Captures) (n : nat) : option string :=
  match n with
  | O => None
  | S k => match nth_error caps k with
           | Some c => Some (match c with Some t => t | None => EmptyString end)
           | None => None
           end
  end.

(** ECMAScript [GetSubstitution]: expands the dollar forms of a replacement
    template.  [before] and [after] are the parts of the subject around the
    match. *)
Fixpoint getSubstitution (matched before after : string) (caps : Captures)
    (template : string) : string :=
  match template with
  | EmptyString => EmptyString
  | String c t1 =>
      if Ascii.eqb c "$" then
        match t1 with
        | EmptyString => "$"
        | String d t2 =>
            if Ascii.eqb d "$" then
              "$" ++ getSubstitution matched before after caps t2
            else if Ascii.eqb d "&" then
              matched ++ getSubstitution matched before after caps t2
            else if Ascii.eqb d "`" then
              before ++ getSubstitution matched before after caps t2
            else if Ascii.eqb d "'" then
              after ++ getSubstitution matched before after caps t2
            else if isDigit d then
              let one :=
                match captureText caps (digitValue d) with
                | Some t => t ++ getSubstitution matched before after caps t2
                | None =>
                    String c (String d
                      (getSubstitution matched before after caps t2))
                end in
              match t2 with
              | String e t3 =>
                  if isDigit e then
                    match captureText caps (10 * digitValue d + digitValue e) with
                    | Some t =>
                        t ++ getSubstitution matched before after caps t3
                    | None => one
                    end
                  else one
              | EmptyString => one
              end
            else String c (getSubstitution matched before after caps t1)
        end
      else String c (getSubstitution matched before after caps t1)
  end.

(** First occurrence of [pat] in [s]: the text before it and the text after. *)
Fixpoint splitOn (pat s : string) : option (string * string) :=
  if prefix pat s then Some (EmptyString, drop (String.length pat) s)
  else match s with
       | EmptyString => None
       | String c s' =>
           match splitOn pat s' with
           | Some (b, a) => Some (String c b, a)
           | None => None
           end
       end.

(** [String.prototype.replace] with a string pattern: only the first
    occurrence is replaced, and the replacement is a template. *)
Definition replaceStr (s pat replacement : string) : string :=
  match splitOn pat s with
  | None => s
  | Some (b, a) => b ++ getSubstitution pat b a [] replacement ++ a
  end.

(** A regular expression written in the source is modelled by its match
    attempt at the start of the remaining input: the length of the match and
    its captures. *)
Definition Matcher := string -> option (nat * Captures).

(** [String.prototype.replace] with a global regular expression.  [pre] is
    the input already passed and [skip] counts the characters of the last
    match that are still to be passed over. *)
Fixpoint replaceAllFrom (m : Matcher) (template : string) (pre : string)
    (skip : nat) (s : string) : string :=
  match s with
  | EmptyString => EmptyString
  | String c s' =>
      match skip with
      | S k => replaceAllFrom m template (pre ++ singleton c) k s'
      | O =>
          match m s with
          | Some (len, caps) =>
              let out :=
                getSubstitution (take len s) pre (drop len s) caps template in
              match len with
              | O => out ++ String c
                       (replaceAllFrom m template (pre ++ singleton c) 0 s')
              | S k => out ++ replaceAllFrom m template (pre ++ singleton c) k s'
              end
          | None =>
              String c (replaceAllFrom m template (pre ++ singleton c) 0 s')
          end
      end
  end.

Definition replaceAll (m : Matcher) (template s : string) : string :=
  replaceAllFrom m template EmptyString 0 s.

(** A pattern that is one literal character, such as [/_/]. *)
Definition literalChar (c : ascii) : Matcher :=
  fun s =>
    match s with
    | String a _ => if Ascii.eqb a c then Some (1, []) else None
    | EmptyString => None
    end.

(** The dot of a regular expression matches any code unit but a line
    terminator (LF and CR below 256). *)
Definition isLineTerminator (c : ascii) : bool :=
  match nat_of_ascii c with
  | 10 | 13 => true
  | _ => false
  end.

Fixpoint dotRun (s : string) : string :=
  match s with
  | EmptyString => EmptyString
  | String c s' => if isLineTerminator c then EmptyString else String c (dotRun s')
  end.

Fixpoint lastIndexOf (c : ascii) (s : string) : option nat :=
  match s with
  | EmptyString => None
  | String a s' =>
      match lastIndexOf c s' with
      | Some j => Some (S j)
      | None => if Ascii.eqb a c then Some 0 else None
      end
  end.

(** The pattern [/\\&(.+)=/]: a backslash, an ampersand, a greedy non-empty
    run of dots and an equals sign.  The greedy run backs off to the last
    equals sign of the line that leaves it at least one character. *)
Definition escapedAmpersand : Matcher :=
  fun s =>
    match s with
    | String a (String b rest) =>
        if Ascii.eqb a backslash && Ascii.eqb b "&" then
          match dotRun rest with
          | String _ run' =>
              match lastIndexOf "=" run' with
              | Some j => Some (2 + S j + 1, [Some (take (S j) rest)])
              | None => None
              end
          | EmptyString => None
          end
        else None
    | _ => None
    end.

End JsString.

Import JsString.

(** ** cml.js: the watermark *)

Definition WATERMARK_IMAGE : string := "https://cml.dev/watermark.png".

(** [String(v)] for a value that is a string or [undefined]. *)
Definition jsToString (v : option string) : string :=
  match v with
  | Some s => s
  | None => "undefined"
  end.

(** The escape list of [genWatermark], in the order of the source:
    underscore, asterisk, opening square bracket, opening angle bracket. *)
Definition patterns : list (Matcher * string) :=
  [ (literalChar "_", "\_");
    (literalChar "*", "\*");
    (literalChar "[", "\[");
    (literalChar "<", "\<") ].

Definition escapeTitle (title : string) : string :=
  fold_left
    (fun label pattern => replaceAll (fst pattern) (snd pattern) label)
    patterns title.

(** [genWatermark({ label = '', workflow, run })] *)
Definition genWatermark (label workflow run : option string) : string :=
  let label := match label with Some l => l | None => EmptyString end in
  let lbl :=
    replaceStr (replaceStr label "{workflow}" (jsToString workflow))
      "{run}" (jsToString run) in
  let title := trim ("CML watermark " ++ lbl) in
  let title := escapeTitle title in
  "![](" ++ WATERMARK_IMAGE ++ " " ++ dquote ++ title ++ dquote ++ ")".

(** The test of [updatableComment]: the comment body contains the
    watermark as a literal substring. *)
Definition watermarkMatches (body watermark : string) : bool :=
  includes body watermark.

(** ** Values, errors and external calls *)

(** Primitive values that cross the driver interface (identifiers, the
    result of a comment operation). *)
Inductive Val : Type :=
| VUndefined
| VNull
| VBool (b : bool)
| VNum (n : Z)
| VStr (s : string).

Definition truthy (v : Val) : bool :=
  match v with
  | VUndefined | VNull => false
  | VBool b => b
  | VNum n => negb (Z.eqb n 0)
  | VStr s => negb (String.eqb s EmptyString)
  end.

(** Truthiness of a value that is a string or [undefined]. *)
Definition truthyStr (v : option string) : bool :=
  match v with
  | Some s => negb (String.eqb s EmptyString)
  | None => false
  end.

(** An error object: its constructor name, its message and its [code]
    property when it has one (Node's system errors carry [ENOENT] there). *)
Record JsError : Type := mkJsError {
  errName : string;
  errMessage : string;
  errCode : option string
}.

Definition newError (message : string) : JsError :=
  mkJsError "Error" message None.

Definition newTypeError (message : string) : JsError :=
  mkJsError "TypeError" message None.

Definition natToString (n : nat) : string :=
  NilEmpty.string_of_uint (Nat.to_uint n).

(** *** Data of the external interfaces *)

Record CommentTarget : Type := mkCommentTarget {
  target : string;        (* the target kind, [commit] or [pr] *)
  targetRest : list (string * Val)
}.

Record Comment : Type := mkComment {
  commentId : Val;
  body : string
}.

Record Runner : Type := mkRunner {
  runnerId : Val;
  runnerName : string
}.

Record PullRequest : Type := mkPullRequest {
  prSource : string;
  prTarget : string;
  prUrl : option string
}.

Record PrDescriptor : Type := mkPrDescriptor {
  pdSource : string;
  pdTarget : string;
  pdTitle : string;
  pdDescription : string;
  pdSkipCi : bool;
  pdAutoMerge : option string
}.

Inductive UploadBody : Type :=
| BodyStream (path : string)
| BodyBuffer (buffer : list byte).

Record HttpResponse : Type := mkHttpResponse {
  status : nat;
  responseId : nat
}.

Record UploadResult : Type := mkUploadResult {
  uri : string;
  mime : string;
  size : nat
}.

(** The options object shared by [commentCreate], [publish] and [upload]:
    [commentCreate] spreads its own options into the call of [publish]. *)
Record Opts : Type := mkOpts {
  commitSha : option string;
  markdownFile : option string;
  pr : option string;
  publish_ : bool;
  publishUrl : option string;
  report : option string;
  rmWatermark : bool;
  commentTarget : option string;
  triggerFile : option string;
  update : bool;
  watch : bool;
  watermarkTitle : option string;
  (* read by [publish] and [upload] *)
  title : option string;
  md : bool;
  native : bool;
  path : option string;
  buffer : option (list byte);
  mimeTypeIn : option string;
  session : option string;
  url : option string
}.

(** The options object of [unregisterRunner]: the properties the code
    reads, and [runnerId] when the object has a property of that name. *)
Record UnregisterOpts : Type := mkUnregisterOpts {
  unName : option string;
  unRunners : option (list Runner);
  unRunnerId : option Val
}.

(** External calls.  The index is the type of the value a call yields when
    it does not throw or reject. *)
Inductive Cmd : Type -> Type :=
| FsReadFile (file : option string) : Cmd string
| FsUnlink (file : option string) : Cmd unit
| FsStat (file : string) : Cmd nat
| FsExistsSync (file : string) : Cmd bool
| FsWriteFile (file : string) (data : list byte) : Cmd unit
| MagicSetFile (file : string) : Cmd unit
| MagicGetInstance : Cmd Z
| MagicDetect (file : option string) (flags : Z) : Cmd (option string)
| TempyFile : Cmd string
| Fetch (endpoint : string) (headers : list (string * string))
    (data : UploadBody) : Cmd HttpResponse
| ResponseText (response : HttpResponse) : Cmd string
| WatcherAdd (file : option string) : Cmd unit
| WatcherOnAll : Cmd unit
| Winston (level message : string) : Cmd unit
| DateNow : Cmd string
| ParseCommentTarget (commitSha pr target : option string) : Cmd CommentTarget
| Exec (args : list string) : Cmd string
| GitStatus : Cmd (list string)
| Globby (globs : list string) : Cmd (list string)
| DrvComments (method : string) (t : CommentTarget) : Cmd (list Comment)
| DrvCommentUpdate (method : string) (report : string) (id : Val)
    (t : CommentTarget) : Cmd Val
| DrvCommentCreate (method : string) (report : string)
    (t : CommentTarget) : Cmd Val
| DrvUpload (opts : Opts) : Cmd UploadResult
| DrvRunners (name : option string) : Cmd (list Runner)
| DrvRunnerJob (runnerId : Val) : Cmd (option Val)
| DrvUpdateGitConfig (userName userEmail remote : string)
    : Cmd (list (list string))
| DrvWarn (message : string) : Cmd unit
| DrvPrs : Cmd (list PullRequest)
| DrvPrCreate (d : PrDescriptor) : Cmd string
| DrvUnregisterRunner (runnerId : Val) (opts : UnregisterOpts) : Cmd Val.

(** ** Asynchronous programs

    A program is a tree of external calls: each call is answered by a
    value or by an error, and the program goes on from the answer.  [Never]
    is a program that awaits a promise that never settles. *)
Inductive Prog (A : Type) : Type :=
| Ret (a : A)
| Throw (e : JsError)
| Never
| Ext {R : Type} (c : Cmd R) (k : JsError + R -> Prog A).

Arguments Ret {A} a.
Arguments Throw {A} e.
Arguments Never {A}.
Arguments Ext {A R} c k.

Fixpoint bind {A B : Type} (p : Prog A) (f : A -> Prog B) : Prog B :=
  match p with
  | Ret a => f a
  | Throw e => Throw e
  | Never => Never
  | Ext c k => Ext c (fun r => bind (k r) f)
  end.

(** [try { p } catch (err) { h err }] *)
Fixpoint tryCatch {A : Type} (p : Prog A) (h : JsError -> Prog A) : Prog A :=
  match p with
  | Ret a => Ret a
  | Throw e => h e
  | Never => Never
  | Ext c k => Ext c (fun r => tryCatch (k r) h)
  end.

(** An external call whose error is thrown at the call site. *)
Definition call {R : Type} (c : Cmd R) : Prog R :=
  Ext c (fun r => match r with
                  | inl e => Throw e
                  | inr v => Ret v
                  end).

(** An external call that cannot fail (a logger, the clock): an error
    answer is read as [default]. *)
Definition callTotal {R : Type} (c : Cmd R) (default : R) : Prog R :=
  Ext c (fun r => match r with
                  | inl _ => Ret default
                  | inr v => Ret v
                  end).

(** A synchronous pure step that may throw. *)
Definition lift {A : Type} (r : JsError + A) : Prog A :=
  match r with
  | inl e => Throw e
  | inr a => Ret a
  end.

Declare Scope prog_scope.
Delimit Scope prog_scope with prog.
Notation "x <- p ;; q" := (bind p (fun x => q))
  (at level 100, p at next level, right associativity) : prog_scope.
Notation "p ;;; q" := (bind p (fun _ => q))
  (at level 100, right associativity) : prog_scope.
Notation "' pat <- p ;; q" :=
  (bind p (fun v => match v with pat => q end))
  (at level 100, pat pattern, p at next level, right associativity)
  : prog_scope.
Open Scope prog_scope.

(** *** Running a program against a world *)

Inductive Outcome (A : Type) : Type :=
| Returned (a : A)
| Thrown (e : JsError)
| Pending.

Arguments Returned {A} a.
Arguments Thrown {A} e.
Arguments Pending {A}.

Inductive Event : Type :=
| Called {R : Type} (c : Cmd R) (answer : JsError + R).

(** A world answers each external call and moves to its next state. *)
Record World : Type := mkWorld {
  state : Type;
  answer : forall R : Type, Cmd R -> state -> (JsError + R) * state
}.

Fixpoint run {A : Type} (W : World) (p : Prog A) (w : state W)
    : Outcome A * state W * list Event :=
  match p with
  | Ret a => (Returned a, w, [])
  | Throw e => (Thrown e, w, [])
  | Never => (Pending, w, [])
  | Ext c k =>
      let '(r, w1) := answer W _ c w in
      let '(o, w2, t) := run W (k r) w1 in
      (o, w2, Called c r :: t)
  end.

(** ** Pure library functions used by the code

    Node's [path] module, the WHATWG URL class, the UTF-8 decoder of
    [Buffer], the markdown processor and the driver classes are libraries
    outside the two source files: they are taken as given. *)

(** A driver object: the properties the code reads from it.  Its
    asynchronous methods are external calls. *)
Definition RegExp : Type := string -> option (list (option string)).

Record Driver : Type := mkDriver {
  workflowId : option string;
  runId : option string;
  sha : option string;
  branch : option string;
  runnerLogPatterns : string -> option RegExp
}.

Record MdNode : Type := mkMdNode {
  nodeType : string;
  nodeUrl : option string;
  nodeTitle : option string;
  nodeValue : option string
}.

#[warnings="-register-all"]
Inductive Mdast : Type :=
| MdastNode (n : MdNode) (children : list Mdast).

Record Platform : Type := mkPlatform {
  pathResolve : string -> string -> string;
  pathDirname : option string -> JsError + string;
  pathBasename : string -> string;
  urlAppendSearchParam : string -> string -> string -> JsError + string;
  preventcacheUri : string -> JsError + string;
  utf8ToString : list byte -> string;
  remarkParse : string -> Mdast;
  remarkStringify : Mdast -> string;
  newDriver : string -> string -> option string -> JsError + Driver;
  magicFilePath : string;
  MAGIC_MIME : Z
}.

(** ** utils.js *)

Section Utils.

Variable pf : Platform.

(** The text before the first [sep]: element 0 of [s.split(sep)]. *)
Fixpoint splitFirst (sep : ascii) (s : string) : string :=
  match s with
  | EmptyString => EmptyString
  | String c s' => if Ascii.eqb c sep then EmptyString
                   else String c (splitFirst sep s')
  end.

(** Element 1 of [s.split(sep)], [None] when [s] has no [sep]. *)
Fixpoint splitSecond (sep : ascii) (s : string) : option string :=
  match s with
  | EmptyString => None
  | String c s' => if Ascii.eqb c sep then Some (splitFirst sep s')
                   else splitSecond sep s'
  end.

(** [mimeType({ path, buffer })] *)
Definition mimeType (opts : Opts) : Prog string :=
  let magicFile := magicFilePath pf in
  Ext (FsExistsSync magicFile) (fun present =>
  (match present with
   | inr true => callTotal (MagicSetFile magicFile) tt
   | _ => Ret tt
   end) ;;;
  flags <- call MagicGetInstance ;;
  tmppath <-
    match buffer opts with
    | Some data =>
        tmp <- call TempyFile ;;
        call (FsWriteFile tmp data) ;;;
        Ret (Some tmp)
    | None => Ret None
    end ;;
  detected <-
    call (MagicDetect
            (match buffer opts with Some _ => tmppath | None => path opts end)
            (Z.lor flags (MAGIC_MIME pf))) ;;
  if truthyStr detected then
    Ret (splitFirst ";" (jsToString detected))
  else
    Throw (newTypeError
             "(fileMagic.detect(...) || []).split is not a function")).

(** [fetchUploadData({ path, buffer, mimeType })] *)
Definition fetchUploadData (opts : Opts)
    : Prog (string * nat * UploadBody) :=
  size <-
    (if truthyStr (path opts) then call (FsStat (jsToString (path opts)))
     else match buffer opts with
          | Some data => Ret (List.length data)
          | None =>
              Throw (newTypeError
                "Cannot read properties of undefined (reading 'length')")
          end) ;;
  data <-
    (if truthyStr (path opts) then Ret (BodyStream (jsToString (path opts)))
     else match buffer opts with
          | Some data => Ret (BodyBuffer data)
          | None => Ret (BodyBuffer [])
          end) ;;
  mime <-
    (if truthyStr (mimeTypeIn opts) then Ret (jsToString (mimeTypeIn opts))
     else mimeType opts) ;;
  Ret (mime, size, data).

(** [upload({ path, session })] *)
Definition upload (opts : Opts) : Prog UploadResult :=
  let endpoint := "https://asset.cml.dev" in
  '(mime, size, data) <- fetchUploadData opts ;;
  let filename :=
    if truthyStr (path opts) then pathBasename pf (jsToString (path opts))
    else "file." ++ jsToString (splitSecond "/" mime) in
  let headers :=
    [ ("Content-Length", natToString size);
      ("Content-Type", mime);
      ("Content-Disposition",
       "inline; filename=" ++ dquote ++ filename ++ dquote) ] in
  let headers :=
    if truthyStr (session opts) then
      List.app headers
        [ ("Content-Address-Seed",
           jsToString (session opts) ++ ":" ++ jsToString (path opts)) ]
    else headers in
  response <- call (Fetch endpoint headers data) ;;
  uri <- call (ResponseText response) ;;
  if String.eqb uri EmptyString then
    Throw (newError
      ("Empty response from asset backend with status code " ++
       natToString (status response)))
  else Ret (mkUploadResult uri mime size).

(** [watermarkUri({ uri, type })] *)
Definition watermarkUri (uri : string) (type : option string)
    : JsError + string :=
  urlAppendSearchParam pf uri "cml" (jsToString type).

End Utils.

(** ** cml.js: the class [CML] *)

Definition GIT_USER_NAME : string := "Olivaw[bot]".
Definition GIT_USER_EMAIL : string := "olivaw@iterative.ai".
Definition GIT_REMOTE : string := "origin".
Definition GITHUB : string := "github".
Definition GITLAB : string := "gitlab".
Definition BB : string := "bitbucket".

Definition newline : string := String (ascii_of_nat 10) EmptyString.

Record CML : Type := mkCML {
  repo : string;
  token : option string;
  driver : option string
}.

Record RunnerLog : Type := mkRunnerLog {
  logStatus : string;
  logDate : string;
  logRepo : string;
  logJob : Val;
  logPipeline : option string;
  logSuccess : option bool;
  logLevel : string
}.

(** The [data] option of [parseRunnerLog]: absent, a string, or a Buffer. *)
Inductive LogData : Type :=
| DataUndefined
| DataString (s : string)
| DataBuffer (bytes : list byte).

Record RunnerLogOpts : Type := mkRunnerLogOpts {
  data : LogData;
  name : option string
}.

(** The options of [prCreate], with those its call of [ci] reads. *)
Record PrOpts : Type := mkPrOpts {
  remote : option string;
  globs : list string;
  prMd : bool;
  skipCi : bool;
  prBranch : option string;
  message : option string;
  prTitle : option string;
  prBody : option string;
  merge : bool;
  rebase : bool;
  squash : bool;
  unshallow : bool;
  userEmail : option string;
  userName : option string;
  fetchDepth : option Z
}.

Section Cml.

Variable pf : Platform.

(** The order in which the promises handed to [Promise.all] settle, chosen
    by the event loop: for [n] promises, a list of their indices. *)
Variable settleOrder : nat -> list nat.

Variable this : CML.

(** [getDriver()] *)
Definition getDriver : JsError + Driver :=
  if negb (truthyStr (driver this)) then inl (newError "driver not set")
  else
    let d := jsToString (driver this) in
    if String.eqb d GITHUB then newDriver pf GITHUB (repo this) (token this)
    else if String.eqb d GITLAB then newDriver pf GITLAB (repo this) (token this)
    else if String.eqb d BB then newDriver pf BB (repo this) (token this)
    else inl (newError ("driver " ++ d ++ " unknown!")).

(** [revParse({ ref = 'HEAD' })] *)
Definition revParse (ref : string) : Prog (option string) :=
  tryCatch
    (r <- call (Exec ["git"; "rev-parse"; ref]) ;; Ret (Some r))
    (fun _ =>
       callTotal
         (Winston "warn"
            "Failed to obtain SHA. Perhaps not in the correct git folder") tt ;;;
       Ret None).

(** [triggerSha()] *)
Definition triggerSha : Prog (option string) :=
  drv <- lift getDriver ;;
  if truthyStr (sha drv) then Ret (sha drv) else revParse "HEAD".

(** [branch()] *)
Definition currentBranch : Prog string :=
  drv <- lift getDriver ;;
  if truthyStr (branch drv) then Ret (jsToString (branch drv))
  else call (Exec ["git"; "branch"; "--show-current"]).

(** [publish(opts)] *)
Definition publish (opts : Opts) : Prog string :=
  let title := match title opts with Some t => t | None => EmptyString end in
  '(mime, uri) <-
    (if native opts then
       _ <- lift getDriver ;;
       r <- call (DrvUpload opts) ;;
       Ret (mime r, uri r)
     else
       r <- upload pf opts ;;
       Ret (mime r, uri r)) ;;
  uri <-
    (if negb (rmWatermark opts) then
       lift (watermarkUri pf uri (splitSecond "/" mime))
     else Ret uri) ;;
  uri <- lift (preventcacheUri pf uri) ;;
  if md opts && (includes mime "image/" || includes mime "video/") then
    Ret ("![](" ++ uri ++
         (if negb (String.eqb title EmptyString)
          then " " ++ dquote ++ title ++ dquote else EmptyString) ++ ")")
  else if md opts then Ret ("[" ++ title ++ "](" ++ uri ++ ")")
  else Ret uri.

(** [{ ...opts, path: absolutePath, url: publishUrl }] *)
Definition publishOpts (opts : Opts) (absolutePath : string) : Opts :=
  mkOpts (commitSha opts) (markdownFile opts) (pr opts) (publish_ opts)
    (publishUrl opts) (report opts) (rmWatermark opts) (commentTarget opts)
    (triggerFile opts) (update opts) (watch opts) (watermarkTitle opts)
    (title opts) (md opts) (native opts) (Some absolutePath) (buffer opts)
    (mimeTypeIn opts) (session opts) (publishUrl opts).

(** *** [publishLocalFiles] *)

Definition nodeTypeIn (types : list string) (n : MdNode) : bool :=
  existsb (String.eqb (nodeType n)) types.

(** A node object of the tree is known by its place: the indices of the
    children to follow from the root. *)
Definition NodeRef : Type := list nat.

(** The array [nodes]: each entry is a node object of the tree, with the
    value read from it when it was pushed. *)
Definition NodeList : Type := list (NodeRef * MdNode).

(** What the visit of a node does to [nodes], and what it hands back to the
    loop over its siblings: the number the callback returned, if the
    callback was called. *)
Definition Visit : Type :=
  NodeRef -> NodeList -> option (NodeList * option nat).

(** The loop of unist-util-visit over the children of the node [parent],
    [while (offset > -1 && offset < node.children.length)].  After the
    visit of a child the loop goes on at the index that visit handed back,
    [typeof subresult[1] === 'number' ? subresult[1] : offset + step].
    [rounds] bounds the number of rounds; [None] is a loop that has not
    ended within them. *)
Fixpoint visitChildren (kids : list Visit) (parent : NodeRef)
    (rounds offset : nat) (nodes : NodeList) {struct rounds}
    : option NodeList :=
  match nth_error kids offset with
  | None => Some nodes
  | Some kid =>
      match rounds with
      | 0 => None
      | S rounds' =>
          match kid (List.app parent [offset]) nodes with
          | Some (nodes', result) =>
              visitChildren kids parent rounds'
                (match result with
                 | Some index => index
                 | None => offset + 1
                 end) nodes'
          | None => None
          end
      end
  end.

(** The visit of one node by [visit(tree, types, (node) => nodes.push(node))]
    of unist-util-visit.  The callback is called on a node of one of the
    [types]; it returns what [push] returns, the new length of [nodes], and
    the library reads a number returned by the callback as the index of the
    sibling to go on with.  The children are visited in both cases.  The
    loop over [n] children ends within [(n + 1) * (n + 1)] rounds (lemma
    [visitNode_total]). *)
Fixpoint visitNode (types : list string) (tree : Mdast) : Visit :=
  match tree with
  | MdastNode n children =>
      let kids := map (visitNode types) children in
      fun ref nodes =>
        let '(pushed, result) :=
          if nodeTypeIn types n
          then (List.app nodes [(ref, n)], Some (S (List.length nodes)))
          else (nodes, None) in
        match visitChildren kids ref
                (S (List.length kids) * S (List.length kids)) 0 pushed with
        | Some nodes' => Some (nodes', result)
        | None => None
        end
  end.

(** The array [nodes] after [visit(tree, types, (node) => nodes.push(node))]. *)
Definition visit (types : list string) (tree : Mdast) : option NodeList :=
  option_map fst (visitNode types tree [] []).

(** The tree once [node.url = u] has run on the node object at [ref]: the
    array [nodes] holds the tree's own node objects, so the assignment is
    seen by the serializer. *)
Fixpoint assignUrl (ref : NodeRef) (u : string) (tree : Mdast) : Mdast :=
  match tree with
  | MdastNode n children =>
      match ref with
      | [] =>
          MdastNode
            (mkMdNode (nodeType n) (Some u) (nodeTitle n) (nodeValue n))
            children
      | i :: ref' =>
          MdastNode n
            ((fix assignChild (i : nat) (ts : list Mdast) : list Mdast :=
                match ts, i with
                | [], _ => []
                | t :: ts', 0 => assignUrl ref' u t :: ts'
                | t :: ts', S i' => t :: assignChild i' ts'
                end) i children)
      end
  end.

Definition isWatermark (node : MdNode) : bool :=
  match nodeTitle node with
  | Some t => negb (String.eqb t EmptyString) && startsWith t "CML watermark"
  | None => false
  end.

Definition setUrl (node : MdNode) (u : string) : MdNode :=
  mkMdNode (nodeType node) (Some u) (nodeTitle node) (nodeValue node).

(** The [visitor] of [publishLocalFiles], called on a node object that
    reads [node]; it yields the address it assigns to [node.url], if it
    assigns one. *)
Definition visitorAssigns (opts : Opts) (node : MdNode)
    : Prog (option string) :=
  if truthyStr (nodeUrl node) && negb (isWatermark node) then
    dir <- lift (pathDirname pf (markdownFile opts)) ;;
    let absolutePath := pathResolve pf dir (jsToString (nodeUrl node)) in
    (if negb (truthyStr (triggerFile opts)) && watch opts
     then call (WatcherAdd (Some absolutePath)) else Ret tt) ;;;
    tryCatch
      (u <- publish (publishOpts opts absolutePath) ;; Ret (Some u))
      (fun err =>
         if negb (match errCode err with
                  | Some code => String.eqb code "ENOENT"
                  | None => false
                  end)
         then Throw err else Ret None)
  else Ret None.

(** The same call; it yields the node as the call leaves it. *)
Definition visitor (opts : Opts) (node : MdNode) : Prog MdNode :=
  assigned <- visitorAssigns opts node ;;
  Ret (match assigned with
       | Some u => setUrl node u
       | None => node
       end).

(** [p] run to its settlement: its value or the error it rejects with. *)
Definition settle {A : Type} (p : Prog A) : Prog (JsError + A) :=
  tryCatch (a <- p ;; Ret (inr a)) (fun e => Ret (inl e)).

(** The promises run to settlement in the order [order].  Each promise
    is run as a whole when its turn comes: the interleaving of the external
    calls of different promises is not modelled, only the order in which
    they settle. *)
Fixpoint settleAll {A : Type} (ps : list (Prog A)) (order : list nat)
    : Prog (list (nat * (JsError + A))) :=
  match order with
  | [] => Ret []
  | i :: order' =>
      match nth_error ps i with
      | Some p =>
          r <- settle p ;;
          rs <- settleAll ps order' ;;
          Ret ((i, r) :: rs)
      | None => settleAll ps order'
      end
  end.

Definition firstRejection {A : Type} (rs : list (nat * (JsError + A)))
    : option JsError :=
  match find (fun r => match snd r with inl _ => true | inr _ => false end) rs with
  | Some (_, inl e) => Some e
  | _ => None
  end.

(** The value promise [i] was fulfilled with. *)
Definition fulfilled {A : Type} (rs : list (nat * (JsError + A))) (i : nat)
    : option A :=
  match find (fun r => Nat.eqb (fst r) i) rs with
  | Some (_, inr a) => Some a
  | _ => None
  end.

Fixpoint collect {A : Type} (l : list (option A)) : option (list A) :=
  match l with
  | [] => Some []
  | Some a :: l' => option_map (cons a) (collect l')
  | None :: _ => None
  end.

(** [Promise.all(ps)]: rejects with the first rejection to happen; once
    every promise is fulfilled, yields the values in the order of [ps]; a
    promise that never settles leaves the whole pending. *)
Definition promiseAll {A : Type} (ps : list (Prog A)) : Prog (list A) :=
  rs <- settleAll ps (settleOrder (List.length ps)) ;;
  match firstRejection rs with
  | Some e => Throw e
  | None =>
      match collect (map (fulfilled rs) (seq 0 (List.length ps))) with
      | Some values => Ret values
      | None => Never
      end
  end.

Definition referenceTypes : list string := ["definition"; "image"; "link"].

(** The tree after the assignments of the visitors.  Every visitor has
    read its node before the first of them settles, and a visitor assigns
    as it settles: the assignments happen in the order [order].  Entry [i]
    of [assigned] is what the visitor of entry [i] of [nodes] assigns. *)
Fixpoint assignUrls (nodes : NodeList) (assigned : list (option string))
    (order : list nat) (tree : Mdast) : Mdast :=
  match order with
  | [] => tree
  | i :: order' =>
      assignUrls nodes assigned order'
        (match nth_error nodes i, nth_error assigned i with
         | Some (ref, _), Some (Some u) => assignUrl ref u tree
         | _, _ => tree
         end)
  end.

(** [publishLocalFiles(tree)]; it yields the tree as the visitors leave
    it.  A node that [visit] has pushed twice has two visitors. *)
Definition publishLocalFiles (opts : Opts) (tree : Mdast) : Prog Mdast :=
  match visit referenceTypes tree with
  | Some nodes =>
      assigned <-
        promiseAll (map (fun entry => visitorAssigns opts (snd entry)) nodes) ;;
      Ret (assignUrls nodes assigned (settleOrder (List.length nodes)) tree)
  | None => Never
  end.

(** [.replace(/\\&(.+)=/g, '&$1=')] *)
Definition unescapeAmpersands (s : string) : string :=
  replaceAll escapedAmpersand "&$1=" s.

(** [updatableComment(comments)] *)
Definition updatableComment (watermark : string) (comments : list Comment)
    : option Comment :=
  find (fun c => includes (body c) watermark) (rev comments).

(** Modelled from the spec: [waitForever] of [utils.js], which the watch
    mode awaits, is not in the source files; the spec says the loop never
    returns during normal operation. *)
Definition waitForever {A : Type} : Prog A := Never.

(** [commentCreate], lines 181 to 265: the driver, the watermark and the
    report to post. *)
Definition composeReport (opts : Opts) : Prog (Driver * string * string) :=
  drv <- lift getDriver ;;
  if rmWatermark opts && update opts then
    Throw (newError "watermarks are mandatory for updateable comments")
  else
    let watermark :=
      if rmWatermark opts then EmptyString
      else genWatermark (watermarkTitle opts) (workflowId drv) (runId drv) in
    userReport <-
      tryCatch
        (if negb (truthyStr (report opts)) then
           r <- call (FsReadFile (markdownFile opts)) ;; Ret (Some r)
         else Ret (report opts))
        (fun err => if negb (watch opts) then Throw err else Ret (report opts)) ;;
    let report := jsToString userReport ++ newline ++ newline ++ watermark in
    report <-
      (if publish_ opts then
         tree <- publishLocalFiles opts (remarkParse pf report) ;;
         Ret (unescapeAmpersands (remarkStringify pf tree))
       else Ret report) ;;
    Ret (drv, watermark, report).

(** [commentCreate], lines 294 to 321: create or update on the target. *)
Definition reconcileComment (opts : Opts) (watermark report : string)
    : Prog Val :=
  t <- call (ParseCommentTarget (commitSha opts) (pr opts)
               (Some (match commentTarget opts with
                      | Some c => c
                      | None => "auto"
                      end))) ;;
  comment <-
    (if update opts then
       comments <- call (DrvComments (target t ++ "Comments") t) ;;
       Ret (updatableComment watermark comments)
     else Ret None) ;;
  match comment with
  | Some c =>
      call (DrvCommentUpdate (target t ++ "CommentUpdate") report
              (commentId c) t)
  | None => call (DrvCommentCreate (target t ++ "CommentCreate") report t)
  end.

(** [commentCreate(opts)].  In watch mode the callback registered by
    [watcher.on] is the transition function [WatchLoop.handle] below. *)
Definition commentCreate (opts : Opts) : Prog Val :=
  '(drv, watermark, report) <- composeReport opts ;;
  (if watch opts then
     call (WatcherAdd (if truthyStr (triggerFile opts) then triggerFile opts
                       else markdownFile opts)) ;;;
     call WatcherOnAll ;;;
     callTotal (Winston "info" "watching for file changes...") tt ;;;
     waitForever
   else Ret tt) ;;;
  reconcileComment opts watermark report.

(** *** [parseRunnerLog] *)

(** [regex.test(data)], for a pattern without the global flag. *)
Definition regexTest (regex : RegExp) (data : string) : bool :=
  match regex data with
  | Some _ => true
  | None => false
  end.

(** [parseId(key)]: group 1 of the pattern [key], when there is such a
    pattern and it matches. *)
Definition parseId (patterns : string -> option RegExp) (data : string)
    (key : string) : option string :=
  match patterns key with
  | Some regex =>
      match regex data with
      | Some matches =>
          match nth_error matches 1 with
          | Some g => g
          | None => None
          end
      | None => None
      end
  | None => None
  end.

Definition valOfStr (v : option string) : Val :=
  match v with
  | Some s => VStr s
  | None => VUndefined
  end.

(** [runners(opts)] and [runnerByName({ name })] *)
Definition runners (name : option string) : Prog (list Runner) :=
  _ <- lift getDriver ;;
  call (DrvRunners name).

Definition runnerByName (name : option string) : Prog (option Runner) :=
  rs <- runners name ;;
  Ret (find (fun runner =>
              match name with
              | Some n => String.eqb (runnerName runner) n
              | None => false
              end) rs).

Definition undefinedProperty (prop : string) : JsError :=
  newTypeError
    ("Cannot destructure property '" ++ prop ++ "' of undefined").

Definition undefinedMethod (method : string) : JsError :=
  newTypeError
    ("Cannot read properties of undefined (reading '" ++ method ++ "')").

Definition setJob (log : RunnerLog) (job : Val) : RunnerLog :=
  mkRunnerLog (logStatus log) (logDate log) (logRepo log) job
    (logPipeline log) (logSuccess log) (logLevel log).

Definition setPipeline (log : RunnerLog) (pipeline : option string)
    : RunnerLog :=
  mkRunnerLog (logStatus log) (logDate log) (logRepo log) (logJob log)
    pipeline (logSuccess log) (logLevel log).

Definition setSuccess (log : RunnerLog) (success : bool) : RunnerLog :=
  mkRunnerLog (logStatus log) (logDate log) (logRepo log) (logJob log)
    (logPipeline log) (Some success) (logLevel log).

Definition setLevel (log : RunnerLog) (level : string) : RunnerLog :=
  mkRunnerLog (logStatus log) (logDate log) (logRepo log) (logJob log)
    (logPipeline log) (logSuccess log) level.

(** The loop over the statuses; [logs] is the array built so far.  A log
    object starts with [status], [date] and [repo] only: its [success] is
    undefined, and so are [job] and [pipeline]. *)
Fixpoint parseStatuses (patterns : string -> option RegExp) (data : string)
    (name : option string) (statuses : list string) (logs : list RunnerLog)
    : Prog (list RunnerLog) :=
  match statuses with
  | [] => Ret logs
  | status :: rest =>
      match patterns status with
      | None => Throw (undefinedMethod "test")
      | Some regex =>
          if regexTest regex data then
            date <- callTotal DateNow EmptyString ;;
            let log :=
              mkRunnerLog status date (repo this) VUndefined None None
                EmptyString in
            log <-
              (if String.eqb status "job_started" then
                 let log := setJob log (valOfStr (parseId patterns data "job")) in
                 let log := setPipeline log (parseId patterns data "pipeline") in
                 if truthyStr name &&
                    match driver this with
                    | Some d => String.eqb d GITHUB
                    | None => false
                    end
                 then
                   found <- runnerByName name ;;
                   match found with
                   | None => Throw (undefinedProperty "id")
                   | Some runner =>
                       j <- call (DrvRunnerJob (runnerId runner)) ;;
                       match j with
                       | None => Throw (undefinedProperty "id")
                       | Some id => Ret (setJob log id)
                       end
                   end
                 else Ret log
               else Ret log) ;;
            log <-
              (if String.eqb status "job_ended" then
                 match patterns "job_ended_succeded" with
                 | None => Throw (undefinedMethod "test")
                 | Some succeeded =>
                     Ret (setSuccess log (regexTest succeeded data))
                 end
               else Ret log) ;;
            let log :=
              setLevel log
                (match logSuccess log with
                 | Some true => "info"
                 | _ => "error"
                 end) in
            parseStatuses patterns data name rest (List.app logs [log])
          else parseStatuses patterns data name rest logs
      end
  end.

(** [!data]: an absent value and the empty string are falsy; a Buffer is
    an object and is truthy, whatever its length. *)
Definition dataFalsy (d : LogData) : bool :=
  match d with
  | DataUndefined => true
  | DataString s => String.eqb s EmptyString
  | DataBuffer _ => false
  end.

(** [data.toString('utf8')] *)
Definition dataToString (d : LogData) : string :=
  match d with
  | DataUndefined => EmptyString
  | DataString s => s
  | DataBuffer bytes => utf8ToString pf bytes
  end.

(** [parseRunnerLog({ data, name })] *)
Definition parseRunnerLog (opts : RunnerLogOpts) : Prog (list RunnerLog) :=
  if dataFalsy (data opts) then Ret []
  else
    let data := dataToString (data opts) in
    drv <- lift getDriver ;;
    let patterns := runnerLogPatterns drv in
    parseStatuses patterns data (name opts)
      ["ready"; "job_started"; "job_ended"] [].

(** *** [ci] and [prCreate] *)

Definition zToString (z : Z) : string :=
  NilEmpty.string_of_int (Z.to_int z).

Definition orDefault (v : option string) (d : string) : string :=
  match v with
  | Some s => s
  | None => d
  end.

Definition listEqb (a b : list string) : bool :=
  if list_eq_dec string_dec a b then true else false.

(** The loop of [ci] over the commands of the driver. *)
Fixpoint runCommands (commands : list (list string)) : Prog unit :=
  match commands with
  | [] => Ret tt
  | command :: rest =>
      tryCatch
        (_ <- call (Exec command) ;; Ret tt)
        (fun err =>
           if negb (listEqb (firstn 3 command) ["git"; "config"; "--unset"])
           then Throw err else Ret tt) ;;;
      runCommands rest
  end.

(** [ci(opts)]; it yields what the last fetch printed, when there is one. *)
Definition ci (opts : PrOpts) : Prog (option string) :=
  let userEmail := orDefault (userEmail opts) GIT_USER_EMAIL in
  let userName := orDefault (userName opts) GIT_USER_NAME in
  let remote := orDefault (remote opts) GIT_REMOTE in
  let fetchDepth :=
    match fetchDepth opts with
    | Some d => Some d
    | None => if unshallow opts then Some 0%Z else None
    end in
  _ <- lift getDriver ;;
  commands <- call (DrvUpdateGitConfig userName userEmail remote) ;;
  runCommands commands ;;;
  match fetchDepth with
  | Some d =>
      if Z.leb d 0 then
        shallow <- call (Exec ["git"; "rev-parse"; "--is-shallow-repository"]) ;;
        if String.eqb shallow "true" then
          r <- call (Exec ["git"; "fetch"; "--all"; "--tags"; "--unshallow"]) ;;
          Ret (Some r)
        else Ret None
      else
        r <- call (Exec ["git"; "fetch"; "--all"; "--tags"; "--depth";
                         zToString d]) ;;
        Ret (Some r)
  | None => Ret None
  end.

(** [renderPr(url)] *)
Definition renderPr (opts : PrOpts) (url : string) : string :=
  if prMd opts then
    "[CML's " ++
    (if match driver this with
        | Some d => String.eqb d GITLAB
        | None => false
        end then "Merge" else "Pull") ++
    " Request](" ++ url ++ ")"
  else url.

(** What [prCreate] knows once it has probed the remote. *)
Record PrProbe : Type := mkPrProbe {
  probeSha : string;
  probeShaShort : string;
  probeTarget : string;
  probeSource : string;
  probePaths : list string;
  branchExists : bool
}.

(** [prCreate], lines 510 to 564.  [None] is the early return of
    [undefined] when there is nothing to do. *)
Definition prProbe (opts : PrOpts) : Prog (option PrProbe) :=
  _ <- lift getDriver ;;
  let remote := orDefault (remote opts) GIT_REMOTE in
  ci opts ;;;
  files <- call GitStatus ;;
  if Nat.eqb (List.length files) 0 && negb (Nat.eqb (List.length (globs opts)) 0)
  then
    callTotal
      (Winston "warn" "No changed files matched by glob path. Nothing to do.")
      tt ;;;
    Ret None
  else
    matched <- call (Globby (globs opts)) ;;
    let paths :=
      filter (fun p => existsb (String.eqb p) files) matched in
    if Nat.eqb (List.length paths) 0 &&
       negb (Nat.eqb (List.length (globs opts)) 0)
    then
      callTotal
        (Winston "warn" "Input files are not affected. Nothing to do.") tt ;;;
      Ret None
    else
      sha <- triggerSha ;;
      match sha with
      | None => Throw (undefinedMethod "substr")
      | Some sha =>
          let shaShort := substring 0 8 sha in
          target <- currentBranch ;;
          let source :=
            if truthyStr (prBranch opts) then jsToString (prBranch opts)
            else target ++ "-cml-pr-" ++ shaShort in
          remoteUrl <-
            call (Exec ["git"; "config"; "--get";
                        "remote." ++ remote ++ ".url"]) ;;
          listing <- call (Exec ["git"; "ls-remote"; remoteUrl; source]) ;;
          Ret (Some (mkPrProbe sha shaShort target source paths
                       (includes listing source)))
      end.

Definition isEmptyList {A : Type} (l : list A) : bool :=
  match l with
  | [] => true
  | _ => false
  end.

(** The call of [driver.prCreate] that ends [prCreate]. *)
Definition openPr (opts : PrOpts) (p : PrProbe) : Prog (option string) :=
  url <-
    call (DrvPrCreate
            (mkPrDescriptor (probeSource p) (probeTarget p)
               (if truthyStr (prTitle opts) then jsToString (prTitle opts)
                else "CML PR for " ++ probeTarget p ++ " " ++ probeShaShort p)
               (if truthyStr (prBody opts) then jsToString (prBody opts)
                else newline ++ "Automated commits for " ++ repo this ++
                     "/commit/" ++ probeSha p ++ " created by CML." ++
                     newline ++ "      ")
               (skipCi opts)
               (if merge opts then Some "merge"
                else if rebase opts then Some "rebase"
                else if squash opts then Some "squash"
                else None))) ;;
  Ret (Some (renderPr opts url)).

(** [prCreate], lines 566 to 611. *)
Definition prReconcile (opts : PrOpts) (p : PrProbe) : Prog (option string) :=
  let remote := orDefault (remote opts) GIT_REMOTE in
  if branchExists p then
    callTotal
      (DrvWarn ("Branch " ++ probeSource p ++ " already exists")) tt ;;;
    prs <- call DrvPrs ;;
    let found :=
      find (fun pr => endsWith (probeSource p) (prSource pr) &&
                      endsWith (probeTarget p) (prTarget pr)) prs in
    let url := match found with
               | Some pr => prUrl pr
               | None => None
               end in
    if truthyStr url then Ret (Some (renderPr opts (jsToString url)))
    else openPr opts p
  else
    call (Exec ["git"; "fetch"; remote; probeSha p]) ;;;
    (if negb (isEmptyList (probePaths p)) then
       _ <- call (Exec ["git"; "checkout"; "-B"; probeTarget p; probeSha p]) ;;
       Ret tt
     else Ret tt) ;;;
    call (Exec ["git"; "checkout"; "-b"; probeSource p]) ;;;
    (if negb (isEmptyList (probePaths p)) then
       call (Exec ("git" :: "add" :: probePaths p)) ;;;
       let commitMessage :=
         if truthyStr (message opts) then jsToString (message opts)
         else "CML PR for " ++ probeShaShort p in
       let commitMessage :=
         if skipCi opts ||
            (negb (truthyStr (message opts)) &&
             negb (merge opts || rebase opts || squash opts))
         then commitMessage ++ " [skip ci]" else commitMessage in
       _ <- call (Exec ["git"; "commit"; "-m"; commitMessage]) ;;
       Ret tt
     else Ret tt) ;;;
    call (Exec ["git"; "push"; "--set-upstream"; remote; probeSource p]) ;;;
    openPr opts p.

(** [prCreate(opts)] *)
Definition prCreate (opts : PrOpts) : Prog (option string) :=
  probe <- prProbe opts ;;
  match probe with
  | None => Ret None
  | Some p => prReconcile opts p
  end.

End Cml.

(** ** cml.js: the watch loop of [commentCreate], lines 267 to 292

    The callback registered by [watcher.on('all', ...)] runs on one thread:
    it runs from an event up to its first [await], and later from the
    settlement of the awaited promise up to the next [await] or its end.
    [handle] is the first of these steps and [resume] the others. *)

Module WatchLoop.

Section Loop.

Variable pf : Platform.
Variable settleOrder : nat -> list nat.
Variable this : CML.
Variable W : World.

(** The options of the call of [commentCreate] that started the loop. *)
Variable opts : Opts.

(** A run of the callback that waits at an [await]. *)
Inductive Suspended : Type :=
| AwaitCommentCreate (event path : string) (cycle : Opts)
| AwaitUnlink
| AwaitForever.

Record WatchState : Type := mkWatchState {
  first : bool;
  lock : bool;
  inFlight : list Suspended;
  world : state W;
  cycles : list Opts;     (* the calls of [commentCreate] made so far *)
  unlinks : nat           (* the calls of [fs.unlink] made so far *)
}.

Definition initial (w : state W) : WatchState :=
  mkWatchState true false [] w [] 0.

(** [{ ...opts, update: update || !first, watch: false }] *)
Definition cycleOpts (first : bool) : Opts :=
  mkOpts (commitSha opts) (markdownFile opts) (pr opts) (publish_ opts)
    (publishUrl opts) (report opts) (rmWatermark opts) (commentTarget opts)
    (triggerFile opts) (update opts || negb first) false
    (watermarkTitle opts) (title opts) (md opts) (native opts) (path opts)
    (buffer opts) (mimeTypeIn opts) (session opts) (url opts).

(** The callback from its start to the first [await]. *)
Definition handle (s : WatchState) (event path : string) : WatchState :=
  if lock s then s
  else
    let '(_, w) :=
      answer W _
        (Winston "info" ("watcher event: " ++ event ++ " " ++ path))
        (world s) in
    mkWatchState (first s) true
      (List.app (inFlight s)
         [AwaitCommentCreate event path (cycleOpts (first s))])
      w (List.app (cycles s) [cycleOpts (first s)]) (unlinks s).

Fixpoint removeNth {A : Type} (i : nat) (l : list A) : list A :=
  match i, l with
  | _, [] => []
  | O, _ :: l' => l'
  | S k, x :: l' => x :: removeNth k l'
  end.

Fixpoint replaceNth {A : Type} (i : nat) (y : A) (l : list A) : list A :=
  match i, l with
  | _, [] => []
  | O, _ :: l' => y :: l'
  | S k, x :: l' => x :: replaceNth k y l'
  end.

(** The end of the callback: [first = false; lock = false]. *)
Definition finish (s : WatchState) (i : nat) (w : state W) (unlinks : nat)
    : WatchState :=
  mkWatchState false false (removeNth i (inFlight s)) w (cycles s) unlinks.

(** The [catch] of the callback, then its end. *)
Definition caught (s : WatchState) (i : nat) (w : state W) (unlinks : nat)
    (err : JsError) : WatchState :=
  let '(_, w') := answer W _ (Winston "warn" (errMessage err)) w in
  finish s i w' unlinks.

(** The callback [i] goes on: the promise it awaits settles as the world
    decides. *)
Definition resume (s : WatchState) (i : nat) : WatchState :=
  match nth_error (inFlight s) i with
  | Some (AwaitCommentCreate event path cycle) =>
      let '(o, w, _) :=
        run W (commentCreate pf settleOrder this cycle) (world s) in
      match o with
      | Returned _ =>
          if negb (String.eqb event "unlink") &&
             match triggerFile opts with
             | Some f => String.eqb path f
             | None => false
             end
          then
            mkWatchState (first s) (lock s)
              (replaceNth i AwaitUnlink (inFlight s)) w (cycles s)
              (S (unlinks s))
          else finish s i w (unlinks s)
      | Thrown err => caught s i w (unlinks s) err
      | Pending =>
          mkWatchState (first s) (lock s)
            (replaceNth i AwaitForever (inFlight s)) w (cycles s) (unlinks s)
      end
  | Some AwaitUnlink =>
      let '(r, w) := answer W _ (FsUnlink (triggerFile opts)) (world s) in
      match r with
      | inr _ => finish s i w (unlinks s)
      | inl err => caught s i w (unlinks s) err
      end
  | Some AwaitForever => s
  | None => s
  end.

(** What the event loop delivers: a file-system event of the watcher, or
    the settlement awaited by the callback [i]. *)
Inductive Input : Type :=
| WatcherEvent (event path : string)
| Settled (i : nat).

Definition step (s : WatchState) (x : Input) : WatchState :=
  match x with
  | WatcherEvent event path => handle s event path
  | Settled i => resume s i
  end.

Definition steps (s : WatchState) (xs : list Input) : WatchState :=
  fold_left step xs s.

End Loop.

End WatchLoop.

(** ** cml.js: the constructor of [CML], lines 46 to 83 and 124 to 131 *)

(** [uriNoTrailingSlash(uri)] *)
Definition uriNoTrailingSlash (uri : string) : string :=
  if endsWith uri "/" then substring 0 (String.length uri - 1) uri else uri.

(** [String.prototype.replace] with a regular expression that has no
    global flag: the leftmost match is replaced. *)
Fixpoint replaceFirstFrom (m : Matcher) (template pre s : string) : string :=
  match m s with
  | Some (len, caps) =>
      getSubstitution (take len s) pre (drop len s) caps template ++ drop len s
  | None =>
      match s with
      | EmptyString => EmptyString
      | String c s' =>
          String c (replaceFirstFrom m template (pre ++ singleton c) s')
      end
  end.

Definition replaceFirst (m : Matcher) (template s : string) : string :=
  replaceFirstFrom m template EmptyString s.

(** The pattern [/\.git$/]: the text [.git] at the end of the input. *)
Definition dotGitAtEnd : Matcher :=
  fun s => if String.eqb s ".git" then Some (4, []) else None.

(** What the constructor reaches outside the file: the environment
    variables, [execSync] (with the decoding of its output), the
    [git-url-parse] and [strip-url-auth] packages and the [hostname] of the
    URL class. *)
Record GitUrl : Type := mkGitUrl {
  protocol : string;
  urlToString : string -> string
}.

Record Process : Type := mkProcess {
  env : string -> option string;
  execSync : string -> JsError + string;
  gitUrlParse : string -> JsError + GitUrl;
  stripAuth : string -> string;
  urlHostname : string -> JsError + string
}.

(** The options of the constructor. *)
Record CmlOpts : Type := mkCmlOpts {
  optDriver : option string;
  optRepo : option string;
  optToken : option string
}.

(** [a || b] on values that are strings or [undefined]. *)
Definition orElse (a b : option string) : option string :=
  if truthyStr a then a else b.

Section Constructor.

Variable ps : Process.

(** [gitRemoteUrl({ remote = GIT_REMOTE })] *)
Definition gitRemoteUrl (remote : option string) : JsError + string :=
  let remote := orDefault remote GIT_REMOTE in
  match execSync ps ("git config --get remote." ++ remote ++ ".url") with
  | inl e => inl e
  | inr out =>
      match gitUrlParse ps out with
      | inl e => inl e
      | inr url =>
          inr (stripAuth ps
                 (urlToString url
                    (if String.eqb (protocol url) "http" then "http"
                     else "https")))
      end
  end.

(** [inferToken()] *)
Definition inferToken : option string :=
  orElse
    (orElse
       (orElse (orElse (env ps "REPO_TOKEN") (env ps "repo_token"))
          (env ps "GITHUB_TOKEN"))
       (env ps "GITLAB_TOKEN"))
    (env ps "BITBUCKET_TOKEN").

(** [/bitbucket\.(com|org)/.test(hostname)] *)
Definition isBitbucketHost (hostname : string) : bool :=
  includes hostname "bitbucket.com" || includes hostname "bitbucket.org".

(** [inferDriver({ repo })] *)
Definition inferDriver (repo : option string) : JsError + option string :=
  let fromEnv :=
    if truthyStr (env ps "GITHUB_REPOSITORY") then Some GITHUB
    else if truthyStr (env ps "CI_PROJECT_URL") then Some GITLAB
    else if truthyStr (env ps "BITBUCKET_REPO_UUID") then Some BB
    else None in
  if truthyStr repo then
    match urlHostname ps (jsToString repo) with
    | inl e => inl e
    | inr hostname =>
        if String.eqb hostname "github.com" then inr (Some GITHUB)
        else if String.eqb hostname "gitlab.com" then inr (Some GITLAB)
        else if isBitbucketHost hostname then inr (Some BB)
        else inr fromEnv
    end
  else inr fromEnv.

(** The constructor from line 124 on: the fields of the new object.
    [fixGitSafeDirectory], which runs first and writes git's global
    configuration, is left out. *)
Definition newCML (opts : CmlOpts) : JsError + CML :=
  match (if truthyStr (optRepo opts) then inr (jsToString (optRepo opts))
         else gitRemoteUrl None) with
  | inl e => inl e
  | inr given =>
      let repo :=
        replaceFirst dotGitAtEnd EmptyString (uriNoTrailingSlash given) in
      let token := orElse (optToken opts) inferToken in
      match (if truthyStr (optDriver opts) then inr (optDriver opts)
             else inferDriver (Some repo)) with
      | inl e => inl e
      | inr driver => inr (mkCML repo token driver)
      end
  end.

End Constructor.

(** ** cml.js: [unregisterRunner] *)

Section Runners.

Variable pf : Platform.
Variable this : CML.

(** [runnerByName({ name, runners })], for a call that may bring the
    listing. *)
Definition runnerByNameIn (name : option string)
    (given : option (list Runner)) : Prog (option Runner) :=
  rs <- (match given with
         | Some rs => Ret rs
         | None => runners pf this name
         end) ;;
  Ret (find (fun runner =>
              match name with
              | Some n => String.eqb (runnerName runner) n
              | None => false
              end) rs).

(** [unregisterRunner(opts)].  The driver is called with
    [{ runnerId, ...opts }]: a [runnerId] of the options comes after the
    identifier that was looked up, and replaces it. *)
Definition unregisterRunner (opts : UnregisterOpts) : Prog Val :=
  found <- runnerByNameIn (unName opts) (unRunners opts) ;;
  let id := match found with
            | Some runner => runnerId runner
            | None => VUndefined
            end in
  if negb (truthy id) then Throw (newError "Runner not found")
  else
    _ <- lift (getDriver pf this) ;;
    call (DrvUnregisterRunner
            (match unRunnerId opts with
             | Some given => given
             | None => id
             end) opts).

End Runners.

(** ** utils.js: [exec], [isProcRunning], [sshConnection], [gpuPresent] *)

(** [s.slice(0, -1)] *)
Definition sliceButLast (s : string) : string :=
  substring 0 (String.length s - 1) s.

(** [exec(command)]: the callback handed to [child_process.exec], which
    settles the promise.  [error] tells whether the child failed. *)
Definition execSettle (stripAnsi : string -> string) (isTTY : bool)
    (command : string) (error : bool) (stdout stderr : string)
    : JsError + string :=
  let stdout := if negb isTTY then stripAnsi stdout else stdout in
  let stderr := if negb isTTY then stripAnsi stderr else stderr in
  if error then
    inl (newError
           (command ++ newline ++ String (ascii_of_nat 9) stdout ++
            newline ++ String (ascii_of_nat 9) stderr))
  else
    inr (sliceButLast
           (if negb (String.eqb stdout EmptyString) then stdout else stderr)).

(** [String.prototype.toLowerCase] on code units below 256: the letters A
    to Z and the capital letters of Latin-1 (192 to 222, but for the
    multiplication sign 215). *)
Definition toLowerCaseChar (c : ascii) : ascii :=
  let n := nat_of_ascii c in
  if (Nat.leb 65 n && Nat.leb n 90) ||
     (Nat.leb 192 n && Nat.leb n 222 && negb (Nat.eqb n 215))
  then ascii_of_nat (n + 32) else c.

Fixpoint toLowerCase (s : string) : string :=
  match s with
  | EmptyString => EmptyString
  | String c s' => String (toLowerCaseChar c) (toLowerCase s')
  end.

(** [String.prototype.indexOf] *)
Fixpoint indexOf (s pat : string) : Z :=
  if prefix pat s then 0%Z
  else match s with
       | EmptyString => (-1)%Z
       | String _ s' =>
           let i := indexOf s' pat in
           if Z.ltb i 0 then (-1)%Z else (i + 1)%Z
       end.

(** [isProcRunning({ name })]: the command of the platform, [None] for the
    [false] of an unknown platform. *)
Definition procCommand (platform : string) : option string :=
  if String.eqb platform "win32" then Some "tasklist"
  else if String.eqb platform "darwin" then Some "ps -ax"
  else if String.eqb platform "linux" then Some "ps -A"
  else None.

(** The callback of [isProcRunning], which settles its promise. *)
Definition procSettle (name : string) (err : option JsError) (stdout : string)
    : JsError + bool :=
  match err with
  | Some e => inl e
  | None =>
      inr (Z.gtb (indexOf (toLowerCase stdout) (toLowerCase name)) (-1))
  end.

(** [sshConnection({ host, username, privateKey, maxTries = 5 })].  The
    attempts of [ssh.connect] settle as [connects] tells, one after the
    other; the timer of [sleep] always fires.  The result carries the value
    of [trials], the number of times the loop has slept. *)
Inductive SshResult : Type :=
| SshConnected (trials : Z)
| SshRejected (err : JsError) (trials : Z)
| SshWaiting (trials : Z).

Fixpoint sshLoop (maxTries trials : Z) (connects : list (JsError + unit))
    : SshResult :=
  match connects with
  | [] => SshWaiting trials
  | inr _ :: _ => SshConnected trials
  | inl err :: rest =>
      if Z.eqb maxTries trials then SshRejected err trials
      else sshLoop maxTries (trials + 1) rest
  end.

Definition sshConnection (maxTries : option Z)
    (connects : list (JsError + unit)) : SshResult :=
  sshLoop (match maxTries with Some m => m | None => 5%Z end) 0 connects.

(** [gpuPresent()] *)
Definition gpuPresent : Prog bool :=
  tryCatch
    (_ <- call (Exec ["nvidia-smi"]) ;; Ret true)
    (fun _ =>
       tryCatch
         (_ <- call (Exec ["cuda-smi"]) ;; Ret true)
         (fun _ => Ret false)).

(** * Definitions used by the statements *)

(** Replacement of one character by a text, the effect of a global
    single-character pattern with a template free of dollar signs. *)
Fixpoint mapChar (c : ascii) (rep : string) (s : string) : string :=
  match s with
  | EmptyString => EmptyString
  | String a s' => (if Ascii.eqb a c then rep else String a EmptyString) ++ mapChar c rep s'
  end.

Fixpoint noDollar (s : string) : bool :=
  match s with
  | EmptyString => true
  | String c s' => negb (Ascii.eqb c "$") && noDollar s'
  end.

Fixpoint allChars (P : ascii -> bool) (s : string) : bool :=
  match s with
  | EmptyString => true
  | String c s' => P c && allChars P s'
  end.

(** The text holds no occurrence of the character. *)
Definition lacksChar (c : ascii) (s : string) : bool :=
  allChars (fun a => negb (Ascii.eqb a c)) s.

(** The text holds no line terminator. *)
Definition oneLine (s : string) : bool :=
  allChars (fun a => negb (isLineTerminator a)) s.

Definition headIs (c : ascii) (s : string) : bool :=
  match s with
  | String d _ => Ascii.eqb d c
  | EmptyString => false
  end.

(** An exclamation mark directly followed by an opening bracket. *)
Fixpoint hasBangBracket (s : string) : bool :=
  match s with
  | EmptyString => false
  | String c s' => (Ascii.eqb c "!" && headIs "[" s') || hasBangBracket s'
  end.

(** The label once [{workflow}] is replaced: the text in which
    [genWatermark] looks for [{run}]. *)
Definition labelAfterWorkflow (label workflow : option string) : string :=
  replaceStr (match label with Some l => l | None => EmptyString end)
    "{workflow}" (jsToString workflow).

Definition tokenRest : string :=
  "](https://cml.dev/watermark.png " ++ dquote ++ "CML watermark ".

Definition tokenOpening : string := String "[" tokenRest.

Definition tokenClosing : string := dquote ++ ")".

(** The answer to a call of [fileMagic.detect], when the event is one. *)
Definition detectAnswer (ev : Event) : option (JsError + option string) :=
  match ev with
  | Called c r =>
      match c in Cmd R return (JsError + R) -> option (JsError + option string)
      with
      | MagicDetect _ _ => fun r => Some r
      | _ => fun _ => None
      end r
  end.



Definition outcomeOf {A : Type} (r : JsError + A) : Outcome A :=
  match r with
  | inl e => Thrown e
  | inr a => Returned a
  end.

Definition lacksWatermark (watermark : string) (c : Comment) : bool :=
  negb (includes (body c) watermark).

Definition defaultTarget (opts : Opts) : option string :=
  Some (match commentTarget opts with
        | Some c => c
        | None => "auto"
        end).




(** The settlements among the inputs of the loop. *)
Fixpoint settlements (xs : list WatchLoop.Input) : nat :=
  match xs with
  | [] => 0
  | WatchLoop.WatcherEvent _ _ :: xs' => settlements xs'
  | WatchLoop.Settled _ :: xs' => S (settlements xs')
  end.

(** The lock of the watch loop is held exactly while one run of the
    callback is in flight. *)
Definition lockInvariant (W : World) (s : WatchLoop.WatchState W) : Prop :=
  (WatchLoop.lock W s = true /\ exists h, WatchLoop.inFlight W s = [h]) \/
  (WatchLoop.lock W s = false /\ WatchLoop.inFlight W s = []).

(** The reconciliations started so far, plus one while the lock is
    free. *)
Definition credit (W : World) (s : WatchLoop.WatchState W) : nat :=
  List.length (WatchLoop.cycles W s) + (if WatchLoop.lock W s then 0 else 1).

(** *** Definitions for the properties of the rest of the code *)

(** Where the constructor looks for a token before it falls back on
    [BITBUCKET_TOKEN], in order. *)
Definition tokenSources (ps : Process) (opts : CmlOpts)
    : list (option string) :=
  [ optToken opts; env ps "REPO_TOKEN"; env ps "repo_token";
    env ps "GITHUB_TOKEN"; env ps "GITLAB_TOKEN" ].

(** The test of [runnerByName]. *)
Definition namedRunner (name : option string) (runner : Runner) : bool :=
  match name with
  | Some n => String.eqb (runnerName runner) n
  | None => false
  end.

Definition lengthOfUndefined : JsError :=
  newTypeError "Cannot read properties of undefined (reading 'length')".

Definition emptyResponse (response : HttpResponse) : JsError :=
  newError ("Empty response from asset backend with status code " ++
            natToString (status response)).

(** The answer to a call of [response.text()], when the event is one. *)
Definition responseTextOf (ev : Event)
    : option (HttpResponse * (JsError + string)) :=
  match ev with
  | Called c r =>
      match c in Cmd R
            return (JsError + R) -> option (HttpResponse * (JsError + string))
      with
      | ResponseText response => fun r => Some (response, r)
      | _ => fun _ => None
      end r
  end.

Definition isNone {A : Type} (o : option A) : bool :=
  match o with
  | None => true
  | Some _ => false
  end.

(** The file a call of [fileMagic.detect] reads, the file a call of
    [fs.promises.stat] measures and the file and bytes of a call of
    [fs.promises.writeFile], when the event is such a call. *)
Definition detectedFile (ev : Event) : option (option string) :=
  match ev with
  | Called c _ =>
      match c with
      | MagicDetect file _ => Some file
      | _ => None
      end
  end.

Definition writtenFile (ev : Event) : option (string * list byte) :=
  match ev with
  | Called c _ =>
      match c with
      | FsWriteFile file bytes => Some (file, bytes)
      | _ => None
      end
  end.

(** The file whose size [fs.promises.stat] was asked for, with the size it
    answered. *)
Definition measuredSize (ev : Event) : option (string * nat) :=
  match ev with
  | Called c r =>
      match c in Cmd R return (JsError + R) -> option (string * nat) with
      | FsStat file =>
          fun r => match r with
                   | inr n => Some (file, n)
                   | inl _ => None
                   end
      | _ => fun _ => None
      end r
  end.

(** The file handed to the detector, with what the detector answered. *)
Definition detection (ev : Event) : option (option string * option string) :=
  match ev with
  | Called c r =>
      match c in Cmd R
            return (JsError + R) -> option (option string * option string)
      with
      | MagicDetect file _ =>
          fun r => match r with
                   | inr answered => Some (file, answered)
                   | inl _ => None
                   end
      | _ => fun _ => None
      end r
  end.

(** A command of [ci] whose failure is ignored. *)
Definition unsetCommand (command : list string) : bool :=
  listEqb (firstn 3 command) ["git"; "config"; "--unset"].

Definition nothingChanged : Cmd unit :=
  Winston "warn" "No changed files matched by glob path. Nothing to do.".

Definition notAffected : Cmd unit :=
  Winston "warn" "Input files are not affected. Nothing to do.".

(** A call of [exec] that succeeded. *)
Definition gitSucceeded (ev : Event) : bool :=
  match ev with
  | Called c r =>
      match c in Cmd R return (JsError + R) -> bool with
      | Exec _ => fun r => match r with
                           | inr _ => true
                           | inl _ => false
                           end
      | _ => fun _ => false
      end r
  end.

Definition opensPr (ev : Event) : bool :=
  match ev with
  | Called c _ =>
      match c with
      | DrvPrCreate _ => true
      | _ => false
      end
  end.

(** The pattern of a status is there and matches the output. *)
Definition patternMatches (patterns : string -> option RegExp) (data : string)
    (status : string) : bool :=
  match patterns status with
  | Some regex => regexTest regex data
  | None => false
  end.

(** A log as the loop of [parseRunnerLog] leaves it: the repository of
    the object, a level that follows [success], and a [success] that is
    defined for [job_ended] only. *)
Definition levelled (this : CML) (log : RunnerLog) : bool :=
  String.eqb (logRepo log) (repo this) &&
  String.eqb (logLevel log)
    (match logSuccess log with Some true => "info" | _ => "error" end) &&
  Bool.eqb (match logSuccess log with Some _ => true | None => false end)
    (String.eqb (logStatus log) "job_ended").

(** The title that [genWatermark] puts between the quotes. *)
Definition watermarkTitleOf (label workflow run : option string) : string :=
  escapeTitle
    (trim ("CML watermark " ++
           replaceStr
             (replaceStr (match label with Some l => l | None => EmptyString end)
                "{workflow}" (jsToString workflow))
             "{run}" (jsToString run))).

(** The calls of [commentCreate] made by the callback of the watch loop:
    none watches, and all but the first update. *)
Definition cyclesReconcile (cs : list Opts) : bool :=
  forallb (fun c => negb (watch c)) cs &&
  forallb update (tl cs).

Definition cyclesInvariant (W : World) (opts : Opts)
    (s : WatchLoop.WatchState W) : Prop :=
  cyclesReconcile (WatchLoop.cycles W s) = true /\
  (WatchLoop.first W s = true -> WatchLoop.lock W s = false ->
   WatchLoop.cycles W s = []) /\
  (WatchLoop.first W s = true -> List.length (WatchLoop.cycles W s) <= 1) /\
  (triggerFile opts = None -> WatchLoop.unlinks W s = 0) /\
  (forall c, nth_error (WatchLoop.cycles W s) 0 = Some c ->
             update c = update opts) /\
  (WatchLoop.inFlight W s <> [] -> WatchLoop.cycles W s <> []) /\
  (WatchLoop.first W s = false -> WatchLoop.cycles W s <> []).

(** The headers of a call of [fetch], when the event is one. *)
Definition fetchHeaders (ev : Event) : option (list (string * string)) :=
  match ev with
  | Called c _ =>
      match c with
      | Fetch _ headers _ => Some headers
      | _ => None
      end
  end.

(** The callback has ended: nothing is in flight, the lock is free and the
    next cycle is not the first. *)
Definition callbackEnded (W : World) (s : WatchLoop.WatchState W) : Prop :=
  WatchLoop.inFlight W s = [] /\ WatchLoop.lock W s = false /\
  WatchLoop.first W s = false.

(** * Sample inputs: a platform, drivers and worlds for the concrete runs *)

Module Sample.

Definition literal (text : string) : RegExp :=
  fun data => if includes data text then Some [Some text] else None.

(** The patterns of a driver whose runner prints fixed phrases. *)
Definition logPatterns (key : string) : option RegExp :=
  if String.eqb key "ready" then Some (literal "Listening for Jobs")
  else if String.eqb key "job_started" then Some (literal "Running job")
  else if String.eqb key "job_ended" then Some (literal "completed with result")
  else if String.eqb key "job_ended_succeded"
  then Some (literal "completed with result: Succeeded")
  else None.

Definition sampleDriver : Driver :=
  mkDriver (Some "build") (Some "1234") (Some "0123456789abcdef")
    (Some "main") logPatterns.

Definition platform : Platform :=
  mkPlatform
    (fun dir file => dir ++ "/" ++ file)
    (fun file =>
       match file with
       | Some _ => inr "."
       | None => inl (newTypeError "The path argument must be of type string")
       end)
    (fun file => file)
    (fun uri key value => inr (uri ++ "?" ++ key ++ "=" ++ value))
    (fun uri => inr (uri ++ "&cache-bypass=0"))
    string_of_list_byte
    (fun text => MdastNode (mkMdNode "root" None None (Some text)) [])
    (fun tree => match tree with
                 | MdastNode n _ => jsToString (nodeValue n)
                 end)
    (fun _ _ _ => inr sampleDriver)
    "/opt/cml/assets/magic.mgc"
    1040%Z.

Definition inOrder (n : nat) : list nat := seq 0 n.

Definition github : CML :=
  mkCML "https://github.com/owner/repo" (Some "token") (Some GITHUB).

Definition noDriver : CML :=
  mkCML "https://example.com/owner/repo" None None.

Definition unavailable {R : Type} : JsError + R :=
  inl (newError "not available").

(** A world in which the clock and the loggers work and nothing else. *)
Definition quietAnswer (R : Type) (c : Cmd R) : JsError + R :=
  match c in Cmd R return JsError + R with
  | DateNow => inr "2022-01-01T00:00:00.000Z"
  | Winston _ _ => inr tt
  | DrvWarn _ => inr tt
  | _ => unavailable
  end.

Definition quiet : World :=
  mkWorld unit (fun R c w => (quietAnswer R c, w)).

Definition opts : Opts :=
  mkOpts None (Some "report.md") None false None None false None None
    false false None None false false None None None None None.

End Sample.

Definition rmWatermarkUpdateOpts : Opts :=
  mkOpts None (Some "report.md") None false None None true None None
    true false None None false false None None None None None.

Definition jobStartedOpts : RunnerLogOpts :=
  mkRunnerLogOpts (DataString "2022-01-01 Running job: build") None.

Definition cannotOpen : JsError :=
  mkJsError "Error" "cannot open `report.png' (No such file or directory)"
    None.

(** A world in which the detector cannot open the file and throws. *)
Definition unreadable : World :=
  mkWorld unit
    (fun R c w =>
       (match c in Cmd R return JsError + R with
        | FsExistsSync _ => inr false
        | MagicGetInstance => inr 0%Z
        | MagicDetect _ _ => inl cannotOpen
        | c' => Sample.quietAnswer _ c'
        end, w)).

Definition pngOpts : Opts :=
  mkOpts None (Some "report.md") None false None None false None None
    false false None None false false (Some "report.png") None None None None.



Definition plotNode : MdNode :=
  mkMdNode "image" (Some "plot.png") None None.

Definition plotDocument : Mdast :=
  MdastNode (mkMdNode "root" None None None)
    [ MdastNode (mkMdNode "paragraph" None None None)
        [ MdastNode (mkMdNode "text" None None (Some "Loss: ")) [];
          MdastNode plotNode [] ] ].


Definition image (file : string) : MdNode :=
  mkMdNode "image" (Some file) None None.

(** Two images in a first paragraph, three in a second. *)
Definition galleryDocument : Mdast :=
  MdastNode (mkMdNode "root" None None None)
    [ MdastNode (mkMdNode "paragraph" None None None)
        [ MdastNode (image "a.png") []; MdastNode (image "b.png") [] ];
      MdastNode (mkMdNode "paragraph" None None None)
        [ MdastNode (image "c.png") []; MdastNode (image "d.png") [];
          MdastNode (image "e.png") [] ] ].

Definition sampleWatermark : string :=
  genWatermark None (Some "build") (Some "1234").

Definition commitTarget : CommentTarget :=
  mkCommentTarget "commit" [("commitSha", VStr "0123456789abcdef")].

Definition thread : list Comment :=
  [ mkComment (VNum 1) "first!";
    mkComment (VNum 2) ("report of run 1" ++ newline ++ sampleWatermark);
    mkComment (VNum 3) ("report of run 2" ++ newline ++ sampleWatermark);
    mkComment (VNum 4) "thanks" ].

(** A world with a report file and a commit that has four comments; the
    comment operations answer with the id they were given. *)
Definition commented : World :=
  mkWorld unit
    (fun R c w =>
       (match c in Cmd R return JsError + R with
        | FsReadFile _ => inr "# Report"
        | ParseCommentTarget _ _ _ => inr commitTarget
        | DrvComments _ _ => inr thread
        | DrvCommentUpdate _ _ id _ => inr id
        | DrvCommentCreate _ _ _ => inr VUndefined
        | c' => Sample.quietAnswer _ c'
        end, w)).

Definition updateOpts : Opts :=
  mkOpts None (Some "report.md") None false None None false None None
    true false None None false false None None None None None.

Definition sampleReport : string :=
  "# Report" ++ newline ++ newline ++ sampleWatermark.

(** A forge and its repository: the branches of the remote and the open
    pull requests, listed oldest first. *)
Record Forge : Type := mkForge {
  branches : list string;
  pulls : list PullRequest
}.

Definition tab : string := String (ascii_of_nat 9) EmptyString.

Definition forgeExec (args : list string) (f : Forge)
    : (JsError + string) * Forge :=
  match args with
  | [_; verb; _; ref] =>
      if String.eqb verb "config" then
        (inr "https://github.com/owner/repo.git", f)
      else if String.eqb verb "ls-remote" then
        (inr (if existsb (String.eqb ref) (branches f)
              then "0123456789abcdef0123456789abcdef01234567" ++ tab ++
                   "refs/heads/" ++ ref
              else EmptyString), f)
      else (inr EmptyString, f)
  | [_; verb; _; _; ref] =>
      if String.eqb verb "push" then
        (inr EmptyString, mkForge (List.app (branches f) [ref]) (pulls f))
      else (inr EmptyString, f)
  | _ => (inr EmptyString, f)
  end.

Definition forgeAnswer (R : Type) (c : Cmd R) (f : Forge)
    : (JsError + R) * Forge :=
  match c in Cmd R return (JsError + R) * Forge with
  | DrvUpdateGitConfig _ _ _ => (inr [], f)
  | GitStatus => (inr ["report.md"], f)
  | Globby _ => (inr [], f)
  | Exec args => forgeExec args f
  | DrvPrs => (inr (pulls f), f)
  | DrvPrCreate d =>
      let url :=
        "https://github.com/owner/repo/pull/" ++
        natToString (S (List.length (pulls f))) in
      (inr url,
       mkForge (branches f)
         (List.app (pulls f)
            [mkPullRequest (pdSource d) (pdTarget d) (Some url)]))
  | c' => (Sample.quietAnswer _ c', f)
  end.

Definition forge : World := mkWorld Forge forgeAnswer.

Definition reportPrOpts : PrOpts :=
  mkPrOpts None [] false false (Some "cml/report") None None None
    false false false false None None None.













Definition watchOpts : Opts :=
  mkOpts None (Some "report.md") None false None None false None None
    false true None None false false None None None None None.

Definition burstAroundSettlement : list WatchLoop.Input :=
  [ WatchLoop.WatcherEvent "change" "report.md";
    WatchLoop.WatcherEvent "add" "plot.png";
    WatchLoop.Settled 0;
    WatchLoop.WatcherEvent "change" "plot.png";
    WatchLoop.WatcherEvent "change" "report.md" ].

(** *** Sample inputs for the rest of the code *)

(** A GitLab job: no [REPO_TOKEN] worth the name, two platform tokens. *)
Definition sampleEnv (key : string) : option string :=
  if String.eqb key "GITLAB_TOKEN" then Some "glpat-1"
  else if String.eqb key "GITHUB_TOKEN" then Some "ghp-1"
  else if String.eqb key "REPO_TOKEN" then Some EmptyString
  else if String.eqb key "CI_PROJECT_URL"
  then Some "https://gitlab.com/owner/repo"
  else None.

(** A URL class that reads the host between the scheme and the first
    slash. *)
Definition sampleHostname (address : string) : JsError + string :=
  match splitOn "://" address with
  | Some (_, rest) => inr (splitFirst "/" rest)
  | None => inl (newTypeError "Invalid URL")
  end.

Definition sampleProcess : Process :=
  mkProcess sampleEnv
    (fun _ => inr "git@github.com:owner/repo.git")
    (fun address =>
       inr (mkGitUrl "ssh" (fun _ => "https://github.com/owner/repo.git")))
    (fun address => address)
    sampleHostname.

(** A process with an empty environment, outside a git folder. *)
Definition emptyProcess : Process :=
  mkProcess (fun _ => None)
    (fun _ => inl (newError "Command failed: git config"))
    (fun _ => inl (newError "URL parsing failed."))
    (fun address => address)
    sampleHostname.

Definition selfHosted : CmlOpts :=
  mkCmlOpts None (Some "https://git.example.com/owner/repo.git") None.

Definition runnerPool : list Runner :=
  [ mkRunner (VNum 7) "cml-a"; mkRunner (VNum 0) "cml-b";
    mkRunner (VNum 9) "cml-b" ].

(** Options that name the runner [cml-a], whose identifier is 7, and that
    have a [runnerId] of their own, 0. *)
Definition staleIdOpts : UnregisterOpts :=
  mkUnregisterOpts (Some "cml-a") (Some runnerPool) (Some (VNum 0)).

Definition refused (attempt : string) : JsError :=
  mkJsError "Error" ("connect ECONNREFUSED, attempt " ++ attempt)
    (Some "ECONNREFUSED").

(** A world with a file of three bytes, a detector that knows PNG and an
    asset backend that answers with an address. *)
Definition assetBackend : World :=
  mkWorld unit
    (fun R c w =>
       (match c in Cmd R return JsError + R with
        | FsStat _ => inr 3
        | FsExistsSync _ => inr false
        | MagicGetInstance => inr 0%Z
        | TempyFile => inr "/tmp/0a1b2c"
        | FsWriteFile _ _ => inr tt
        | MagicDetect _ _ => inr (Some "image/png; charset=binary")
        | Fetch _ _ _ => inr (mkHttpResponse 201 1)
        | ResponseText _ => inr "https://asset.cml.dev/0a1b2c"
        | c' => Sample.quietAnswer _ c'
        end, w)).

(** A backend that answers with an empty body. *)
Definition silentBackend : World :=
  mkWorld unit
    (fun R c w =>
       (match c in Cmd R return JsError + R with
        | FsStat _ => inr 3
        | Fetch _ _ _ => inr (mkHttpResponse 502 1)
        | ResponseText _ => inr EmptyString
        | c' => Sample.quietAnswer _ c'
        end, w)).

Definition pngBytes : list byte := [x89; x50; x4e; x47].

(** Options that bring both a path and a buffer. *)
Definition pathAndBufferOpts : Opts :=
  mkOpts None (Some "report.md") None false None None false None None
    false false None None false false (Some "plot.png") (Some pngBytes) None
    None None.

Definition typedOpts : Opts :=
  mkOpts None (Some "report.md") None false None None false None None
    false false None None false false (Some "plot.png") None
    (Some "image/png") None None.

Definition watchWithoutWatermarkOpts : Opts :=
  mkOpts None (Some "report.md") None false None None true None None
    false true None None false false None None None None None.

(** Watch mode with a trigger file. *)
Definition triggerOpts : Opts :=
  mkOpts None (Some "report.md") None false None None false None
    (Some "trigger.txt") false true None None false false None None None None
    None.

Definition unsetCommands : list (list string) :=
  [ ["git"; "config"; "--unset"; "user.name"];
    ["git"; "config"; "--unset"; "http.extraheader"] ].

Definition configCommands : list (list string) :=
  [ ["git"; "config"; "--unset"; "user.name"];
    ["git"; "config"; "user.name"; GIT_USER_NAME];
    ["git"; "config"; "user.email"; GIT_USER_EMAIL] ].

Definition globPrOpts : PrOpts :=
  mkPrOpts None ["*.png"] false false None None None None
    false false false false None None None.

Definition freshProbe : PrProbe :=
  mkPrProbe "0123456789abcdef" "01234567" "main" "cml/report" [] false.

Definition namedJobOpts : RunnerLogOpts :=
  mkRunnerLogOpts (DataString "2022-01-01 Running job: build") (Some "cml-z").

(** A world whose driver lists the runners of [runnerPool]. *)
Definition pooled : World :=
  mkWorld unit
    (fun R c w =>
       (match c in Cmd R return JsError + R with
        | DrvRunners _ => inr runnerPool
        | c' => Sample.quietAnswer _ c'
        end, w)).

(** Options that bring a buffer and a session, and no path. *)
Definition bufferOpts : Opts :=
  mkOpts None (Some "report.md") None false None None false None None
    false false None None false false None (Some pngBytes) None
    (Some "run-1") None.

Definition bufferHeaders : list (string * string) :=
  [ ("Content-Length", "4");
    ("Content-Type", "image/png");
    ("Content-Disposition",
     "inline; filename=" ++ dquote ++ "file.png" ++ dquote);
    ("Content-Address-Seed", "run-1:undefined") ].

(** * Properties *)

(** ** Facts about strings *)

Module StringFacts.

Lemma append_nil_r (s : string) : s ++ EmptyString = s.
Proof. induction s as [|c s IH]; simpl; [reflexivity | now rewrite IH]. Qed.

Lemma append_assoc (a b c : string) : (a ++ b) ++ c = a ++ (b ++ c).
Proof. induction a as [|x a IH]; simpl; [reflexivity | now rewrite IH]. Qed.

Lemma length_append (a b : string) :
  String.length (a ++ b) = String.length a + String.length b.
Proof. induction a as [|x a IH]; simpl; [reflexivity | now rewrite IH]. Qed.

Lemma append_inv_head (a b c : string) : a ++ b = a ++ c -> b = c.
Proof.
  induction a as [|x a IH]; simpl; intros H; [exact H | ].
  injection H as H. now apply IH.
Qed.

Lemma prefix_nil (s : string) : prefix EmptyString s = true.
Proof. destruct s; reflexivity. Qed.

Lemma prefix_cons (a b : ascii) (p s : string) :
  prefix (String a p) (String b s) = Ascii.eqb a b && prefix p s.
Proof.
  simpl. destruct (ascii_dec a b) as [->|Hne].
  - now rewrite Ascii.eqb_refl.
  - apply Ascii.eqb_neq in Hne. now rewrite Hne.
Qed.

Lemma prefix_app (p r : string) : prefix p (p ++ r) = true.
Proof.
  induction p as [|a p IH]; simpl append; [apply prefix_nil | ].
  rewrite prefix_cons, Ascii.eqb_refl, IH. reflexivity.
Qed.

Lemma prefix_refl (s : string) : prefix s s = true.
Proof. rewrite <- (append_nil_r s) at 2. apply prefix_app. Qed.

Lemma prefix_inv (p s : string) :
  prefix p s = true -> exists r, s = p ++ r.
Proof.
  revert s. induction p as [|a p IH]; intros s H.
  - exists s. reflexivity.
  - destruct s as [|b s]; [discriminate | ].
    rewrite prefix_cons in H. apply andb_prop in H as [Hab Hp].
    apply Ascii.eqb_eq in Hab. subst b.
    destruct (IH _ Hp) as [r ->]. exists r. reflexivity.
Qed.

Lemma includes_prefix (s p : string) :
  prefix p s = true -> includes s p = true.
Proof. intros H. destruct s; cbn [includes]; now rewrite H. Qed.

Lemma includes_cons (c : ascii) (s p : string) :
  includes s p = true -> includes (String c s) p = true.
Proof.
  intros H. cbn [includes]. rewrite H.
  now destruct (prefix p (String c s)).
Qed.

Lemma includes_refl (s : string) : includes s s = true.
Proof. apply includes_prefix, prefix_refl. Qed.

Lemma includes_inv (s p : string) :
  includes s p = true -> exists u v, s = u ++ p ++ v.
Proof.
  induction s as [|c s IH]; cbn [includes]; intros H.
  - destruct (prefix p EmptyString) eqn:Hp; [ | discriminate].
    apply prefix_inv in Hp as [r Hr]. exists EmptyString, r. exact Hr.
  - destruct (prefix p (String c s)) eqn:Hp.
    + apply prefix_inv in Hp as [r Hr]. exists EmptyString, r. exact Hr.
    + destruct (IH H) as (u & v & ->). exists (String c u), v. reflexivity.
Qed.

Lemma includes_app (u p v : string) : includes (u ++ p ++ v) p = true.
Proof.
  induction u as [|c u IH].
  - apply includes_prefix. simpl append. apply prefix_app.
  - simpl append. now apply includes_cons.
Qed.

End StringFacts.

Import StringFacts.

(** ** The watermark (genWatermark, updatableComment) *)

Lemma getSubstitution_noDollar m b a caps t :
  noDollar t = true -> getSubstitution m b a caps t = t.
Proof.
  induction t as [|c t IH]; intros H; [reflexivity | ].
  simpl in H. apply andb_prop in H as [Hc Ht].
  cbn [getSubstitution]. apply negb_true_iff in Hc. rewrite Hc.
  now rewrite IH.
Qed.

Lemma replaceAllFrom_literalChar c rep pre s :
  noDollar rep = true ->
  replaceAllFrom (literalChar c) rep pre 0 s = mapChar c rep s.
Proof.
  intros Hrep. revert pre. induction s as [|a s IH]; intros pre; [reflexivity | ].
  cbn [replaceAllFrom mapChar literalChar].
  destruct (Ascii.eqb a c).
  - rewrite getSubstitution_noDollar by assumption. now rewrite IH.
  - now rewrite IH.
Qed.

Lemma escapeTitle_mapChar t :
  escapeTitle t =
  mapChar "<" "\<" (mapChar "[" "\[" (mapChar "*" "\*" (mapChar "_" "\_" t))).
Proof.
  unfold escapeTitle, patterns, replaceAll. cbn [fold_left fst snd].
  now rewrite !replaceAllFrom_literalChar.
Qed.

Lemma mapChar_app c rep x y :
  mapChar c rep (x ++ y) = mapChar c rep x ++ mapChar c rep y.
Proof.
  induction x as [|a x IH]; [reflexivity | ].
  cbn [append mapChar]. rewrite IH. now rewrite append_assoc.
Qed.

Lemma allChars_app P x y :
  allChars P (x ++ y) = allChars P x && allChars P y.
Proof.
  induction x as [|a x IH]; [reflexivity | ].
  cbn [append allChars]. rewrite IH. now rewrite andb_assoc.
Qed.

Lemma mapChar_fixed c rep s :
  allChars (fun a => negb (Ascii.eqb a c)) s = true -> mapChar c rep s = s.
Proof.
  induction s as [|a s IH]; [reflexivity | ].
  cbn [allChars mapChar]. intros H. apply andb_prop in H as [Ha Hs].
  apply negb_true_iff in Ha. rewrite Ha, IH by assumption. reflexivity.
Qed.

Lemma allChars_impl (P Q : ascii -> bool) s :
  (forall c, P c = true -> Q c = true) ->
  allChars P s = true -> allChars Q s = true.
Proof.
  intros HPQ. induction s as [|a s IH]; [reflexivity | ].
  cbn [allChars]. intros H. apply andb_prop in H as [Ha Hs].
  now rewrite (HPQ _ Ha), IH.
Qed.

Lemma isDigit_cases c :
  isDigit c = true ->
  c = "0"%char \/ c = "1"%char \/ c = "2"%char \/ c = "3"%char \/
  c = "4"%char \/ c = "5"%char \/ c = "6"%char \/ c = "7"%char \/
  c = "8"%char \/ c = "9"%char.
Proof.
  destruct c as [[] [] [] [] [] [] [] []]; cbv; intros H;
    try discriminate; tauto.
Qed.

Lemma digit_not c d :
  isDigit d = false -> isDigit c = true -> negb (Ascii.eqb c d) = true.
Proof.
  intros Hd Hc. apply negb_true_iff, Ascii.eqb_neq. intros ->. congruence.
Qed.

Lemma escapeTitle_app x y :
  escapeTitle (x ++ y) = escapeTitle x ++ escapeTitle y.
Proof. rewrite !escapeTitle_mapChar. now rewrite !mapChar_app. Qed.

Lemma mapChar_digits c rep r :
  isDigit c = false -> allChars isDigit r = true -> mapChar c rep r = r.
Proof.
  intros Hc H. apply mapChar_fixed.
  eapply allChars_impl; [ | exact H]. intros a Ha. now apply digit_not.
Qed.

Lemma escapeTitle_digits r :
  allChars isDigit r = true -> escapeTitle r = r.
Proof.
  intros H. rewrite escapeTitle_mapChar.
  rewrite (mapChar_digits "_") by (reflexivity || assumption).
  rewrite (mapChar_digits "*") by (reflexivity || assumption).
  rewrite (mapChar_digits "[") by (reflexivity || assumption).
  now rewrite (mapChar_digits "<") by (reflexivity || assumption).
Qed.

(** *** [trim] *)

Lemma trimEnd_cons_keep c s :
  isWhiteSpace c = false -> trimEnd (String c s) = String c (trimEnd s).
Proof. intros H. cbn [trimEnd]. rewrite H. now destruct (trimEnd s). Qed.

Lemma trimEnd_app_keep x y :
  trimEnd y <> EmptyString -> trimEnd (x ++ y) = x ++ trimEnd y.
Proof.
  intros Hy. induction x as [|c x IH]; [reflexivity | ].
  cbn [append trimEnd]. rewrite IH.
  destruct (x ++ trimEnd y) eqn:E; [ | reflexivity].
  destruct x; simpl in E; [contradiction | discriminate].
Qed.

Lemma trimEnd_digits r a :
  allChars isDigit r = true -> trimEnd (r ++ a) = r ++ trimEnd a.
Proof.
  induction r as [|c r IH]; [reflexivity | ].
  cbn [allChars append]. intros H. apply andb_prop in H as [Hc Hr].
  rewrite trimEnd_cons_keep, IH; [reflexivity | assumption | ].
  destruct (isDigit_cases _ Hc) as [->|[->|[->|[->|[->|[->|[->|[->|[->| ->]]]]]]]]];
    reflexivity.
Qed.

Lemma trim_title b r a :
  allChars isDigit r = true -> r <> EmptyString ->
  trim ("CML watermark " ++ b ++ r ++ a) =
  "CML watermark " ++ b ++ r ++ trimEnd a.
Proof.
  intros Hr Hne. unfold trim.
  change (trimStart ("CML watermark " ++ b ++ r ++ a))
    with ("CML watermark " ++ b ++ r ++ a).
  rewrite <- (append_assoc "CML watermark " b (r ++ a)).
  rewrite <- (append_assoc "CML watermark " b (r ++ trimEnd a)).
  rewrite (trimEnd_app_keep (("CML watermark " ++ b))).
  - now rewrite trimEnd_digits.
  - rewrite trimEnd_digits by assumption.
    destruct r; [contradiction | discriminate].
Qed.

(** *** Where the opening of a watermark can occur *)

Lemma headIs_app c x y :
  headIs c (x ++ y) = match x with
                      | EmptyString => headIs c y
                      | _ => headIs c x
                      end.
Proof. destruct x; reflexivity. Qed.

Lemma hasBangBracket_app x y :
  headIs "[" y = false ->
  hasBangBracket (x ++ y) = hasBangBracket x || hasBangBracket y.
Proof.
  intros Hy. induction x as [|c x IH]; [reflexivity | ].
  cbn [append hasBangBracket]. rewrite IH, headIs_app.
  destruct x; [rewrite Hy | ]; now rewrite orb_assoc.
Qed.

Lemma hasBangBracket_intro u z :
  hasBangBracket (u ++ "![" ++ z) = true.
Proof.
  induction u as [|c u IH]; [reflexivity | ].
  cbn [append hasBangBracket]. cbn [append] in IH. rewrite IH.
  apply orb_true_r.
Qed.

Lemma mapBracket_clean s :
  hasBangBracket (mapChar "[" "\[" s) = false /\
  headIs "[" (mapChar "[" "\[" s) = false.
Proof.
  induction s as [|c s [IHb IHh]]; [split; reflexivity | ].
  cbn [mapChar]. destruct (Ascii.eqb c "[") eqn:E.
  - cbn. rewrite IHb. split; reflexivity.
  - cbn [append hasBangBracket headIs]. rewrite IHb, IHh, E.
    rewrite andb_false_r. split; reflexivity.
Qed.

Lemma headIs_mapLt s :
  headIs "[" (mapChar "<" "\<" s) = headIs "[" s.
Proof.
  destruct s as [|c s]; [reflexivity | ].
  cbn [mapChar]. destruct (Ascii.eqb c "<") eqn:E; [ | reflexivity].
  apply Ascii.eqb_eq in E. subst c. reflexivity.
Qed.

Lemma hasBangBracket_mapLt s :
  hasBangBracket s = false -> hasBangBracket (mapChar "<" "\<" s) = false.
Proof.
  induction s as [|c s IH]; [reflexivity | ].
  cbn [hasBangBracket mapChar]. intros H.
  apply orb_false_iff in H as [Hc Hs]. specialize (IH Hs).
  destruct (Ascii.eqb c "<") eqn:E.
  - cbn. exact IH.
  - cbn [append hasBangBracket]. now rewrite headIs_mapLt, Hc, IH.
Qed.

Lemma escapeTitle_clean s :
  hasBangBracket (escapeTitle s) = false /\ headIs "[" (escapeTitle s) = false.
Proof.
  rewrite escapeTitle_mapChar.
  destruct (mapBracket_clean (mapChar "*" "\*" (mapChar "_" "\_" s)))
    as [Hb Hh].
  split; [now apply hasBangBracket_mapLt | now rewrite headIs_mapLt].
Qed.

(** *** Overlapping texts *)

Lemma append_eq_append a b c d :
  a ++ b = c ++ d ->
  (exists k, c = a ++ k /\ b = k ++ d) \/
  (exists k, a = c ++ k /\ d = k ++ b).
Proof.
  revert c. induction a as [|x a IH]; intros c H.
  - left. exists c. split; [reflexivity | exact H].
  - destruct c as [|y c].
    + right. exists (String x a). split; [reflexivity | symmetry; exact H].
    + cbn [append] in H. injection H as -> H.
      destruct (IH _ H) as [(k & -> & ->)|(k & -> & ->)];
        [left | right]; exists k; split; reflexivity.
Qed.

Lemma overlap_chars (P : ascii -> bool) n :
  forall W v k,
    String.length W <= n -> k <> EmptyString -> allChars P k = true ->
    W ++ v = k ++ W -> allChars P W = true.
Proof.
  induction n as [|n IH]; intros W v k Hlen Hk HP H.
  - destruct W; [reflexivity | simpl in Hlen; lia].
  - destruct (append_eq_append _ _ _ _ H) as [(j & Hj & _)|(j & Hj & Hj')].
    + rewrite Hj, allChars_app in HP. now apply andb_prop in HP as [HW _].
    + rewrite Hj, allChars_app, HP. cbn [andb].
      apply (IH j v k); try assumption.
      * assert (0 < String.length k) by (destruct k; [contradiction | simpl; lia]).
        rewrite Hj, length_append in Hlen. lia.
      * rewrite <- Hj'. exact Hj.
Qed.

(** *** The watermark *)

Lemma includes_splitOn s p :
  includes s p = match splitOn p s with Some _ => true | None => false end.
Proof.
  induction s as [|c s IH]; cbn [includes splitOn].
  - now destruct (prefix p EmptyString).
  - destruct (prefix p (String c s)); [reflexivity | ].
    rewrite IH. now destruct (splitOn p s) as [[b a]|].
Qed.

Lemma noDollar_digits r : allChars isDigit r = true -> noDollar r = true.
Proof.
  induction r as [|c r IH]; [reflexivity | ].
  cbn [allChars noDollar]. intros H. apply andb_prop in H as [Hc Hr].
  rewrite IH by assumption. now rewrite (digit_not c "$").
Qed.

Lemma genWatermark_digits label workflow b a r :
  splitOn "{run}" (labelAfterWorkflow label workflow) = Some (b, a) ->
  allChars isDigit r = true -> r <> EmptyString ->
  genWatermark label workflow (Some r) =
  String "!" (tokenOpening ++ escapeTitle b) ++
  r ++ escapeTitle (trimEnd a) ++ tokenClosing.
Proof.
  intros Hsplit Hr Hne. unfold genWatermark.
  fold (labelAfterWorkflow label workflow).
  unfold replaceStr at 1. rewrite Hsplit. cbn [jsToString].
  rewrite getSubstitution_noDollar by now apply noDollar_digits.
  rewrite trim_title by assumption.
  rewrite !escapeTitle_app, (escapeTitle_digits r) by assumption.
  change (escapeTitle "CML watermark ") with "CML watermark ".
  unfold tokenOpening, tokenRest, tokenClosing, WATERMARK_IMAGE, dquote.
  cbn [append]. now rewrite !append_assoc.
Qed.

Lemma token_body_clean x :
  hasBangBracket (tokenOpening ++ escapeTitle x ++ tokenClosing) = false.
Proof.
  destruct (escapeTitle_clean x) as [Hb Hh].
  rewrite hasBangBracket_app.
  - rewrite hasBangBracket_app by reflexivity. now rewrite Hb.
  - rewrite headIs_app. now destruct (escapeTitle x).
Qed.

Lemma token_opening_found u x z :
  hasBangBracket (u ++ String "!" (tokenOpening ++ x) ++ z) = true.
Proof.
  change (String "!" (tokenOpening ++ x) ++ z)
    with ("![" ++ (tokenRest ++ x) ++ z).
  apply hasBangBracket_intro.
Qed.

(** Two texts that differ in a run of digits only, the first character
    apart free of the opening of a token: neither contains the other. *)
Lemma discriminate_core (X Wt r1 r2 : string) :
  allChars isDigit r1 = true -> allChars isDigit r2 = true -> r1 <> r2 ->
  allChars isDigit Wt = false ->
  hasBangBracket (X ++ r1 ++ Wt) = false ->
  (forall u z, hasBangBracket (u ++ String "!" X ++ z) = true) ->
  includes (String "!" X ++ r1 ++ Wt) (String "!" X ++ r2 ++ Wt) = false.
Proof.
  intros H1 H2 Hne HWt Hclean Hopen.
  destruct (includes _ _) eqn:Hinc; [exfalso | reflexivity].
  apply includes_inv in Hinc as (u & v & Heq).
  destruct u as [|c u].
  - cbn [append] in Heq. injection Heq as Heq.
    rewrite append_assoc in Heq. apply append_inv_head in Heq.
    rewrite append_assoc in Heq.
    destruct (append_eq_append _ _ _ _ Heq) as [(k & Hk & Hk')|(k & Hk & Hk')].
    + assert (String.length Wt =
              String.length k + (String.length Wt + String.length v))
        by (rewrite Hk' at 1; now rewrite !length_append).
      destruct k; [ | simpl in *; lia].
      rewrite append_nil_r in Hk. congruence.
    + destruct k as [|d k]; [rewrite append_nil_r in Hk; congruence | ].
      rewrite Hk, allChars_app in H1. apply andb_prop in H1 as [_ H1].
      rewrite (overlap_chars isDigit (String.length Wt) Wt v (String d k))
        in HWt; try discriminate; auto.
  - cbn [append] in Heq. injection Heq as _ Heq.
    rewrite Heq, append_assoc in Hclean.
    change (String "!" (X ++ (r2 ++ Wt) ++ v))
      with (String "!" X ++ (r2 ++ Wt) ++ v) in Hclean.
    now rewrite Hopen in Hclean.
Qed.

Lemma tokens_discriminate b a' r1 r2 :
  allChars isDigit r1 = true -> allChars isDigit r2 = true ->
  r1 <> r2 ->
  includes
    (String "!" (tokenOpening ++ escapeTitle b) ++
     r1 ++ escapeTitle a' ++ tokenClosing)
    (String "!" (tokenOpening ++ escapeTitle b) ++
     r2 ++ escapeTitle a' ++ tokenClosing) = false.
Proof.
  intros H1 H2 Hne. apply discriminate_core; try assumption.
  - rewrite allChars_app. apply andb_false_r.
  - pose proof (token_body_clean (b ++ r1 ++ a')) as Hclean.
    rewrite !escapeTitle_app, (escapeTitle_digits r1) in Hclean by assumption.
    now rewrite !append_assoc in *.
  - intros u z. apply token_opening_found.
Qed.

(** C2 (as amended).  A token always matches itself.  The run value
    enters a token only through the [{run}] placeholder of the label: when
    the label, after the substitution of [{workflow}], has no [{run}], the
    tokens of two run values are the same text (and so match); when it has
    one, the tokens of two different non-empty decimal run identifiers do
    not match. *)
Theorem watermark_matches_itself_and_numeric_runs_differ :
  forall label workflow : option string,
    (forall run,
        watermarkMatches (genWatermark label workflow run)
          (genWatermark label workflow run) = true) /\
    (forall run1 run2,
        includes (labelAfterWorkflow label workflow) "{run}" = false ->
        genWatermark label workflow run1 = genWatermark label workflow run2) /\
    (forall run1 run2,
        includes (labelAfterWorkflow label workflow) "{run}" = true ->
        allChars isDigit run1 = true -> allChars isDigit run2 = true ->
        run1 <> EmptyString -> run2 <> EmptyString -> run1 <> run2 ->
        watermarkMatches (genWatermark label workflow (Some run1))
          (genWatermark label workflow (Some run2)) = false).
Proof.
  intros label workflow. split; [ | split].
  - intros run. apply includes_refl.
  - intros run1 run2 H. rewrite includes_splitOn in H.
    unfold genWatermark. fold (labelAfterWorkflow label workflow).
    unfold replaceStr at 1 2.
    now destruct (splitOn "{run}" (labelAfterWorkflow label workflow)).
  - intros run1 run2 H H1 H2 Hn1 Hn2 Hne. rewrite includes_splitOn in H.
    destruct (splitOn "{run}" (labelAfterWorkflow label workflow))
      as [[b a]|] eqn:Hsplit; [ | discriminate].
    unfold watermarkMatches.
    rewrite (genWatermark_digits _ _ _ _ _ Hsplit H1 Hn1).
    rewrite (genWatermark_digits _ _ _ _ _ Hsplit H2 Hn2).
    now apply tokens_discriminate.
Qed.

Lemma watermark_numeric_runs_differ_witness :
  watermarkMatches
    (genWatermark (Some "report {workflow} #{run}") (Some "ci") (Some "12"))
    (genWatermark (Some "report {workflow} #{run}") (Some "ci") (Some "123"))
  = false.
Proof.
  apply (proj2 (proj2 (watermark_matches_itself_and_numeric_runs_differ
                         (Some "report {workflow} #{run}") (Some "ci"))));
    try reflexivity; discriminate.
Defined.

(** C2 as stated fails: with the default label the token does not depend
    on the run value, so the tokens of two different runs match. *)
Lemma watermark_default_label_ignores_run :
  Some "1" <> Some "2" /\
  watermarkMatches (genWatermark None (Some "ci") (Some "1"))
    (genWatermark None (Some "ci") (Some "2")) = true.
Proof. split; [discriminate | reflexivity]. Qed.

(** ** Running programs *)

Section RunFacts.

Variable W : World.

Lemma run_bind {A B : Type} (p : Prog A) (f : A -> Prog B) (w : state W) :
  run W (bind p f) w =
  match run W p w with
  | (Returned a, w1, t1) =>
      let '(o, w2, t2) := run W (f a) w1 in (o, w2, (t1 ++ t2)%list)
  | (Thrown e, w1, t1) => (Thrown e, w1, t1)
  | (Pending, w1, t1) => (Pending, w1, t1)
  end.
Proof.
  revert w. induction p as [a|e| |R c k IH]; intros w; cbn [bind run].
  - now destruct (run W (f a) w) as [[o w2] t2].
  - reflexivity.
  - reflexivity.
  - destruct (answer W R c w) as [r w1]. rewrite IH.
    destruct (run W (k r) w1) as [[[a|e|] w2] t1]; [ | reflexivity..].
    now destruct (run W (f a) w2) as [[o w3] t2].
Qed.

Lemma run_tryCatch {A : Type} (p : Prog A) (h : JsError -> Prog A)
    (w : state W) :
  run W (tryCatch p h) w =
  match run W p w with
  | (Thrown e, w1, t1) =>
      let '(o, w2, t2) := run W (h e) w1 in (o, w2, (t1 ++ t2)%list)
  | r => r
  end.
Proof.
  revert w. induction p as [a|e| |R c k IH]; intros w; cbn [tryCatch run].
  - reflexivity.
  - now destruct (run W (h e) w) as [[o w2] t2].
  - reflexivity.
  - destruct (answer W R c w) as [r w1]. rewrite IH.
    destruct (run W (k r) w1) as [[[a|e|] w2] t1]; [reflexivity | | reflexivity].
    now destruct (run W (h e) w2) as [[o w3] t2].
Qed.

Lemma run_call {R : Type} (c : Cmd R) (w : state W) :
  run W (call c) w =
  match answer W R c w with
  | (inr v, w1) => (Returned v, w1, [Called c (inr v)])
  | (inl e, w1) => (Thrown e, w1, [Called c (inl e)])
  end.
Proof.
  cbn [call run]. now destruct (answer W R c w) as [[e|v] w1].
Qed.

Lemma run_callTotal {R : Type} (c : Cmd R) (d : R) (w : state W) :
  run W (callTotal c d) w =
  let '(r, w1) := answer W R c w in
  (Returned (match r with inr v => v | inl _ => d end), w1, [Called c r]).
Proof.
  cbn [callTotal run]. now destruct (answer W R c w) as [[e|v] w1].
Qed.

End RunFacts.

(** ** commentCreate: the configuration check *)

(** C5.  With both [rmWatermark] and [update] set, [commentCreate] is a
    program that throws without making any external call: no file is
    read and no driver operation runs, in any world.  The error is the
    one of the watermark check, or the one [getDriver] failed with. *)
Theorem commentCreate_rmWatermark_update_fails_before_io :
  forall (pf : Platform) (settleOrder : nat -> list nat) (this : CML)
         (opts : Opts),
    rmWatermark opts = true -> update opts = true ->
    exists e,
      commentCreate pf settleOrder this opts = Throw e /\
      (forall (W : World) (w : state W),
          run W (commentCreate pf settleOrder this opts) w = (Thrown e, w, [])) /\
      match getDriver pf this with
      | inr _ =>
          e = newError "watermarks are mandatory for updateable comments"
      | inl e' => e = e'
      end.
Proof.
  intros pf settleOrder this opts Hrm Hup.
  unfold commentCreate, composeReport.
  destruct (getDriver pf this) as [e'|drv]; cbn [lift bind].
  - exists e'. repeat split.
  - rewrite Hrm, Hup. cbn [andb bind]. eexists. repeat split.
Qed.

Lemma commentCreate_rmWatermark_update_witness :
  exists e,
    commentCreate Sample.platform Sample.inOrder Sample.github
      rmWatermarkUpdateOpts = Throw e /\
    (forall (W : World) (w : state W),
        run W (commentCreate Sample.platform Sample.inOrder Sample.github
                 rmWatermarkUpdateOpts) w = (Thrown e, w, [])) /\
    match getDriver Sample.platform Sample.github with
    | inr _ => e = newError "watermarks are mandatory for updateable comments"
    | inl e' => e = e'
    end.
Proof.
  apply (commentCreate_rmWatermark_update_fails_before_io
           Sample.platform Sample.inOrder Sample.github
           rmWatermarkUpdateOpts); reflexivity.
Defined.

(** ** parseRunnerLog *)

(** C10 (as amended).  When [data] is absent or is the empty string,
    [parseRunnerLog] is the program that returns the empty list: it makes
    no external call and does not even resolve the driver, so no pattern is
    reached.  A Buffer is not caught by this guard, whatever its length:
    the driver is resolved (when that fails the call throws) and the
    patterns of the driver are tested on the decoded text. *)
Theorem parseRunnerLog_without_data_returns_no_event :
  forall (pf : Platform) (this : CML) (opts : RunnerLogOpts),
    (dataFalsy (data opts) = true -> parseRunnerLog pf this opts = Ret []) /\
    (forall bytes,
        data opts = DataBuffer bytes ->
        match getDriver pf this with
        | inl e => parseRunnerLog pf this opts = Throw e
        | inr drv =>
            parseRunnerLog pf this opts =
            parseStatuses pf this (runnerLogPatterns drv)
              (utf8ToString pf bytes) (name opts)
              ["ready"; "job_started"; "job_ended"] []
        end).
Proof.
  intros pf this opts. unfold parseRunnerLog. split.
  - intros H. now rewrite H.
  - intros bytes Hd. rewrite Hd. cbn [dataFalsy dataToString].
    now destruct (getDriver pf this).
Qed.

Lemma parseRunnerLog_without_data_witness :
  parseRunnerLog Sample.platform Sample.noDriver
    (mkRunnerLogOpts (DataString EmptyString) (Some "runner")) = Ret [] /\
  parseRunnerLog Sample.platform Sample.noDriver
    (mkRunnerLogOpts (DataBuffer [x41%byte]) None) =
  Throw (newError "driver not set").
Proof.
  split.
  - apply (proj1 (parseRunnerLog_without_data_returns_no_event
                    Sample.platform Sample.noDriver
                    (mkRunnerLogOpts (DataString EmptyString) (Some "runner")))).
    reflexivity.
  - exact (proj2 (parseRunnerLog_without_data_returns_no_event
                    Sample.platform Sample.noDriver
                    (mkRunnerLogOpts (DataBuffer [x41%byte]) None))
             [x41%byte] eq_refl).
Defined.

(** C10 as stated fails for data that is empty but not falsy: on an
    empty Buffer and with no driver set, the call throws where the claim
    has it return the empty list. *)
Lemma parseRunnerLog_empty_buffer_reaches_driver :
  parseRunnerLog Sample.platform Sample.noDriver
    (mkRunnerLogOpts (DataBuffer []) None) =
  Throw (newError "driver not set") /\
  run Sample.quiet
    (parseRunnerLog Sample.platform Sample.noDriver
       (mkRunnerLogOpts (DataBuffer []) None)) tt =
  (Thrown (newError "driver not set"), tt, []).
Proof. split; reflexivity. Qed.

(** C1 (as amended).  When of the three status patterns only
    [job_started] matches, [parseRunnerLog] returns exactly one event; its
    status is [job_started], its [success] is undefined and its level is
    [error], the level of every event whose [success] is not true.  The
    call can fail only in the look-up of the job through the runner name,
    which is made when a name is given and the driver is GitHub. *)
Theorem parseRunnerLog_job_started_alone :
  forall (pf : Platform) (this : CML) (W : World) (w : state W)
         (opts : RunnerLogOpts) (drv : Driver)
         (ready started ended : RegExp),
    dataFalsy (data opts) = false ->
    getDriver pf this = inr drv ->
    runnerLogPatterns drv "ready" = Some ready ->
    runnerLogPatterns drv "job_started" = Some started ->
    runnerLogPatterns drv "job_ended" = Some ended ->
    regexTest ready (dataToString pf (data opts)) = false ->
    regexTest started (dataToString pf (data opts)) = true ->
    regexTest ended (dataToString pf (data opts)) = false ->
    match fst (fst (run W (parseRunnerLog pf this opts) w)) with
    | Returned logs =>
        exists log,
          logs = [log] /\ logStatus log = "job_started" /\
          logSuccess log = None /\ logLevel log = "error"
    | Thrown _ => truthyStr (name opts) = true /\ driver this = Some GITHUB
    | Pending => False
    end.
Proof.
  intros pf this W w opts drv ready started ended
    Hdata Hdrv Hready Hstarted Hended Tready Tstarted Tended.
  unfold parseRunnerLog. rewrite Hdata, Hdrv. cbn [lift bind].
  cbn [parseStatuses]. rewrite Hready, Tready, Hstarted, Tstarted.
  change (String.eqb "job_started" "job_started") with true.
  change (String.eqb "job_started" "job_ended") with false.
  cbv iota.
  rewrite run_bind, run_callTotal.
  destruct (answer W string DateNow w) as [r w1]. cbv iota beta zeta.
  set (date := match r with inr v => v | inl _ => EmptyString end).
  destruct (truthyStr (name opts) &&
            match driver this with
            | Some d => String.eqb d GITHUB
            | None => false
            end) eqn:Hfallback.
  - assert (Hcond : truthyStr (name opts) = true /\ driver this = Some GITHUB).
    { apply andb_prop in Hfallback as [Hn Hd]. split; [exact Hn | ].
      destruct (driver this) as [d|]; [ | discriminate].
      apply String.eqb_eq in Hd. now subst d. }
    rewrite !run_bind. unfold runnerByName, runners.
    rewrite Hdrv. cbn [lift bind]. rewrite run_bind, run_call.
    destruct (answer W _ (DrvRunners (name opts)) w1) as [[e|rs] w2];
      [exact Hcond | ].
    cbn [run]. cbv iota beta zeta.
    destruct (find _ rs) as [runner|]; [ | exact Hcond].
    rewrite run_bind, run_call.
    destruct (answer W _ (DrvRunnerJob (runnerId runner)) w2) as [[e|[id|]] w3];
      [exact Hcond | | exact Hcond].
    cbn [run bind]. cbv iota beta zeta. cbn [run bind parseStatuses].
    rewrite Hended, Tended. cbn [run fst].
    eexists. repeat split.
  - rewrite !run_bind. cbn [run]. cbv iota beta zeta.
    cbn [run bind parseStatuses]. rewrite Hended, Tended. cbn [run fst].
    eexists. repeat split.
Qed.

Lemma parseRunnerLog_job_started_alone_witness :
  match
    fst (fst (run Sample.quiet
                (parseRunnerLog Sample.platform Sample.github jobStartedOpts)
                tt))
  with
  | Returned logs =>
      exists log,
        logs = [log] /\ logStatus log = "job_started" /\
        logSuccess log = None /\ logLevel log = "error"
  | Thrown _ =>
      truthyStr (name jobStartedOpts) = true /\
      driver Sample.github = Some GITHUB
  | Pending => False
  end.
Proof.
  apply (parseRunnerLog_job_started_alone Sample.platform Sample.github
           Sample.quiet tt jobStartedOpts Sample.sampleDriver
           (Sample.literal "Listening for Jobs")
           (Sample.literal "Running job")
           (Sample.literal "completed with result")); reflexivity.
Defined.

(** C1 as stated fails in its last part: the one event of a
    [job_started] match has the level [error]. *)
Lemma parseRunnerLog_job_started_level_is_error :
  fst (fst (run Sample.quiet
              (parseRunnerLog Sample.platform Sample.github jobStartedOpts)
              tt)) =
  Returned
    [mkRunnerLog "job_started" "2022-01-01T00:00:00.000Z"
       "https://github.com/owner/repo" VUndefined None None "error"].
Proof. reflexivity. Qed.

(** ** utils.js: mimeType *)

Ltac run_step :=
  match goal with
  | |- context [run _ (bind _ _) _] => rewrite run_bind
  | |- context [run _ (call _) _] => rewrite run_call
  | |- context [run _ (callTotal _ _) _] => rewrite run_callTotal
  | |- context [answer ?W ?R ?c ?w] =>
      destruct (answer W R c w) as [[?|?] ?]
  end;
  cbn [run bind lift fst snd map detectAnswer app] in *.

(** C9 (as amended).  [mimeType] has no error type of its own and no
    default.  When the detector throws, that very error is what [mimeType]
    throws; a value is returned only after the detector has answered; and
    when the detector answers with a non-empty text, [mimeType] returns the
    part of it before the first semicolon. *)
Theorem mimeType_detection_failure_propagates :
  forall (pf : Platform) (W : World) (w : state W) (opts : Opts),
    match run W (mimeType pf opts) w with
    | (o, _, tr) =>
        (forall e, In (Some (inl e)) (map detectAnswer tr) -> o = Thrown e) /\
        (forall m, o = Returned m ->
                   exists v, In (Some (inr v)) (map detectAnswer tr)) /\
        (forall s, In (Some (inr (Some s))) (map detectAnswer tr) ->
                   s <> EmptyString -> o = Returned (splitFirst ";" s))
    end.
Proof.
  intros pf W w opts. unfold mimeType. cbn [run].
  destruct (answer W bool (FsExistsSync (magicFilePath pf)) w)
    as [[e0|[|]] w0];
    destruct (buffer opts) as [data|];
    repeat run_step.
  all: try (cbn [In]; repeat split; intros;
            intuition (discriminate || congruence)).
  all: match goal with
       | |- context [truthyStr ?o] =>
           destruct o as [txt|];
           [ cbn [truthyStr]; destruct (String.eqb txt EmptyString) eqn:Hs | ]
       end;
       cbn [negb run jsToString map detectAnswer app In truthyStr];
       repeat split; intros.
  all: try solve [intuition (discriminate || congruence)].
  all: try solve [eexists; tauto].
  all: match goal with
       | H : _ \/ _ |- _ =>
           repeat (destruct H as [H|H]); try discriminate; try contradiction;
           injection H as <-
       end.
  all: try reflexivity.
  all: apply String.eqb_eq in Hs; contradiction.
Qed.

Lemma mimeType_detection_failure_witness :
  fst (fst (run unreadable (mimeType Sample.platform pngOpts) tt)) =
  Thrown cannotOpen.
Proof.
  generalize (mimeType_detection_failure_propagates
                Sample.platform unreadable tt pngOpts).
  destruct (run unreadable (mimeType Sample.platform pngOpts) tt)
    as [[o w] tr] eqn:E.
  intros (H & _). cbn [fst]. apply H.
  injection E as _ _ <-. cbn. tauto.
Defined.

(** C9 as stated fails: no error type marks a failed detection.  When the
    detector cannot open the file, what the caller of [mimeType] gets is
    the error of the detector, as the detector threw it. *)
Lemma mimeType_failure_has_no_type_of_its_own :
  run unreadable (mimeType Sample.platform pngOpts) tt =
  (Thrown cannotOpen, tt,
   [ Called (FsExistsSync (magicFilePath Sample.platform)) (inr false);
     Called MagicGetInstance (inr 0%Z);
     Called (MagicDetect (Some "report.png")
               (Z.lor 0 (MAGIC_MIME Sample.platform))) (inl cannotOpen) ]) /\
  errName cannotOpen = "Error".
Proof. split; reflexivity. Qed.

(** ** publishLocalFiles *)

(** *** The traversal ends *)






(** A reference that follows a text in its paragraph is pushed twice: the
    callback returns 1, the length of [nodes], and the loop goes on at
    child 1, the reference itself. *)
Lemma visit_pushes_reference_after_text_twice :
  visit referenceTypes plotDocument =
  Some [([0; 1], plotNode); ([0; 1], plotNode)].
Proof. reflexivity. Qed.

(** Of the references of a second paragraph only the first is pushed when
    the first paragraph has two: the callback returns 3 and the loop over
    the three children ends. *)
Lemma visit_skips_references_of_later_paragraph :
  visit referenceTypes galleryDocument =
  Some [([0; 0], image "a.png"); ([0; 1], image "b.png");
        ([1; 0], image "c.png")].
Proof. reflexivity. Qed.

(** *** The visitors *)






(** ** commentCreate: create or update *)

(** The comment [updatableComment] picks is the last of the listing that
    contains the watermark. *)
Lemma updatableComment_some watermark comments c :
  updatableComment watermark comments = Some c ->
  exists older newer,
    comments = (older ++ c :: newer)%list /\
    includes (body c) watermark = true /\
    forallb (lacksWatermark watermark) newer = true.
Proof.
  unfold updatableComment.
  induction comments as [|x l IH] using rev_ind; [discriminate | ].
  rewrite rev_app_distr. cbn [rev app find].
  destruct (includes (body x) watermark) eqn:Hx.
  - intros H. injection H as <-. exists l, []. repeat split. exact Hx.
  - intros H. destruct (IH H) as (older & newer & -> & Hc & Hnewer).
    exists older, (newer ++ [x])%list. repeat split.
    + now rewrite <- app_assoc.
    + exact Hc.
    + rewrite forallb_app, Hnewer. cbn. unfold lacksWatermark.
      now rewrite Hx.
Qed.

Lemma updatableComment_none watermark comments :
  updatableComment watermark comments = None ->
  forallb (lacksWatermark watermark) comments = true.
Proof.
  unfold updatableComment.
  induction comments as [|x l IH] using rev_ind; [reflexivity | ].
  rewrite rev_app_distr. cbn [rev app find].
  destruct (includes (body x) watermark) eqn:Hx; [discriminate | ].
  intros H. rewrite forallb_app, (IH H). cbn. unfold lacksWatermark.
  now rewrite Hx.
Qed.

(** C8.  Once the report is composed and the target resolved, a call
    with [update] lists the comments of the target and looks for the
    watermark from the end of the listing (the newest comment, the driver
    listing them oldest first): when a comment contains it, the last such
    comment is updated, by its id; when none does, or when [update] is not
    set (then nothing is listed), the comment is created. *)
Theorem commentCreate_updates_newest_match_or_creates :
  forall (pf : Platform) (settleOrder : nat -> list nat) (this : CML)
         (W : World) (opts : Opts) (w w1 w2 : state W) (drv : Driver)
         (watermark report : string) (t1 : list Event) (t : CommentTarget),
    watch opts = false ->
    run W (composeReport pf settleOrder this opts) w =
    (Returned (drv, watermark, report), w1, t1) ->
    answer W _
      (ParseCommentTarget (commitSha opts) (pr opts) (defaultTarget opts)) w1 =
    (inr t, w2) ->
    let resolved :=
      Called
        (ParseCommentTarget (commitSha opts) (pr opts) (defaultTarget opts))
        (inr t) in
    let create := DrvCommentCreate (target t ++ "CommentCreate") report t in
    (update opts = false ->
     run W (commentCreate pf settleOrder this opts) w =
     (outcomeOf (fst (answer W _ create w2)), snd (answer W _ create w2),
      (t1 ++ [resolved; Called create (fst (answer W _ create w2))])%list))
    /\
    (update opts = true ->
     forall (comments : list Comment) (w3 : state W),
       let listing := DrvComments (target t ++ "Comments") t in
       answer W _ listing w2 = (inr comments, w3) ->
       match updatableComment watermark comments with
       | Some c =>
           let change :=
             DrvCommentUpdate (target t ++ "CommentUpdate") report
               (commentId c) t in
           (exists older newer,
               comments = (older ++ c :: newer)%list /\
               includes (body c) watermark = true /\
               forallb (lacksWatermark watermark) newer = true) /\
           run W (commentCreate pf settleOrder this opts) w =
           (outcomeOf (fst (answer W _ change w3)),
            snd (answer W _ change w3),
            (t1 ++ [resolved; Called listing (inr comments);
                    Called change (fst (answer W _ change w3))])%list)
       | None =>
           forallb (lacksWatermark watermark) comments = true /\
           run W (commentCreate pf settleOrder this opts) w =
           (outcomeOf (fst (answer W _ create w3)),
            snd (answer W _ create w3),
            (t1 ++ [resolved; Called listing (inr comments);
                    Called create (fst (answer W _ create w3))])%list)
       end).
Proof.
  intros pf settleOrder this W opts w w1 w2 drv watermark report t1 t
    Hwatch Hcompose Htarget resolved create.
  assert (Hrun : run W (commentCreate pf settleOrder this opts) w =
                 let '(o, w', t') :=
                   run W (reconcileComment opts watermark report) w1 in
                 (o, w', (t1 ++ t')%list)).
  { unfold commentCreate. rewrite run_bind, Hcompose, Hwatch.
    cbn [bind]. reflexivity. }
  rewrite Hrun. unfold reconcileComment. fold (defaultTarget opts).
  rewrite run_bind, run_call, Htarget. split.
  - intros Hupdate. rewrite Hupdate. cbn [bind]. rewrite run_call.
    unfold create. destruct (answer W _ _ w2) as [[e|v] w3]; reflexivity.
  - intros Hupdate comments w3 Hlist. rewrite Hupdate.
    rewrite !run_bind, run_call, Hlist. cbn [run].
    destruct (updatableComment watermark comments) as [c|] eqn:Hfind.
    + split; [now apply updatableComment_some | ].
      rewrite run_call.
      destruct (answer W _ _ w3) as [[e|v] w4]; reflexivity.
    + split; [now apply updatableComment_none | ].
      rewrite run_call. unfold create.
      destruct (answer W _ _ w3) as [[e|v] w4]; reflexivity.
Qed.

Lemma commentCreate_updates_newest_match_witness :
  run commented
    (commentCreate Sample.platform Sample.inOrder Sample.github updateOpts) tt =
  (Returned (VNum 3), tt,
   [ Called (FsReadFile (Some "report.md")) (inr "# Report");
     Called (ParseCommentTarget None None (Some "auto")) (inr commitTarget);
     Called (DrvComments "commitComments" commitTarget) (inr thread);
     Called (DrvCommentUpdate "commitCommentUpdate" sampleReport (VNum 3)
               commitTarget) (inr (VNum 3)) ]).
Proof.
  exact (proj2
           (proj2
              (commentCreate_updates_newest_match_or_creates
                 Sample.platform Sample.inOrder Sample.github commented
                 updateOpts tt tt tt Sample.sampleDriver sampleWatermark
                 sampleReport
                 [Called (FsReadFile (Some "report.md")) (inr "# Report")]
                 commitTarget eq_refl eq_refl eq_refl)
              eq_refl thread tt eq_refl)).
Defined.

(** ** prCreate *)




(** ** The watch loop *)

Section WatchFacts.

Import WatchLoop.

Variable pf : Platform.
Variable settleOrder : nat -> list nat.
Variable this : CML.
Variable W : World.
Variable opts : Opts.

Local Abbreviation WatchState := (WatchState W).
Local Abbreviation step := (step pf settleOrder this W opts).
Local Abbreviation steps := (steps pf settleOrder this W opts).

Lemma lockInvariant_step (s : WatchState) (x : Input) :
  lockInvariant W s -> lockInvariant W (step s x).
Proof.
  intros Hinv.
  assert (Hkeep : lockInvariant W s) by exact Hinv.
  destruct x as [event file|i]; cbn [WatchLoop.step].
  - unfold handle.
    destruct Hinv as [[Hl [h Hh]]|[Hl Hf]]; rewrite Hl; [exact Hkeep | ].
    destruct (answer W unit _ (world W s)) as [r w].
    left. cbn. rewrite Hf. split; [reflexivity | eexists; reflexivity].
  - unfold resume.
    destruct Hinv as [[Hl [h Hh]]|[Hl Hf]]; rewrite ?Hh, ?Hf.
    + destruct i as [|i]; cbn [nth_error];
        [ | destruct i; cbn [nth_error]; exact Hkeep].
      destruct h as [event file cycle| | ]; [ | | exact Hkeep].
      * destruct (run W _ (world W s)) as [[[v|err|] w] tr].
        -- destruct (_ && _).
           ++ left. cbn. rewrite ?Hh. split; [exact Hl | eexists; reflexivity].
           ++ right. cbn. rewrite ?Hh. split; reflexivity.
        -- unfold caught. destruct (answer W unit _ w) as [r w'].
           right. cbn. rewrite ?Hh. split; reflexivity.
        -- left. cbn. rewrite ?Hh. split; [exact Hl | eexists; reflexivity].
      * destruct (answer W unit _ (world W s)) as [[err|u] w].
        -- unfold caught. destruct (answer W unit _ w) as [r w'].
           right. cbn. rewrite ?Hh. split; reflexivity.
        -- right. cbn. rewrite ?Hh. split; reflexivity.
    + destruct i; cbn [nth_error]; exact Hkeep.
Qed.

Lemma lockInvariant_steps (xs : list Input) (s : WatchState) :
  lockInvariant W s -> lockInvariant W (steps s xs).
Proof.
  revert s. induction xs as [|x xs IH]; intros s Hinv; [exact Hinv | ].
  cbn. apply IH. now apply lockInvariant_step.
Qed.

Lemma handle_locked (s : WatchState) (event file : string) :
  lock W s = true -> handle W opts s event file = s.
Proof. intros Hl. unfold handle. now rewrite Hl. Qed.

Lemma burst_dropped (burst : list (string * string)) (s : WatchState) :
  lock W s = true ->
  steps s (map (fun ev => WatcherEvent (fst ev) (snd ev)) burst) = s.
Proof.
  intros Hl. induction burst as [|[event file] burst IH]; [reflexivity | ].
  cbn [map WatchLoop.steps fold_left WatchLoop.step fst snd].
  rewrite handle_locked by assumption. exact IH.
Qed.

Lemma resume_cycles (s : WatchState) (i : nat) :
  cycles W (resume pf settleOrder this W opts s i) = cycles W s.
Proof.
  unfold resume.
  destruct (nth_error (inFlight W s) i) as [[event file cycle| | ]|];
    try reflexivity.
  - destruct (run W _ (world W s)) as [[[v|err|] w] tr].
    + now destruct (_ && _).
    + unfold caught. now destruct (answer W unit _ w).
    + reflexivity.
  - destruct (answer W unit _ (world W s)) as [[err|u] w].
    + unfold caught. now destruct (answer W unit _ w).
    + reflexivity.
Qed.

Lemma credit_step (s : WatchState) (x : Input) :
  credit W (step s x) <=
  credit W s + match x with WatcherEvent _ _ => 0 | Settled _ => 1 end.
Proof.
  unfold credit. destruct x as [event file|i]; cbn [WatchLoop.step].
  - unfold handle. destruct (lock W s) eqn:Hl; [rewrite Hl; lia | ].
    destruct (answer W unit _ (world W s)) as [r w]. cbn.
    rewrite length_app. cbn. lia.
  - rewrite resume_cycles.
    destruct (lock W (resume pf settleOrder this W opts s i));
      destruct (lock W s); lia.
Qed.

Lemma credit_steps (xs : list Input) (s : WatchState) :
  credit W (steps s xs) <= credit W s + settlements xs.
Proof.
  revert s. induction xs as [|x xs IH]; intros s; [cbn; lia | ].
  cbn [WatchLoop.steps fold_left settlements].
  pose proof (IH (step s x)) as H1. pose proof (credit_step s x) as H2.
  unfold WatchLoop.steps in H1. destruct x; lia.
Qed.

End WatchFacts.

(** C3.  In every state the watch loop reaches, at most one run of the
    callback, and so at most one reconciliation, is in flight.  While the
    lock is held, a burst of events of any length is dropped: it leaves the
    state as it was and queues nothing.  From a state with a reconciliation
    in flight, whatever events are delivered, the calls of [commentCreate]
    added are at most as many as the settlements delivered: events around
    the one settlement of the reconciliation in flight start at most one
    further reconciliation, however many they are. *)
Theorem watch_loop_one_cycle_in_flight_and_bursts_dropped :
  forall (pf : Platform) (settleOrder : nat -> list nat) (this : CML)
         (W : World) (opts : Opts) (w0 : state W)
         (xs : list WatchLoop.Input),
    let s := WatchLoop.steps pf settleOrder this W opts
               (WatchLoop.initial W w0) xs in
    List.length (WatchLoop.inFlight W s) <= 1 /\
    (WatchLoop.lock W s = true ->
     (forall burst : list (string * string),
         WatchLoop.steps pf settleOrder this W opts s
           (map (fun ev => WatchLoop.WatcherEvent (fst ev) (snd ev)) burst) =
         s) /\
     (forall ys : list WatchLoop.Input,
         List.length
           (WatchLoop.cycles W
              (WatchLoop.steps pf settleOrder this W opts s ys)) <=
         List.length (WatchLoop.cycles W s) + settlements ys)).
Proof.
  intros pf settleOrder this W opts w0 xs s.
  assert (Hinv : lockInvariant W s).
  { apply lockInvariant_steps. right. split; reflexivity. }
  split.
  - destruct Hinv as [[_ [h Hh]]|[_ Hf]]; [rewrite Hh | rewrite Hf]; cbn; lia.
  - intros Hl. split.
    + intros burst. now apply burst_dropped.
    + intros ys.
      pose proof (credit_steps pf settleOrder this W opts ys s) as H.
      unfold credit in H. rewrite Hl in H.
      destruct (WatchLoop.lock W
                  (WatchLoop.steps pf settleOrder this W opts s ys)); lia.
Qed.

Lemma watch_loop_burst_witness :
  let s :=
    WatchLoop.steps Sample.platform Sample.inOrder Sample.github commented
      watchOpts (WatchLoop.initial commented tt)
      [WatchLoop.WatcherEvent "change" "report.md"] in
  List.length (WatchLoop.inFlight commented s) <= 1 /\
  WatchLoop.steps Sample.platform Sample.inOrder Sample.github commented
    watchOpts s
    (map (fun ev => WatchLoop.WatcherEvent (fst ev) (snd ev))
       [("change", "report.md"); ("add", "plot.png"); ("change", "plot.png")])
  = s /\
  List.length
    (WatchLoop.cycles commented
       (WatchLoop.steps Sample.platform Sample.inOrder Sample.github commented
          watchOpts s burstAroundSettlement)) <=
  List.length (WatchLoop.cycles commented s) +
  settlements burstAroundSettlement.
Proof.
  pose proof
    (watch_loop_one_cycle_in_flight_and_bursts_dropped
       Sample.platform Sample.inOrder Sample.github commented watchOpts tt
       [WatchLoop.WatcherEvent "change" "report.md"]) as H.
  cbv zeta in H. destruct H as [H1 H2].
  destruct (H2 eq_refl) as [Hdrop Hbound].
  split; [exact H1 | split; [apply Hdrop | apply Hbound]].
Defined.

(** ** The post-processing of the serialized report *)

(** The template of the post-processing, expanded: an ampersand, the
    text of the group and an equals sign. *)
Lemma expand_unescape_template m b a caps :
  getSubstitution m b a caps "&$1=" =
  "&" ++ match captureText caps 1 with
         | Some t => t
         | None => "$1"
         end ++ "=".
Proof.
  cbn [getSubstitution]. change (Ascii.eqb "&" "$") with false.
  change (Ascii.eqb "$" "$") with true.
  change (Ascii.eqb "1" "$") with false. change (Ascii.eqb "1" "&") with false.
  change (Ascii.eqb "1" "`") with false. change (Ascii.eqb "1" "'") with false.
  change (isDigit "1") with true. change (isDigit "=") with false.
  change (Ascii.eqb "=" "$") with false. change (digitValue "1") with 1.
  cbv iota. destruct (captureText caps 1); reflexivity.
Qed.

Lemma replaceAllFrom_pre m pre pre' skip s :
  replaceAllFrom m "&$1=" pre skip s = replaceAllFrom m "&$1=" pre' skip s.
Proof.
  revert pre pre' skip. induction s as [|c s IH]; intros pre pre' skip;
    [reflexivity | ].
  cbn [replaceAllFrom]. destruct skip as [|k]; [ | apply IH].
  destruct (m (String c s)) as [[len caps]|].
  - rewrite !expand_unescape_template.
    destruct len; now rewrite (IH _ (pre' ++ singleton c)).
  - now rewrite (IH _ (pre' ++ singleton c)).
Qed.

Lemma replaceAllFrom_skip m pre x s :
  replaceAllFrom m "&$1=" pre (String.length x) (x ++ s) =
  replaceAllFrom m "&$1=" EmptyString 0 s.
Proof.
  revert pre. induction x as [|c x IH]; intros pre.
  - cbn [String.length append]. apply replaceAllFrom_pre.
  - cbn [String.length append replaceAllFrom]. apply IH.
Qed.

Lemma replaceAllFrom_unmatched pre x s :
  lacksChar backslash x = true ->
  replaceAllFrom escapedAmpersand "&$1=" pre 0 (x ++ s) =
  x ++ replaceAllFrom escapedAmpersand "&$1=" EmptyString 0 s.
Proof.
  revert pre. induction x as [|c x IH]; intros pre H.
  - apply replaceAllFrom_pre.
  - cbn [lacksChar allChars] in H. apply andb_prop in H as [Hc Hx].
    apply negb_true_iff in Hc.
    cbn [append replaceAllFrom].
    assert (Hnone : escapedAmpersand (String c (x ++ s)) = None).
    { unfold escapedAmpersand. destruct (x ++ s); [reflexivity | ].
      now rewrite Hc. }
    rewrite Hnone. f_equal. now apply IH.
Qed.

Lemma dotRun_app g s :
  oneLine g = true -> dotRun (g ++ s) = g ++ dotRun s.
Proof.
  induction g as [|c g IH]; intros H; [reflexivity | ].
  cbn [oneLine allChars] in H. apply andb_prop in H as [Hc Hg].
  apply negb_true_iff in Hc. cbn [append dotRun]. rewrite Hc.
  f_equal. now apply IH.
Qed.

Lemma lastIndexOf_none c s :
  lacksChar c s = true -> lastIndexOf c s = None.
Proof.
  induction s as [|a s IH]; intros H; [reflexivity | ].
  cbn [lacksChar allChars] in H. apply andb_prop in H as [Ha Hs].
  apply negb_true_iff in Ha. cbn [lastIndexOf].
  now rewrite (IH Hs), Ha.
Qed.

Lemma lastIndexOf_app c x r :
  lacksChar c r = true ->
  lastIndexOf c (x ++ String c r) = Some (String.length x).
Proof.
  intros Hr. induction x as [|a x IH].
  - cbn [append lastIndexOf String.length].
    now rewrite (lastIndexOf_none c r Hr), Ascii.eqb_refl.
  - cbn [append lastIndexOf String.length]. now rewrite IH.
Qed.

Lemma take_app x s : take (String.length x) (x ++ s) = x.
Proof.
  induction x as [|c x IH]; [now destruct s | ].
  cbn [String.length append take]. now rewrite IH.
Qed.

Lemma escapedAmpersand_match g rest :
  g <> EmptyString -> oneLine g = true ->
  lacksChar "=" (dotRun rest) = true ->
  escapedAmpersand (String backslash (String "&" (g ++ String "=" rest))) =
  Some (2 + String.length g + 1, [Some g]).
Proof.
  intros Hne Hg Hrest. unfold escapedAmpersand.
  rewrite !Ascii.eqb_refl. cbn [andb].
  rewrite dotRun_app by assumption.
  destruct g as [|c g]; [contradiction | ].
  cbn [append].
  change (dotRun (String "=" rest)) with (String "=" (dotRun rest)).
  rewrite lastIndexOf_app by assumption.
  change (String c (g ++ String "=" rest))
    with (String c g ++ String "=" rest).
  change (S (String.length g)) with (String.length (String c g)).
  now rewrite take_app.
Qed.

Lemma unescape_general pre g rest :
  lacksChar backslash pre = true ->
  g <> EmptyString -> oneLine g = true ->
  lacksChar "=" (dotRun rest) = true ->
  unescapeAmpersands (pre ++ "\&" ++ g ++ "=" ++ rest) =
  pre ++ "&" ++ g ++ "=" ++ unescapeAmpersands rest.
Proof.
  intros Hpre Hne Hg Hrest. unfold unescapeAmpersands, replaceAll.
  rewrite replaceAllFrom_unmatched by assumption. f_equal.
  change ("\&" ++ g ++ "=" ++ rest)
    with (String backslash (String "&" (g ++ String "=" rest))).
  cbn [replaceAllFrom].
  rewrite escapedAmpersand_match by assumption.
  rewrite expand_unescape_template. cbn [captureText nth_error Nat.add].
  replace (g ++ String "=" rest) with ((g ++ "=") ++ rest)
    by now rewrite append_assoc.
  replace (String.length g + 1) with (String.length (g ++ "="))
    by (rewrite length_append; reflexivity).
  rewrite replaceAllFrom_skip. cbn [append]. now rewrite append_assoc.
Qed.

Lemma includes_inside (a g b p : string) :
  includes g p = true -> includes (a ++ g ++ b) p = true.
Proof.
  intros H. apply includes_inv in H as (u & v & ->).
  replace (a ++ (u ++ p ++ v) ++ b) with ((a ++ u) ++ p ++ (v ++ b))
    by now rewrite !append_assoc.
  apply includes_app.
Qed.

(** C7.  The pattern of the post-processing is greedy: its match runs
    from the first escaped ampersand of a line to the last equals sign of
    that line, and only the first backslash is removed.  When the text
    between them holds another escaped ampersand, as with two published
    references on one line, that one is kept: the result still contains a
    backslash before an ampersand. *)
Theorem unescapeAmpersands_misses_second_reference (pre g rest : string) :
  lacksChar backslash pre = true ->
  oneLine g = true ->
  includes g "\&" = true ->
  lacksChar "=" (dotRun rest) = true ->
  unescapeAmpersands (pre ++ "\&" ++ g ++ "=" ++ rest) =
    pre ++ "&" ++ g ++ "=" ++ unescapeAmpersands rest /\
  includes (unescapeAmpersands (pre ++ "\&" ++ g ++ "=" ++ rest)) "\&" = true.
Proof.
  intros Hpre Hg Hin Hrest.
  assert (Hne : g <> EmptyString) by (intros ->; discriminate Hin).
  rewrite (unescape_general pre g rest Hpre Hne Hg Hrest). split; [reflexivity | ].
  replace (pre ++ "&" ++ g ++ "=" ++ unescapeAmpersands rest)
    with ((pre ++ "&") ++ g ++ "=" ++ unescapeAmpersands rest)
    by now rewrite append_assoc.
  now apply includes_inside.
Qed.

(** Two published references on one line: the second URL keeps its
    backslash. *)
Lemma unescapeAmpersands_two_references_witness :
  unescapeAmpersands
    "![](https://asset.cml.dev/a.png?cml=png\&cache-bypass=1) ![](https://asset.cml.dev/b.png?cml=png\&cache-bypass=2)" =
  "![](https://asset.cml.dev/a.png?cml=png&cache-bypass=1) ![](https://asset.cml.dev/b.png?cml=png\&cache-bypass=2)" /\
  includes
    (unescapeAmpersands
       "![](https://asset.cml.dev/a.png?cml=png\&cache-bypass=1) ![](https://asset.cml.dev/b.png?cml=png\&cache-bypass=2)")
    "\&" = true.
Proof.
  exact (unescapeAmpersands_misses_second_reference
           "![](https://asset.cml.dev/a.png?cml=png"
           "cache-bypass=1) ![](https://asset.cml.dev/b.png?cml=png\&cache-bypass"
           "2)" eq_refl eq_refl eq_refl eq_refl).
Defined.

(** * Properties of the rest of the two files *)

(** ** cml.js: the constructor *)

Lemma endsWith_app (s suf : string) : endsWith (s ++ suf) suf = true.
Proof.
  induction s as [|c s IH]; cbn [append].
  - destruct suf; cbn [endsWith]; now rewrite String.eqb_refl.
  - cbn [endsWith]. rewrite IH. now destruct (String.eqb _ _).
Qed.

Lemma substring_app (s t : string) :
  substring 0 (String.length s) (s ++ t) = s.
Proof.
  induction s as [|c s IH]; cbn [String.length append substring].
  - now destruct t.
  - now rewrite IH.
Qed.

Lemma uriNoTrailingSlash_slash (s : string) :
  uriNoTrailingSlash (s ++ "/") = s.
Proof.
  unfold uriNoTrailingSlash. rewrite endsWith_app, length_append.
  cbn [String.length].
  replace (String.length s + 1 - 1) with (String.length s) by lia.
  apply substring_app.
Qed.

Lemma endsWith_last (s : string) (c d : ascii) :
  endsWith (s ++ String c EmptyString) (String d EmptyString) = Ascii.eqb c d.
Proof.
  induction s as [|a s IH]; cbn [append endsWith].
  - cbn [String.eqb]. destruct (Ascii.eqb c d); reflexivity.
  - rewrite IH. cbn [String.eqb].
    destruct s; cbn [append]; destruct (Ascii.eqb a d); reflexivity.
Qed.

Lemma dotGitAtEnd_inside (c : ascii) (s : string) :
  dotGitAtEnd (String c (s ++ ".git")) = None.
Proof.
  unfold dotGitAtEnd.
  destruct (String.eqb (String c (s ++ ".git")) ".git") eqn:E; [ | reflexivity].
  apply String.eqb_eq in E. apply (f_equal String.length) in E.
  cbn [String.length] in E. rewrite length_append in E. cbn in E. lia.
Qed.

Lemma replaceFirstFrom_dotGit (pre s : string) :
  replaceFirstFrom dotGitAtEnd EmptyString pre (s ++ ".git") = s.
Proof.
  revert pre. induction s as [|c s IH]; intros pre.
  - reflexivity.
  - cbn [append]. cbn [replaceFirstFrom]. rewrite dotGitAtEnd_inside.
    now rewrite IH.
Qed.

Lemma replaceFirstFrom_noMatch (pre s : string) :
  endsWith s ".git" = false ->
  replaceFirstFrom dotGitAtEnd EmptyString pre s = s.
Proof.
  revert pre. induction s as [|c s IH]; intros pre H.
  - reflexivity.
  - cbn [endsWith] in H. cbn [replaceFirstFrom]. unfold dotGitAtEnd at 1.
    destruct (String.eqb (String c s) ".git"); [discriminate | ].
    now rewrite IH.
Qed.

Lemma slash_is_not_dotGit (s : string) : endsWith (s ++ "/") ".git" = false.
Proof.
  destruct (endsWith (s ++ "/") ".git") eqn:E; [ | reflexivity].
  exfalso. induction s as [|c s IH]; [discriminate | ].
  cbn [append endsWith] in E.
  destruct (String.eqb (String c (s ++ "/")) ".git") eqn:E'; [ | now apply IH].
  apply String.eqb_eq in E'.
  destruct s as [|c1 [|c2 [|c3 [|c4 s]]]]; cbn in E'; discriminate.
Qed.

Lemma truthyStr_nonempty (s : string) :
  s <> EmptyString -> truthyStr (Some s) = true.
Proof. intros H. cbn. apply String.eqb_neq in H. now rewrite H. Qed.

Lemma nonempty_app (s t : string) :
  t <> EmptyString -> s ++ t <> EmptyString.
Proof. destruct s; [now cbn | discriminate]. Qed.

(** X1.  The spellings of a repository address build the same object:
    with a trailing slash, with the suffix [.git], or with both, the
    constructor stores the bare address.  Only one slash is removed, and it
    is removed before the suffix: two trailing slashes, or a slash before
    the suffix, leave an address that ends with a slash. *)
Theorem newCML_repo_spellings :
  forall (ps : Process) (driver token : option string) (s : string),
    s <> EmptyString -> endsWith s "/" = false -> endsWith s ".git" = false ->
    let build given := newCML ps (mkCmlOpts driver (Some given) token) in
    build (s ++ "/") = build s /\
    build (s ++ ".git") = build s /\
    build (s ++ ".git/") = build s /\
    (forall c, build s = inr c -> repo c = s) /\
    (forall c, build (s ++ "//") = inr c -> repo c = s ++ "/") /\
    (forall c, build (s ++ "/.git") = inr c -> repo c = s ++ "/").
Proof.
  intros ps driver token s Hne Hs Hg build.
  assert (E0 : replaceFirst dotGitAtEnd EmptyString (uriNoTrailingSlash s) = s).
  { unfold uriNoTrailingSlash, replaceFirst. rewrite Hs.
    now apply replaceFirstFrom_noMatch. }
  assert (E1 : replaceFirst dotGitAtEnd EmptyString
                 (uriNoTrailingSlash (s ++ "/")) = s).
  { rewrite uriNoTrailingSlash_slash. unfold replaceFirst.
    now apply replaceFirstFrom_noMatch. }
  assert (E2 : replaceFirst dotGitAtEnd EmptyString
                 (uriNoTrailingSlash (s ++ ".git")) = s).
  { unfold uriNoTrailingSlash, replaceFirst.
    change (s ++ ".git") with (s ++ ".gi" ++ "t").
    rewrite <- append_assoc, endsWith_last. cbn [Ascii.eqb Bool.eqb andb].
    rewrite append_assoc. apply replaceFirstFrom_dotGit. }
  assert (E3 : replaceFirst dotGitAtEnd EmptyString
                 (uriNoTrailingSlash (s ++ ".git/")) = s).
  { change (s ++ ".git/") with (s ++ ".git" ++ "/").
    rewrite <- append_assoc, uriNoTrailingSlash_slash.
    apply replaceFirstFrom_dotGit. }
  assert (E4 : replaceFirst dotGitAtEnd EmptyString
                 (uriNoTrailingSlash (s ++ "//")) = s ++ "/").
  { change (s ++ "//") with (s ++ "/" ++ "/").
    rewrite <- append_assoc, uriNoTrailingSlash_slash. unfold replaceFirst.
    apply replaceFirstFrom_noMatch, slash_is_not_dotGit. }
  assert (E5 : replaceFirst dotGitAtEnd EmptyString
                 (uriNoTrailingSlash (s ++ "/.git")) = s ++ "/").
  { unfold uriNoTrailingSlash, replaceFirst.
    change (s ++ "/.git") with (s ++ "/.gi" ++ "t").
    rewrite <- append_assoc, endsWith_last. cbn [Ascii.eqb Bool.eqb andb].
    rewrite append_assoc.
    change (s ++ "/.gi" ++ "t") with (s ++ "/" ++ ".git").
    rewrite <- append_assoc. apply replaceFirstFrom_dotGit. }
  subst build. cbv beta. unfold newCML.
  cbn [optRepo optToken optDriver jsToString].
  rewrite !truthyStr_nonempty
    by (assumption || (apply nonempty_app; discriminate)).
  rewrite E0, E1, E2, E3, E4, E5. repeat split.
  all: intros c H; destruct (if truthyStr driver then _ else _) as [e|d];
    [discriminate | ]; now injection H as <-.
Qed.

Lemma newCML_repo_spellings_witness :
  newCML sampleProcess
    (mkCmlOpts None (Some "https://github.com/owner/repo.git/") None) =
  newCML sampleProcess
    (mkCmlOpts None (Some "https://github.com/owner/repo") None) /\
  newCML sampleProcess
    (mkCmlOpts None (Some "https://github.com/owner/repo") None) =
  inr (mkCML "https://github.com/owner/repo" (Some "ghp-1") (Some GITHUB)).
Proof.
  split.
  - exact (proj1 (proj2 (proj2
      (newCML_repo_spellings sampleProcess None None
         "https://github.com/owner/repo" ltac:(discriminate) eq_refl eq_refl)))).
  - reflexivity.
Defined.

(** X2.  The host of the repository decides the driver before the
    environment is looked at, whatever the environment holds:
    [github.com] and [gitlab.com] by equality, Bitbucket by a substring
    test, which any host name that contains [bitbucket.org] or
    [bitbucket.com] passes. *)
Theorem inferDriver_host_before_environment :
  forall (ps : Process) (address host : string),
    address <> EmptyString ->
    urlHostname ps address = inr host ->
    (host = "github.com" -> inferDriver ps (Some address) = inr (Some GITHUB)) /\
    (host = "gitlab.com" -> inferDriver ps (Some address) = inr (Some GITLAB)) /\
    (forall a b, host = a ++ "bitbucket.org" ++ b \/
                 host = a ++ "bitbucket.com" ++ b ->
                 inferDriver ps (Some address) = inr (Some BB)).
Proof.
  intros ps address host Hne Hhost. unfold inferDriver.
  rewrite truthyStr_nonempty by assumption. cbn [jsToString]. rewrite Hhost.
  repeat split.
  - now intros ->.
  - now intros ->.
  - intros a b Hab.
    assert (Hbb : isBitbucketHost host = true).
    { unfold isBitbucketHost.
      destruct Hab as [-> | ->]; rewrite includes_app;
        [apply Bool.orb_true_r | reflexivity]. }
    rewrite Hbb.
    destruct (String.eqb host "github.com") eqn:E1.
    { apply String.eqb_eq in E1. subst host. discriminate Hbb. }
    destruct (String.eqb host "gitlab.com") eqn:E2.
    { apply String.eqb_eq in E2. subst host. discriminate Hbb. }
    reflexivity.
Qed.

Lemma inferDriver_host_before_environment_witness :
  inferDriver sampleProcess (Some "https://github.com/owner/repo") =
  inr (Some GITHUB) /\
  inferDriver sampleProcess (Some "https://bitbucket.org.example.net/x") =
  inr (Some BB).
Proof.
  split.
  - exact (proj1 (inferDriver_host_before_environment sampleProcess
             "https://github.com/owner/repo" "github.com"
             ltac:(discriminate) eq_refl) eq_refl).
  - exact (proj2 (proj2 (inferDriver_host_before_environment sampleProcess
             "https://bitbucket.org.example.net/x" "bitbucket.org.example.net"
             ltac:(discriminate) eq_refl))
             EmptyString ".example.net" (or_introl eq_refl)).
Defined.

(** X3.  An object built with no driver option, for a repository whose
    host is none of the three known and in an environment without the three
    CI variables, has no driver; [getDriver] then throws [driver not set],
    and [commentCreate], [prCreate] and [parseRunnerLog] (on data that is
    there) throw it before any external call. *)
Theorem newCML_without_driver_cannot_reach_platform :
  forall (ps : Process) (pf : Platform) (settleOrder : nat -> list nat)
         (opts : CmlOpts) (c : CML) (host : string),
    newCML ps opts = inr c ->
    truthyStr (optDriver opts) = false ->
    urlHostname ps (repo c) = inr host ->
    String.eqb host "github.com" = false ->
    String.eqb host "gitlab.com" = false ->
    isBitbucketHost host = false ->
    truthyStr (env ps "GITHUB_REPOSITORY") = false ->
    truthyStr (env ps "CI_PROJECT_URL") = false ->
    truthyStr (env ps "BITBUCKET_REPO_UUID") = false ->
    driver c = None /\
    getDriver pf c = inl (newError "driver not set") /\
    (forall o, commentCreate pf settleOrder c o =
               Throw (newError "driver not set")) /\
    (forall o, prCreate pf c o = Throw (newError "driver not set")) /\
    (forall o, dataFalsy (data o) = false ->
               parseRunnerLog pf c o = Throw (newError "driver not set")).
Proof.
  intros ps pf settleOrder opts c host Hnew Hd Hhost H1 H2 H3 E1 E2 E3.
  assert (Hdrv : driver c = None).
  { unfold newCML in Hnew.
    destruct (if truthyStr (optRepo opts) then _ else _) as [e|given];
      [discriminate | ].
    rewrite Hd in Hnew.
    destruct (inferDriver ps _) as [e|d] eqn:Hi; [discriminate | ].
    injection Hnew as <-. cbn [repo driver] in *.
    unfold inferDriver in Hi. rewrite E1, E2, E3 in Hi.
    destruct (truthyStr (Some _)); [ | congruence].
    cbn [jsToString] in Hi. rewrite Hhost, H1, H2, H3 in Hi. congruence. }
  assert (Hget : getDriver pf c = inl (newError "driver not set")).
  { unfold getDriver. now rewrite Hdrv. }
  repeat split; try assumption.
  - intros o. unfold commentCreate, composeReport. now rewrite Hget.
  - intros o. unfold prCreate, prProbe. now rewrite Hget.
  - intros o Hdata. unfold parseRunnerLog. now rewrite Hdata, Hget.
Qed.

Lemma newCML_without_driver_witness :
  exists c,
    newCML emptyProcess selfHosted = inr c /\
    driver c = None /\
    commentCreate Sample.platform Sample.inOrder c Sample.opts =
    Throw (newError "driver not set").
Proof.
  eexists. split; [reflexivity | ].
  pose proof (newCML_without_driver_cannot_reach_platform
                emptyProcess Sample.platform Sample.inOrder selfHosted
                _ "git.example.com" eq_refl eq_refl eq_refl eq_refl eq_refl
                eq_refl eq_refl eq_refl eq_refl) as H.
  split; [exact (proj1 H) | exact (proj1 (proj2 (proj2 H)) Sample.opts)].
Defined.

(** X4.  The token of the object is the first value that is neither
    absent nor empty among the [token] option, [REPO_TOKEN], [repo_token],
    [GITHUB_TOKEN] and [GITLAB_TOKEN], in this order; when there is none it
    is [BITBUCKET_TOKEN] as it is. *)
Theorem newCML_token_precedence :
  forall (ps : Process) (opts : CmlOpts) (c : CML),
    newCML ps opts = inr c ->
    token c =
    match find truthyStr (tokenSources ps opts) with
    | Some t => t
    | None => env ps "BITBUCKET_TOKEN"
    end.
Proof.
  intros ps opts c Hnew. unfold newCML in Hnew.
  destruct (if truthyStr (optRepo opts) then _ else _) as [e|given];
    [discriminate | ].
  destruct (if truthyStr (optDriver opts) then _ else _) as [e|d];
    [discriminate | ].
  injection Hnew as <-. cbn [token tokenSources find].
  unfold inferToken, orElse.
  destruct (truthyStr (optToken opts)); [reflexivity | ].
  destruct (truthyStr (env ps "REPO_TOKEN")) eqn:E1.
  { now rewrite E1, E1, E1. }
  destruct (truthyStr (env ps "repo_token")) eqn:E2.
  { now rewrite E2, E2. }
  destruct (truthyStr (env ps "GITHUB_TOKEN")) eqn:E3.
  { now rewrite E3. }
  now destruct (truthyStr (env ps "GITLAB_TOKEN")).
Qed.

Lemma newCML_token_precedence_witness :
  token (mkCML "https://github.com/owner/repo" (Some "ghp-1") (Some GITHUB)) =
  match
    find truthyStr
      (tokenSources sampleProcess
         (mkCmlOpts None (Some "https://github.com/owner/repo") None))
  with
  | Some t => t
  | None => env sampleProcess "BITBUCKET_TOKEN"
  end.
Proof.
  exact (newCML_token_precedence sampleProcess
           (mkCmlOpts None (Some "https://github.com/owner/repo") None)
           _ eq_refl).
Defined.

(** ** cml.js: unregisterRunner *)

Lemma find_none_of_forallb {A : Type} (f : A -> bool) (l : list A) :
  forallb (fun x => negb (f x)) l = true -> find f l = None.
Proof.
  induction l as [|x l IH]; [reflexivity | ].
  cbn [forallb find]. intros H. apply andb_prop in H as [Hx Hl].
  apply negb_true_iff in Hx. rewrite Hx. now apply IH.
Qed.

Lemma find_first {A : Type} (f : A -> bool) (before after : list A) (x : A) :
  forallb (fun y => negb (f y)) before = true -> f x = true ->
  find f (before ++ x :: after)%list = Some x.
Proof.
  intros Hall Hx. induction before as [|b before IH].
  - cbn [List.app find]. now rewrite Hx.
  - cbn [forallb List.app find] in *. apply andb_prop in Hall as [Hb Hall].
    apply negb_true_iff in Hb. rewrite Hb. now apply IH.
Qed.

(** X5.  [unregisterRunner] checks the identifier it looks up, and hands
    the driver another one when the options have a [runnerId].  When the
    call brings the listing of the runners, the first runner of the listing
    with the name decides: when there is none, or when its identifier is
    falsy (0, the empty string, null), the call throws [Runner not found]
    without any external call, even if a later runner has the name and an
    identifier.  Otherwise the only external call is the driver's
    [unregisterRunner], whose outcome is the outcome of the call; the
    identifier it is handed is the [runnerId] of the options when they have
    one, truthy or not, and else the identifier that was checked. *)
Theorem unregisterRunner_checks_the_found_id_and_hands_the_given_one :
  forall (pf : Platform) (this : CML) (W : World) (w : state W)
         (opts : UnregisterOpts),
    match run W (unregisterRunner pf this opts) w with
    | (o, _, tr) =>
        forall rs, unRunners opts = Some rs ->
          (forallb (fun r => negb (namedRunner (unName opts) r)) rs = true ->
           o = Thrown (newError "Runner not found") /\ tr = []) /\
          (forall before r after,
              rs = (before ++ r :: after)%list ->
              forallb (fun r => negb (namedRunner (unName opts) r)) before =
              true ->
              namedRunner (unName opts) r = true ->
              if truthy (runnerId r) then
                match getDriver pf this with
                | inl e => o = Thrown e /\ tr = []
                | inr _ =>
                    let handed :=
                      match unRunnerId opts with
                      | Some given => given
                      | None => runnerId r
                      end in
                    let unregister := DrvUnregisterRunner handed opts in
                    o = outcomeOf (fst (answer W _ unregister w)) /\
                    tr = [Called unregister (fst (answer W _ unregister w))]
                end
              else o = Thrown (newError "Runner not found") /\ tr = [])
    end.
Proof.
  intros pf this W w opts.
  destruct (run W (unregisterRunner pf this opts) w) as [[o w'] tr] eqn:Hrun.
  intros rs Hrs. unfold unregisterRunner, runnerByNameIn in Hrun.
  fold (namedRunner (unName opts)) in Hrun. rewrite Hrs in Hrun.
  cbn [bind] in Hrun. split.
  - intros Hall. rewrite (find_none_of_forallb _ _ Hall) in Hrun.
    cbn in Hrun. now injection Hrun as <- _ <-.
  - intros before r after -> Hall Hr.
    rewrite (find_first _ _ _ _ Hall Hr) in Hrun.
    destruct (truthy (runnerId r)); cbn [negb] in Hrun.
    + destruct (getDriver pf this) as [e|drv]; cbn [lift bind] in Hrun.
      * cbn in Hrun. now injection Hrun as <- _ <-.
      * rewrite run_call in Hrun. cbv zeta.
        destruct (answer W _ _ w) as [[e|v] w1]; cbn [fst] in *;
          now injection Hrun as <- _ <-.
    + cbn in Hrun. now injection Hrun as <- _ <-.
Qed.

Lemma unregisterRunner_hands_the_given_id_witness :
  run Sample.quiet
    (unregisterRunner Sample.platform Sample.github staleIdOpts) tt =
  (Thrown (newError "not available"), tt,
   [Called (DrvUnregisterRunner (VNum 0) staleIdOpts)
      (inl (newError "not available"))]).
Proof.
  generalize (unregisterRunner_checks_the_found_id_and_hands_the_given_one
                Sample.platform Sample.github Sample.quiet tt staleIdOpts).
  destruct (run Sample.quiet _ tt) as [[o []] tr].
  intros H. destruct (H runnerPool eq_refl) as [_ Hfirst].
  destruct (Hfirst [] (mkRunner (VNum 7) "cml-a")
              [mkRunner (VNum 0) "cml-b"; mkRunner (VNum 9) "cml-b"]
              eq_refl eq_refl eq_refl) as [-> ->].
  reflexivity.
Defined.

(** ** utils.js: exec *)

Lemma sliceButLast_snoc (s : string) (c : ascii) :
  sliceButLast (s ++ String c EmptyString) = s.
Proof.
  unfold sliceButLast. rewrite length_append. cbn [String.length].
  replace (String.length s + 1 - 1) with (String.length s) by lia.
  apply substring_app.
Qed.

(** X6.  [exec] resolves with the output less its last character,
    whatever that character is: with what was printed on the standard
    output when there is any, otherwise with what was printed on the
    standard error.  When the child fails the promise rejects with an error
    whose message is the command followed by both outputs.  [shown] and
    [errors] are the two outputs as the callback sees them, after the
    removal of the escape sequences when the process has no terminal. *)
Theorem exec_returns_output_without_last_character :
  forall (stripAnsi : string -> string) (isTTY : bool)
         (command stdout stderr shown errors : string),
    (if isTTY then (stdout, stderr) else (stripAnsi stdout, stripAnsi stderr)) =
    (shown, errors) ->
    (forall out c, shown = out ++ String c EmptyString ->
       execSettle stripAnsi isTTY command false stdout stderr = inr out) /\
    (forall out c, shown = EmptyString ->
       errors = out ++ String c EmptyString ->
       execSettle stripAnsi isTTY command false stdout stderr = inr out) /\
    execSettle stripAnsi isTTY command true stdout stderr =
    inl (newError (command ++ newline ++ String (ascii_of_nat 9) shown ++
                   newline ++ String (ascii_of_nat 9) errors)).
Proof.
  intros stripAnsi isTTY command stdout stderr shown errors H.
  unfold execSettle.
  assert (E1 : (if negb isTTY then stripAnsi stdout else stdout) = shown)
    by (destruct isTTY; now injection H).
  assert (E2 : (if negb isTTY then stripAnsi stderr else stderr) = errors)
    by (destruct isTTY; now injection H).
  rewrite E1, E2. repeat split.
  - intros out c ->. destruct out; cbn [append String.eqb negb];
      [reflexivity | ].
    change (String a (out ++ String c EmptyString)) with
      (String a out ++ String c EmptyString).
    now rewrite sliceButLast_snoc.
  - intros out c -> ->. cbn [String.eqb negb]. now rewrite sliceButLast_snoc.
Qed.

Lemma exec_returns_output_witness :
  execSettle (fun s => s) true "git rev-parse HEAD" false
    ("0123456789abcdef" ++ newline) ("warning: x" ++ newline) =
  inr "0123456789abcdef".
Proof.
  exact (proj1
    (exec_returns_output_without_last_character (fun s => s) true
       "git rev-parse HEAD" ("0123456789abcdef" ++ newline)
       ("warning: x" ++ newline) _ _ eq_refl)
    "0123456789abcdef" (ascii_of_nat 10) eq_refl).
Defined.

(** ** utils.js: isProcRunning *)

Lemma indexOf_includes (s p : string) :
  Z.gtb (indexOf s p) (-1) = includes s p /\ (-1 <= indexOf s p)%Z.
Proof.
  induction s as [|c s [IH1 IH2]]; cbn [indexOf includes].
  - destruct (prefix p EmptyString); split; (reflexivity || lia).
  - destruct (prefix p (String c s)); [split; (reflexivity || lia) | ].
    rewrite <- IH1.
    destruct (Z.ltb_spec (indexOf s p) 0) as [Hlt|Hge].
    + assert (E : indexOf s p = (-1)%Z) by lia. rewrite E.
      split; [reflexivity | lia].
    + split; [ | lia].
      destruct (Z.gtb_spec (indexOf s p + 1) (-1)); [ | lia].
      destruct (Z.gtb_spec (indexOf s p) (-1)); [reflexivity | lia].
Qed.

Lemma toLowerCase_app (a b : string) :
  toLowerCase (a ++ b) = toLowerCase a ++ toLowerCase b.
Proof.
  induction a as [|c a IH]; [reflexivity | ].
  cbn [append toLowerCase]. now rewrite IH.
Qed.

Lemma toLowerCaseChar_idem (c : ascii) :
  toLowerCaseChar (toLowerCaseChar c) = toLowerCaseChar c.
Proof.
  destruct c as [[|] [|] [|] [|] [|] [|] [|] [|]]; reflexivity.
Qed.

Lemma toLowerCase_idem (s : string) :
  toLowerCase (toLowerCase s) = toLowerCase s.
Proof.
  induction s as [|c s IH]; [reflexivity | ].
  cbn [toLowerCase]. now rewrite IH, toLowerCaseChar_idem.
Qed.

Lemma toLowerCase_split (s u v : string) :
  toLowerCase s = u ++ v ->
  exists a b, s = a ++ b /\ toLowerCase a = u /\ toLowerCase b = v.
Proof.
  revert s. induction u as [|c u IH]; intros s H.
  - exists EmptyString, s. now repeat split.
  - destruct s as [|d s]; [discriminate | ].
    cbn [toLowerCase append] in H. injection H as Hc Hs.
    destruct (IH s Hs) as (a & b & -> & Ha & Hb).
    exists (String d a), b. cbn [toLowerCase append].
    now rewrite Hc, Ha, Hb.
Qed.

(** X7.  [isProcRunning] answers true exactly when the process listing
    contains the name as a substring, letter case apart: a part of the
    listing has the same lower-case form as the name.  So the empty name is
    always reported as running, and the case of the letters of the name
    does not matter.  An error of the listing command is what the promise
    rejects with. *)
Theorem isProcRunning_matches_substring_ignoring_case :
  forall (name stdout : string),
    (procSettle name None stdout = inr true <->
     exists a n b, stdout = a ++ n ++ b /\
                   toLowerCase n = toLowerCase name) /\
    procSettle EmptyString None stdout = inr true /\
    procSettle (toLowerCase name) None stdout = procSettle name None stdout /\
    (forall e, procSettle name (Some e) stdout = inl e).
Proof.
  intros name stdout. unfold procSettle.
  rewrite !(proj1 (indexOf_includes _ _)). repeat split.
  - intros H. injection H as H. apply includes_inv in H as (u & v & H).
    apply toLowerCase_split in H as (a & b' & -> & Ha & Hb).
    apply toLowerCase_split in Hb as (n & b & -> & Hn & Hb).
    now exists a, n, b.
  - intros (a & n & b & -> & Hn).
    rewrite !toLowerCase_app, Hn. now rewrite includes_app.
  - cbn [toLowerCase]. f_equal.
    destruct (toLowerCase stdout); reflexivity.
  - now rewrite toLowerCase_idem.
Qed.

(** ** utils.js: sshConnection *)

Lemma sshLoop_failures (maxTries trials : Z) (errs : list JsError)
    (rest : list (JsError + unit)) :
  (trials + Z.of_nat (List.length errs) <= maxTries \/ maxTries < trials)%Z ->
  sshLoop maxTries trials (map inl errs ++ rest)%list =
  sshLoop maxTries (trials + Z.of_nat (List.length errs)) rest.
Proof.
  revert trials. induction errs as [|e errs IH]; intros trials H.
  - cbn [List.length map List.app]. now rewrite Z.add_0_r.
  - cbn [List.length map List.app sshLoop] in *.
    rewrite Nat2Z.inj_succ in *.
    destruct (Z.eqb_spec maxTries trials) as [->|Hne]; [lia | ].
    rewrite IH by lia. f_equal. lia.
Qed.

(** X8.  With a limit that is not negative (5 when [maxTries] is not
    given), [sshConnection] makes up to limit + 1 attempts: as long as at
    most limit attempts have failed it goes on, sleeping once after each
    failure; it returns the connection as soon as an attempt succeeds; and
    when one more attempt fails after limit failures, it rejects with the
    error of that last attempt. *)
Theorem sshConnection_gives_up_after_maxTries_retries :
  forall (maxTries : option Z) (errs : list JsError)
         (rest : list (JsError + unit)),
    let limit := match maxTries with Some m => m | None => 5%Z end in
    let failed := Z.of_nat (List.length errs) in
    (failed <= limit)%Z ->
    sshConnection maxTries (map inl errs) = SshWaiting failed /\
    sshConnection maxTries (map inl errs ++ inr tt :: rest)%list =
    SshConnected failed /\
    (forall e, failed = limit ->
       sshConnection maxTries (map inl errs ++ inl e :: rest)%list =
       SshRejected e limit).
Proof.
  intros maxTries errs rest limit failed H. unfold sshConnection.
  fold limit. repeat split.
  - rewrite <- (app_nil_r (map inl errs)).
    rewrite sshLoop_failures by (left; lia). reflexivity.
  - rewrite sshLoop_failures by (left; lia). reflexivity.
  - intros e Hm. rewrite sshLoop_failures by (left; lia).
    cbn [sshLoop]. fold failed. rewrite Hm, Z.add_0_l, Z.eqb_refl. reflexivity.
Qed.

Lemma sshConnection_default_limit_witness :
  sshConnection None
    (map inl [refused "1"; refused "2"; refused "3"; refused "4"; refused "5"]
     ++ [inl (refused "6")])%list =
  SshRejected (refused "6") 5.
Proof.
  exact (proj2 (proj2
    (sshConnection_gives_up_after_maxTries_retries None
       [refused "1"; refused "2"; refused "3"; refused "4"; refused "5"] []
       ltac:(cbn; lia)))
    (refused "6") eq_refl).
Defined.

(** X9.  With a negative [maxTries] the test that ends the retries never
    holds: however many attempts fail, [sshConnection] does not reject, it
    sleeps and tries again. *)
Theorem sshConnection_negative_maxTries_never_gives_up :
  forall (maxTries : Z) (errs : list JsError),
    (maxTries < 0)%Z ->
    sshConnection (Some maxTries) (map inl errs) =
    SshWaiting (Z.of_nat (List.length errs)).
Proof.
  intros maxTries errs H. unfold sshConnection.
  rewrite <- (app_nil_r (map inl errs)).
  rewrite sshLoop_failures by (right; lia). reflexivity.
Qed.

Lemma sshConnection_negative_maxTries_witness :
  sshConnection (Some (-1)%Z)
    (map inl [refused "1"; refused "2"; refused "3"]) =
  SshWaiting 3.
Proof.
  exact (sshConnection_negative_maxTries_never_gives_up (-1)
           [refused "1"; refused "2"; refused "3"] ltac:(lia)).
Defined.

(** ** utils.js: gpuPresent *)

(** X10.  [gpuPresent] never rejects: it answers true when [nvidia-smi]
    runs, without trying anything else; when that fails it tries
    [cuda-smi] and answers whether it ran. *)
Theorem gpuPresent_never_rejects :
  forall (W : World) (w : state W),
    match run W gpuPresent w with
    | (o, _, tr) =>
        (exists out,
            o = Returned true /\
            tr = [Called (Exec ["nvidia-smi"]) (inr out)]) \/
        (exists e out,
            o = Returned true /\
            tr = [Called (Exec ["nvidia-smi"]) (inl e);
                  Called (Exec ["cuda-smi"]) (inr out)]) \/
        (exists e e',
            o = Returned false /\
            tr = [Called (Exec ["nvidia-smi"]) (inl e);
                  Called (Exec ["cuda-smi"]) (inl e')])
    end.
Proof.
  intros W w. unfold gpuPresent.
  rewrite run_tryCatch, run_bind, run_call.
  destruct (answer W _ (Exec ["nvidia-smi"]) w) as [[e|out] w1]; cbn [run].
  - rewrite run_tryCatch, run_bind, run_call.
    destruct (answer W _ (Exec ["cuda-smi"]) w1) as [[e'|out] w2]; cbn [run].
    + right. right. now exists e, e'.
    + right. left. now exists e, out.
  - left. now exists out.
Qed.

(** ** cml.js: revParse, triggerSha and branch *)

(** X11.  [revParse] never rejects: when git fails it logs a warning and
    yields [undefined].  [triggerSha] and [branch] take the value of the
    driver when it has one, without running git; otherwise [triggerSha] is
    [revParse] of [HEAD], so once the driver is resolved it always
    returns. *)
Theorem triggerSha_never_rejects_and_asks_git_last :
  forall (pf : Platform) (this : CML) (W : World) (w : state W)
         (ref : string),
    let git := Exec ["git"; "rev-parse"; ref] in
    let warn :=
      Winston "warn"
        "Failed to obtain SHA. Perhaps not in the correct git folder" in
    match run W (revParse ref) w with
    | (o, _, tr) =>
        (exists out, o = Returned (Some out) /\ tr = [Called git (inr out)]) \/
        (exists e r, o = Returned None /\
                     tr = [Called git (inl e); Called warn r])
    end /\
    (forall drv, getDriver pf this = inr drv ->
       (truthyStr (sha drv) = true ->
        run W (triggerSha pf this) w = (Returned (sha drv), w, [])) /\
       (truthyStr (sha drv) = false ->
        run W (triggerSha pf this) w = run W (revParse "HEAD") w) /\
       (exists v, fst (fst (run W (triggerSha pf this) w)) = Returned v) /\
       (truthyStr (branch drv) = true ->
        run W (currentBranch pf this) w =
        (Returned (jsToString (branch drv)), w, []))).
Proof.
  intros pf this W w ref git warn.
  assert (Hrev : forall ref' w0,
             let git := Exec ["git"; "rev-parse"; ref'] in
             match run W (revParse ref') w0 with
             | (o, _, tr) =>
                 (exists out, o = Returned (Some out) /\
                              tr = [Called git (inr out)]) \/
                 (exists e r, o = Returned None /\
                              tr = [Called git (inl e); Called warn r])
             end).
  { intros ref' w0 git'. unfold revParse. fold git' warn.
    rewrite run_tryCatch, run_bind, run_call.
    destruct (answer W _ git' w0) as [[e|out] w1]; cbn [run].
    - rewrite run_bind, run_callTotal.
      destruct (answer W _ warn w1) as [r w2]. cbn [run List.app].
      right. now exists e, r.
    - left. now exists out. }
  split; [apply Hrev | ].
  intros drv Hdrv. unfold triggerSha, currentBranch.
  rewrite Hdrv. cbn [lift bind]. repeat split.
  - now intros ->.
  - now intros ->.
  - destruct (truthyStr (sha drv)); [now eexists | ].
    specialize (Hrev "HEAD" w). cbv zeta in Hrev.
    destruct (run W (revParse "HEAD") w) as [[o w1] tr].
    destruct Hrev as [(out & -> & _)|(e & r & -> & _)]; now eexists.
  - now intros ->.
Qed.

(** ** utils.js: fetchUploadData and upload *)

Ltac run_any :=
  match goal with
  | |- context [run _ (bind _ _) _] => rewrite run_bind
  | |- context [run _ (call _) _] => rewrite run_call
  | |- context [run _ (callTotal _ _) _] => rewrite run_callTotal
  | |- context [answer ?W bool ?c ?w] =>
      destruct (answer W bool c w) as [[?|[|]] ?]
  | |- context [answer ?W ?R ?c ?w] =>
      destruct (answer W R c w) as [[?|?] ?]
  | |- context [run _ (if truthyStr ?o then _ else _) _] =>
      destruct (truthyStr o)
  end;
  cbn [run bind lift fst snd map app forallb andb] in *.

Ltac pick_event :=
  cbn [map In]; repeat (first [left; reflexivity | right]).

(** X12.  With neither a path nor a buffer there is nothing to upload:
    [fetchUploadData], [upload] and a [publish] that is not native throw a
    [TypeError] (the length of [undefined] is read) before any external
    call. *)
Theorem upload_needs_path_or_buffer :
  forall (pf : Platform) (this : CML) (opts : Opts),
    truthyStr (path opts) = false -> buffer opts = None ->
    fetchUploadData pf opts = Throw lengthOfUndefined /\
    upload pf opts = Throw lengthOfUndefined /\
    (native opts = false -> publish pf this opts = Throw lengthOfUndefined).
Proof.
  intros pf this opts Hp Hb.
  assert (H : fetchUploadData pf opts = Throw lengthOfUndefined).
  { unfold fetchUploadData. now rewrite Hp, Hb. }
  assert (H' : upload pf opts = Throw lengthOfUndefined).
  { unfold upload. now rewrite H. }
  repeat split; try assumption.
  intros Hn. unfold publish. now rewrite Hn, H'.
Qed.

Lemma upload_needs_path_or_buffer_witness :
  upload Sample.platform Sample.opts = Throw lengthOfUndefined /\
  publish Sample.platform Sample.github Sample.opts = Throw lengthOfUndefined.
Proof.
  pose proof (upload_needs_path_or_buffer Sample.platform Sample.github
                Sample.opts eq_refl eq_refl) as (_ & Hup & Hpub).
  split; [exact Hup | exact (Hpub eq_refl)].
Defined.

Lemma In_map_isNone {A : Type} (f : Event -> option A) (t : list Event)
    (x : A) :
  forallb (fun ev => isNone (f ev)) t = true -> ~ In (Some x) (map f t).
Proof.
  induction t as [|ev t IH]; cbn [forallb map In]; [tauto | ].
  intros H. apply andb_prop in H as [H1 H2]. intros [E|E].
  - rewrite E in H1. discriminate.
  - now apply IH.
Qed.

Lemma fetchUploadData_no_response (pf : Platform) (W : World) (w : state W)
    (opts : Opts) :
  forallb (fun ev => isNone (responseTextOf ev))
    (snd (run W (fetchUploadData pf opts) w)) = true.
Proof.
  unfold fetchUploadData, mimeType.
  destruct (truthyStr (path opts)); destruct (buffer opts) as [bytes|];
    destruct (truthyStr (mimeTypeIn opts)); cbn [bind run].
  all: repeat run_any; reflexivity.
Qed.

(** X13.  [upload] never returns an empty address: what it returns as
    [uri] is a non-empty body that the asset backend answered with, and
    when the backend answers with an empty body the call throws the error
    that names the status code of the response. *)
Theorem upload_never_returns_empty_uri :
  forall (pf : Platform) (W : World) (w : state W) (opts : Opts),
    match run W (upload pf opts) w with
    | (o, _, tr) =>
        (forall r, o = Returned r ->
           uri r <> EmptyString /\
           exists response,
             In (Some (response, inr (uri r))) (map responseTextOf tr)) /\
        (forall response,
            In (Some (response, inr EmptyString)) (map responseTextOf tr) ->
            o = Thrown (emptyResponse response))
    end.
Proof.
  intros pf W w opts. unfold upload. rewrite run_bind.
  pose proof (fetchUploadData_no_response pf W w opts) as Hquiet.
  destruct (run W (fetchUploadData pf opts) w)
    as [[[[[mime size] body]|e|] w1] t1] eqn:Hfetch; cbn [snd] in Hquiet.
  2,3: split; [discriminate | ];
       intros response Hin; now apply In_map_isNone in Hin.
  cbv zeta. rewrite run_bind, run_call.
  match goal with
  | |- context [answer W _ ?c w1] =>
      destruct (answer W _ c w1) as [[e|response] w2]
  end; cbn [run].
  { rewrite map_app. split; [discriminate | ].
    intros response Hin. apply in_app_or in Hin as [Hin|Hin].
    - now apply In_map_isNone in Hin.
    - cbn in Hin. destruct Hin as [Hin|[]]. discriminate. }
  rewrite run_bind, run_call.
  destruct (answer W _ (ResponseText response) w2) as [[e|text] w3];
    cbn [run].
  { rewrite !map_app. split; [discriminate | ].
    intros response' Hin. apply in_app_or in Hin as [Hin|Hin].
    - now apply In_map_isNone in Hin.
    - cbn in Hin. destruct Hin as [Hin|[Hin|[]]]; discriminate. }
  destruct (String.eqb text EmptyString) eqn:Htext; cbn [run];
    rewrite !map_app.
  - apply String.eqb_eq in Htext. subst text.
    split; [discriminate | ].
    intros response' Hin. apply in_app_or in Hin as [Hin|Hin].
    + now apply In_map_isNone in Hin.
    + cbn in Hin. destruct Hin as [Hin|[Hin|[]]]; [discriminate | ].
      injection Hin as <-. reflexivity.
  - apply String.eqb_neq in Htext. split.
    + intros r Hr. injection Hr as <-. cbn [uri]. split; [exact Htext | ].
      exists response. apply in_or_app. right. cbn. tauto.
    + intros response' Hin. apply in_app_or in Hin as [Hin|Hin].
      * now apply In_map_isNone in Hin.
      * cbn in Hin. destruct Hin as [Hin|[Hin|[]]]; [discriminate | ].
        injection Hin as _ E. now rewrite E in Htext.
Qed.

Lemma upload_empty_body_witness :
  fst (fst (run silentBackend (upload Sample.platform typedOpts) tt)) =
  Thrown (emptyResponse (mkHttpResponse 502 1)).
Proof.
  generalize (upload_never_returns_empty_uri Sample.platform silentBackend tt
                typedOpts).
  destruct (run silentBackend (upload Sample.platform typedOpts) tt)
    as [[o w] tr] eqn:E.
  intros [_ H]. cbn [fst]. apply H.
  injection E as _ _ <-. cbn. tauto.
Defined.

(** X14.  When the options bring both a path and a buffer (and no MIME
    type), the two are used for different things.  The size returned is the
    size that [fs.promises.stat] answered for the file at the path, the
    only file that is measured, and the body is a stream of that file.  The
    type returned is the part before the first semicolon of what the
    detector answered for a temporary file to which the bytes of the buffer
    were written; the detector is shown no other file. *)
Theorem fetchUploadData_sizes_the_path_but_sniffs_the_buffer :
  forall (pf : Platform) (W : World) (w : state W) (opts : Opts)
         (file : string) (bytes : list byte),
    path opts = Some file -> file <> EmptyString ->
    buffer opts = Some bytes ->
    truthyStr (mimeTypeIn opts) = false ->
    match run W (fetchUploadData pf opts) w with
    | (o, _, tr) =>
        (forall m n b, o = Returned (m, n, b) ->
           b = BodyStream file /\
           In (Some (file, n)) (map measuredSize tr) /\
           exists tmp answered,
             In (Some (Some tmp, answered)) (map detection tr) /\
             In (Some (tmp, bytes)) (map writtenFile tr) /\
             m = splitFirst ";" (jsToString answered)) /\
        (forall f k, In (Some (f, k)) (map measuredSize tr) ->
           f = file /\ forall m n b, o = Returned (m, n, b) -> n = k) /\
        (forall detected, In (Some detected) (map detectedFile tr) ->
           exists tmp, detected = Some tmp /\
                       In (Some (tmp, bytes)) (map writtenFile tr))
    end.
Proof.
  intros pf W w opts file bytes Hpath Hne Hbuf Hmime.
  unfold fetchUploadData, mimeType. rewrite Hpath, Hbuf, Hmime.
  apply String.eqb_neq in Hne. cbn [truthyStr jsToString]. rewrite Hne.
  cbn [negb bind run].
  repeat run_any.
  all: cbn [map measuredSize detection detectedFile writtenFile In].
  all: split; [intros mime0 size0 body0 Hret; try discriminate Hret | split].
  all: try (injection Hret as <- <- <-; split; [reflexivity | ];
            split; [tauto | ]; do 2 eexists;
            split; [pick_event | split; [pick_event | reflexivity]]).
  all: try (intros f k Hin;
            repeat (destruct Hin as [Hin|Hin]; try discriminate Hin;
                    try contradiction);
            injection Hin as <- <-; split; try reflexivity;
            intros mime0 size0 body0 Hret; try discriminate Hret;
            injection Hret as _ <- _; reflexivity).
  all: intros detected Hin;
       repeat (destruct Hin as [Hin|Hin]; try discriminate Hin;
               try contradiction).
  all: injection Hin as <-; eexists; split; [reflexivity | ]; tauto.
Qed.

Lemma fetchUploadData_path_and_buffer_witness :
  fst (fst (run assetBackend
              (fetchUploadData Sample.platform pathAndBufferOpts) tt)) =
  Returned ("image/png", 3, BodyStream "plot.png") /\
  In (Some ("plot.png", 3))
    (map measuredSize
       (snd (run assetBackend
               (fetchUploadData Sample.platform pathAndBufferOpts) tt))) /\
  exists tmp answered,
    In (Some (Some tmp, answered))
      (map detection
         (snd (run assetBackend
                 (fetchUploadData Sample.platform pathAndBufferOpts) tt))) /\
    In (Some (tmp, pngBytes))
      (map writtenFile
         (snd (run assetBackend
                 (fetchUploadData Sample.platform pathAndBufferOpts) tt))) /\
    "image/png" = splitFirst ";" (jsToString answered).
Proof.
  generalize (fetchUploadData_sizes_the_path_but_sniffs_the_buffer
                Sample.platform assetBackend tt pathAndBufferOpts
                "plot.png" pngBytes eq_refl ltac:(discriminate) eq_refl
                eq_refl).
  destruct (run assetBackend _ tt) as [[o w] tr] eqn:E.
  intros [H _]. cbn [fst snd].
  assert (Ho : o = Returned ("image/png", 3, BodyStream "plot.png"))
    by (now injection E as <- _ _).
  split; [exact Ho | exact (proj2 (H _ _ _ Ho))].
Defined.

(** X15.  An upload from a buffer, without a path, is sent under the name
    [file.] followed by the subtype of its MIME type, with the length of
    the buffer; and when a session is given, the seed of the content address
    is the session followed by [:undefined], the same for every buffer of
    the session, since the path that should tell the uploads apart is not
    there. *)
Theorem upload_of_a_buffer_seeds_with_undefined :
  forall (pf : Platform) (W : World) (w : state W) (opts : Opts)
         (bytes : list byte) (headers : list (string * string)),
    path opts = None -> buffer opts = Some bytes ->
    In (Some headers) (map fetchHeaders (snd (run W (upload pf opts) w))) ->
    exists mime,
      In ("Content-Type", mime) headers /\
      In ("Content-Length", natToString (List.length bytes)) headers /\
      In ("Content-Disposition",
          "inline; filename=" ++ dquote ++ "file." ++
          jsToString (splitSecond "/" mime) ++ dquote) headers /\
      (truthyStr (session opts) = true ->
       In ("Content-Address-Seed", jsToString (session opts) ++ ":undefined")
         headers).
Proof.
  intros pf W w opts bytes headers Hpath Hbuf.
  unfold upload, fetchUploadData, mimeType. rewrite Hpath, Hbuf.
  cbn [truthyStr jsToString bind run].
  destruct (truthyStr (mimeTypeIn opts)); cbn [bind run].
  all: repeat run_any.
  all: repeat match goal with
       | |- context [run _ (if String.eqb ?a ?b then _ else _) _] =>
           destruct (String.eqb a b); cbn [run List.app]
       end.
  all: cbn [map fetchHeaders In snd List.app]; intros H.
  all: repeat (destruct H as [H|H]; try discriminate H; try contradiction).
  all: injection H as <-; eexists.
  all: destruct (truthyStr (session opts)); cbn [In List.app].
  all: repeat split; try tauto; intros; try discriminate; tauto.
Qed.

Lemma upload_of_a_buffer_witness :
  In ("Content-Address-Seed", "run-1:undefined") bufferHeaders.
Proof.
  destruct (upload_of_a_buffer_seeds_with_undefined Sample.platform
              assetBackend tt bufferOpts pngBytes bufferHeaders eq_refl
              eq_refl ltac:(vm_compute; tauto))
    as (mime & _ & _ & _ & Hseed).
  exact (Hseed eq_refl).
Defined.

(** ** cml.js: ci *)

Lemma run_runCommands_cons (W : World) (w : state W) (command : list string)
    (rest : list (list string)) :
  run W (runCommands (command :: rest)) w =
  match answer W _ (Exec command) w with
  | (inr out, w1) =>
      let '(o, w2, t) := run W (runCommands rest) w1 in
      (o, w2, Called (Exec command) (inr out) :: t)
  | (inl e, w1) =>
      if unsetCommand command then
        let '(o, w2, t) := run W (runCommands rest) w1 in
        (o, w2, Called (Exec command) (inl e) :: t)
      else (Thrown e, w1, [Called (Exec command) (inl e)])
  end.
Proof.
  cbn [runCommands]. rewrite run_bind, run_tryCatch, run_bind, run_call.
  fold (unsetCommand command).
  destruct (answer W _ (Exec command) w) as [[e|out] w1]; cbn [run].
  - destruct (unsetCommand command); cbn [negb run]; [ | reflexivity].
    cbn [List.app]. now destruct (run W (runCommands rest) w1) as [[o w2] t].
  - cbn [List.app]. now destruct (run W (runCommands rest) w1) as [[o w2] t].
Qed.

(** X16.  In the loop of [ci] over the configuration commands of the
    driver, the failure of a command is ignored only when the command
    begins with [git config --unset]: a list of such commands never makes
    the loop fail, whatever git answers; the first failure of any other
    command is what the loop throws, and no later command runs. *)
Theorem ci_commands_tolerate_only_failed_unset :
  forall (W : World) (commands : list (list string)) (w : state W),
    (forallb unsetCommand commands = true ->
     fst (fst (run W (runCommands commands) w)) = Returned tt) /\
    (forall done command rest e w1 w2 t,
        commands = (done ++ command :: rest)%list ->
        run W (runCommands done) w = (Returned tt, w1, t) ->
        unsetCommand command = false ->
        answer W _ (Exec command) w1 = (inl e, w2) ->
        run W (runCommands commands) w =
        (Thrown e, w2, (t ++ [Called (Exec command) (inl e)])%list)).
Proof.
  intros W commands w. split.
  - revert w. induction commands as [|command rest IH]; intros w Hall;
      [reflexivity | ].
    cbn [forallb] in Hall. apply andb_prop in Hall as [Hc Hrest].
    rewrite run_runCommands_cons, Hc.
    specialize (IH (snd (answer W _ (Exec command) w)) Hrest).
    destruct (answer W _ (Exec command) w) as [[e|out] w1]; cbn [snd] in IH;
      destruct (run W (runCommands rest) w1) as [[o w2] t]; exact IH.
  - intros done command rest e w1 w2 t -> Hdone Hc Hfail.
    revert w t Hdone. induction done as [|d done IH]; intros w t Hdone.
    + cbn [runCommands run] in Hdone. injection Hdone as <- <-.
      cbn [List.app]. now rewrite run_runCommands_cons, Hfail, Hc.
    + cbn [List.app]. rewrite run_runCommands_cons in Hdone |- *.
      destruct (answer W _ (Exec d) w) as [[e0|out] w0].
      * destruct (unsetCommand d); [ | discriminate].
        destruct (run W (runCommands done) w0) as [[o w3] t3] eqn:Hrun.
        injection Hdone as -> -> <-.
        now rewrite (IH w0 t3 Hrun).
      * destruct (run W (runCommands done) w0) as [[o w3] t3] eqn:Hrun.
        injection Hdone as -> -> <-.
        now rewrite (IH w0 t3 Hrun).
Qed.

Lemma ci_commands_failed_unset_witness :
  fst (fst (run Sample.quiet (runCommands unsetCommands) tt)) = Returned tt /\
  run Sample.quiet (runCommands configCommands) tt =
  (Thrown (newError "not available"), tt,
   [ Called (Exec ["git"; "config"; "--unset"; "user.name"])
       (inl (newError "not available"));
     Called (Exec ["git"; "config"; "user.name"; GIT_USER_NAME])
       (inl (newError "not available")) ]).
Proof.
  split.
  - exact (proj1 (ci_commands_tolerate_only_failed_unset Sample.quiet
                    unsetCommands tt) eq_refl).
  - exact (proj2 (ci_commands_tolerate_only_failed_unset Sample.quiet
                    configCommands tt)
             [["git"; "config"; "--unset"; "user.name"]]
             ["git"; "config"; "user.name"; GIT_USER_NAME]
             [["git"; "config"; "user.email"; GIT_USER_EMAIL]]
             (newError "not available") tt tt
             [Called (Exec ["git"; "config"; "--unset"; "user.name"])
                (inl (newError "not available"))]
             eq_refl eq_refl eq_refl eq_refl).
Defined.

(** X17.  [ci] yields the output of a fetch only when that fetch, [git
    fetch --all --tags], was its last call and succeeded, after the
    configuration commands.  What the fetch is follows [fetchDepth] first: a
    positive depth gives [--depth], zero or less gives [--unshallow];
    [unshallow] counts only when no depth is given.  With neither, [ci]
    never fetches. *)
Theorem ci_fetches_last_and_only_on_request :
  forall (pf : Platform) (this : CML) (W : World) (w : state W)
         (opts : PrOpts),
    match run W (ci pf this opts) w with
    | (o, _, tr) =>
        forall out, o = Returned (Some out) ->
          exists t args,
            tr = (t ++ [Called (Exec ("git" :: "fetch" :: "--all" :: "--tags"
                                       :: args)) (inr out)])%list /\
            match fetchDepth opts with
            | Some d =>
                if Z.leb d 0 then args = ["--unshallow"]
                else args = ["--depth"; zToString d]
            | None => unshallow opts = true /\ args = ["--unshallow"]
            end
    end.
Proof.
  intros pf this W w opts. unfold ci.
  destruct (getDriver pf this) as [e|drv]; cbn [lift bind run];
    [discriminate | ].
  rewrite run_bind, run_call.
  destruct (answer W _ _ w) as [[e|commands] w1]; cbn [run];
    [discriminate | ].
  rewrite run_bind.
  destruct (run W (runCommands commands) w1) as [[[[]|e|] w2] t2];
    [ | discriminate..].
  destruct (fetchDepth opts) as [d|].
  - destruct (Z.leb d 0).
    + repeat run_any; try discriminate.
      match goal with
      | |- context [String.eqb ?a "true"] => destruct (String.eqb a "true")
      end; repeat run_any; try discriminate.
      intros out H. injection H as <-.
      eexists (_ :: t2 ++ [_])%list, _. split; [ | reflexivity].
      cbn [List.app]. now rewrite <- !app_assoc.
    + repeat run_any; try discriminate.
      intros out H. injection H as <-.
      eexists (_ :: t2)%list, _. split; [ | reflexivity]. reflexivity.
  - destruct (unshallow opts); [ | cbn; discriminate].
    cbn [Z.leb Z.compare].
    repeat run_any; try discriminate.
    match goal with
    | |- context [String.eqb ?a "true"] => destruct (String.eqb a "true")
    end; repeat run_any; try discriminate.
    intros out H. injection H as <-.
    eexists (_ :: t2 ++ [_])%list, _. split; [ | now split].
    cbn [List.app]. now rewrite <- !app_assoc.
Qed.

(** ** cml.js: prCreate *)

(** X18.  When globs are given and select no changed file, [prCreate]
    ends early with [undefined] after a warning: either git reports no
    changed file at all, and then not even the globs are expanded, or none
    of the files the globs expand to is among the changed files.  Nothing
    else is called: no branch is probed or pushed and no pull request is
    listed or opened. *)
Theorem prCreate_returns_early_when_globs_match_no_change :
  forall (pf : Platform) (this : CML) (W : World) (opts : PrOpts)
         (drv : Driver) (fetched : option string) (w w1 w2 : state W)
         (t1 : list Event) (files : list string),
    getDriver pf this = inr drv ->
    run W (ci pf this opts) w = (Returned fetched, w1, t1) ->
    answer W _ GitStatus w1 = (inr files, w2) ->
    globs opts <> [] ->
    (files = [] ->
     run W (prCreate pf this opts) w =
     (Returned None, snd (answer W _ nothingChanged w2),
      (t1 ++ [Called GitStatus (inr files);
              Called nothingChanged (fst (answer W _ nothingChanged w2))])%list))
    /\
    (forall matched w3,
        files <> [] ->
        answer W _ (Globby (globs opts)) w2 = (inr matched, w3) ->
        forallb (fun p => negb (existsb (String.eqb p) files)) matched = true ->
        run W (prCreate pf this opts) w =
        (Returned None, snd (answer W _ notAffected w3),
         (t1 ++ [Called GitStatus (inr files);
                 Called (Globby (globs opts)) (inr matched);
                 Called notAffected (fst (answer W _ notAffected w3))])%list)).
Proof.
  intros pf this W opts drv fetched w w1 w2 t1 files Hdrv Hci Hstatus Hglobs.
  assert (Hg : negb (Nat.eqb (List.length (globs opts)) 0) = true).
  { destruct (globs opts); [contradiction | reflexivity]. }
  unfold prCreate, prProbe. rewrite Hdrv. cbn [lift bind].
  rewrite run_bind. rewrite run_bind, Hci.
  rewrite run_bind, run_call, Hstatus. cbn [run].
  rewrite Hg. split.
  - intros ->. cbn [List.length Nat.eqb andb].
    rewrite run_bind, run_callTotal. fold nothingChanged.
    destruct (answer W _ nothingChanged w2) as [r w3]. cbn [run fst snd].
    now rewrite !app_nil_r.
  - intros matched w3 Hfiles Hmatched Hnone.
    assert (Hf : Nat.eqb (List.length files) 0 = false).
    { destruct files; [contradiction | reflexivity]. }
    rewrite Hf. cbn [andb]. rewrite run_bind, run_call, Hmatched.
    assert (Hpaths : filter (fun p => existsb (String.eqb p) files) matched = []).
    { clear - Hnone. induction matched as [|m matched IH]; [reflexivity | ].
      cbn [forallb filter] in *. apply andb_prop in Hnone as [Hm Hrest].
      apply negb_true_iff in Hm. rewrite Hm. now apply IH. }
    rewrite Hpaths. cbn [List.length Nat.eqb andb].
    rewrite run_bind, run_callTotal. fold notAffected.
    destruct (answer W _ notAffected w3) as [r w4]. cbn [run fst snd].
    now rewrite !app_nil_r.
Qed.

Lemma prCreate_returns_early_witness :
  run forge (prCreate Sample.platform Sample.github globPrOpts)
    (mkForge ["main"] []) =
  (Returned None, mkForge ["main"] [],
   [ Called (DrvUpdateGitConfig GIT_USER_NAME GIT_USER_EMAIL GIT_REMOTE)
       (inr []);
     Called GitStatus (inr ["report.md"]);
     Called (Globby ["*.png"]) (inr []);
     Called notAffected (inr tt) ]).
Proof.
  exact (proj2
           (prCreate_returns_early_when_globs_match_no_change
              Sample.platform Sample.github forge globPrOpts
              Sample.sampleDriver None (mkForge ["main"] [])
              (mkForge ["main"] []) (mkForge ["main"] [])
              [Called (DrvUpdateGitConfig GIT_USER_NAME GIT_USER_EMAIL
                         GIT_REMOTE) (inr [])]
              ["report.md"] eq_refl eq_refl eq_refl ltac:(discriminate))
           [] (mkForge ["main"] []) ltac:(discriminate) eq_refl eq_refl).
Defined.

Lemma rev_last_two {A : Type} (l t : list A) (a b : A) :
  rev l = a :: b :: t -> l = (rev t ++ [b; a])%list.
Proof.
  intros H. apply (f_equal (@rev A)) in H. rewrite rev_involutive in H.
  rewrite H. cbn [rev]. now rewrite <- app_assoc.
Qed.

(** X19.  When the source branch was not found on the remote, [prCreate]
    asks the driver to open a pull request only right after a push of the
    source branch that succeeded, and everything it called before is a git
    command that succeeded: if the fetch, a checkout, the add, the commit
    or the push fails, no pull request is opened. *)
Theorem prCreate_opens_pr_only_after_successful_push :
  forall (this : CML) (W : World) (opts : PrOpts) (p : PrProbe)
         (w : state W),
    branchExists p = false ->
    let push :=
      Exec ["git"; "push"; "--set-upstream";
            orDefault (remote opts) GIT_REMOTE; probeSource p] in
    match run W (prReconcile this opts p) w with
    | (o, _, tr) =>
        existsb opensPr tr = true ->
        exists t out d a,
          tr = (t ++ [Called push (inr out); Called (DrvPrCreate d) a])%list /\
          forallb gitSucceeded t = true
    end.
Proof.
  intros this W opts p w Hfresh push. unfold prReconcile, openPr.
  rewrite Hfresh. fold push.
  destruct (isEmptyList (probePaths p)); cbn [negb].
  all: repeat run_any.
  all: cbn [existsb opensPr orb]; intros H; try discriminate H.
  all: do 4 eexists;
       split; [apply rev_last_two; cbn [rev List.app]; reflexivity | ].
  all: reflexivity.
Qed.

Lemma prCreate_opens_pr_after_push_witness :
  exists t out d a,
    snd (run forge (prReconcile Sample.github reportPrOpts freshProbe)
           (mkForge ["main"] [])) =
    (t ++ [Called (Exec ["git"; "push"; "--set-upstream"; "origin";
                         "cml/report"]) (inr out);
           Called (DrvPrCreate d) a])%list /\
    forallb gitSucceeded t = true.
Proof.
  exact (prCreate_opens_pr_only_after_successful_push Sample.github forge
           reportPrOpts freshProbe (mkForge ["main"] []) eq_refl eq_refl).
Defined.

(** ** cml.js: parseRunnerLog *)

Lemma parseStatuses_logs (pf : Platform) (this : CML) (W : World)
    (patterns : string -> option RegExp) (data : string)
    (name : option string) (statuses : list string) :
  forall (acc : list RunnerLog) (w : state W) (logs : list RunnerLog),
    fst (fst (run W (parseStatuses pf this patterns data name statuses acc) w))
    = Returned logs ->
    exists added,
      logs = (acc ++ added)%list /\
      map logStatus added = filter (patternMatches patterns data) statuses /\
      forallb (levelled this) added = true.
Proof.
  induction statuses as [|status rest IH]; intros acc w logs Hrun.
  - cbn in Hrun. injection Hrun as <-. exists []. now rewrite app_nil_r.
  - cbn [parseStatuses filter] in *. unfold patternMatches at 1.
    destruct (patterns status) as [regex|]; [ | discriminate].
    destruct (regexTest regex data); [ | now apply (IH acc w)].
    rewrite run_bind, run_callTotal in Hrun.
    destruct (answer W _ DateNow w) as [rd w1].
    set (date := match rd with inr v => v | inl _ => EmptyString end) in *.
    rewrite run_bind in Hrun.
    match type of Hrun with
    | context [run W ?p w1] =>
        assert (Hfirst : forall l, fst (fst (run W p w1)) = Returned l ->
                   logStatus l = status /\ logRepo l = repo this /\
                   logSuccess l = None);
        [ | destruct (run W p w1) as [[[l1|e|] w2] t2];
            [specialize (Hfirst l1 eq_refl) | discriminate..] ]
    end.
    { intros l. destruct (String.eqb status "job_started");
        [ | cbn; intros H; injection H as <-; now repeat split].
      destruct (_ && _);
        [ | cbn; intros H; injection H as <-; now repeat split].
      unfold runnerByName, runners.
      destruct (getDriver pf this) as [e|drv]; cbn [lift bind run fst];
        [discriminate | ].
      repeat run_any; try discriminate.
      destruct (find _ _) as [runner|]; cbn [run fst]; [ | discriminate].
      repeat run_any; try discriminate.
      match goal with
      | |- context [match ?j with Some _ => _ | None => _ end] =>
          destruct j; cbn [run fst]; [ | discriminate]
      end.
      intros H; injection H as <-; now repeat split. }
    destruct Hfirst as (Hs1 & Hr1 & Hn1).
    rewrite run_bind in Hrun.
    match type of Hrun with
    | context [run W ?p w2] =>
        assert (Hsecond : forall l, fst (fst (run W p w2)) = Returned l ->
                   logStatus l = status /\ logRepo l = repo this /\
                   Bool.eqb (match logSuccess l with
                             | Some _ => true | None => false end)
                     (String.eqb status "job_ended") = true);
        [ | destruct (run W p w2) as [[[l2|e|] w3] t3];
            [specialize (Hsecond l2 eq_refl) | discriminate..] ]
    end.
    { intros l. destruct (String.eqb status "job_ended").
      - destruct (patterns "job_ended_succeded"); cbn; [ | discriminate].
        intros H; injection H as <-. now repeat split.
      - cbn. intros H; injection H as <-. rewrite Hn1. now repeat split. }
    destruct Hsecond as (Hs2 & Hr2 & Hn2).
    match type of Hrun with
    | context [parseStatuses pf this patterns data name rest ?acc'] =>
        destruct (run W (parseStatuses pf this patterns data name rest acc') w3)
          as [[o w4] t4] eqn:Hrest
    end.
    cbn [fst] in Hrun. subst o.
    apply (f_equal (fun r => fst (fst r))) in Hrest. cbn [fst] in Hrest.
    destruct (IH _ _ _ Hrest) as (added & -> & Hst & Hwf).
    eexists (_ :: added). rewrite <- app_assoc. cbn [List.app].
    split; [reflexivity | ]. cbn [map forallb logStatus setLevel].
    rewrite Hs2, Hst. split; [reflexivity | ].
    rewrite Hwf, andb_true_r. unfold levelled.
    cbn [logRepo logLevel logSuccess logStatus setLevel].
    now rewrite Hr2, Hs2, Hn2, !String.eqb_refl.
Qed.

(** X20.  When [parseRunnerLog] returns on data that is there, its
    events are one for each of [ready], [job_started] and [job_ended] whose
    pattern matches the output, in this order, so at most three.  Each
    event carries the repository of the object, has a [success] only when
    its status is [job_ended], and its level is [info] when [success] is
    true and [error] otherwise. *)
Theorem parseRunnerLog_one_event_per_matching_status :
  forall (pf : Platform) (this : CML) (W : World) (w : state W)
         (opts : RunnerLogOpts) (drv : Driver) (logs : list RunnerLog),
    getDriver pf this = inr drv ->
    dataFalsy (data opts) = false ->
    fst (fst (run W (parseRunnerLog pf this opts) w)) = Returned logs ->
    map logStatus logs =
    filter (patternMatches (runnerLogPatterns drv)
              (dataToString pf (data opts)))
      ["ready"; "job_started"; "job_ended"] /\
    forallb (levelled this) logs = true.
Proof.
  intros pf this W w opts drv logs Hdrv Hdata Hrun.
  unfold parseRunnerLog in Hrun. rewrite Hdata, Hdrv in Hrun.
  cbn [lift bind] in Hrun.
  destruct (parseStatuses_logs _ _ _ _ _ _ _ _ _ _ Hrun)
    as (added & -> & Hst & Hwf).
  now split.
Qed.

Lemma parseRunnerLog_one_event_witness :
  map logStatus
    [mkRunnerLog "job_started" "2022-01-01T00:00:00.000Z"
       "https://github.com/owner/repo" VUndefined None None "error"] =
  ["job_started"] /\
  forallb (levelled Sample.github)
    [mkRunnerLog "job_started" "2022-01-01T00:00:00.000Z"
       "https://github.com/owner/repo" VUndefined None None "error"] = true.
Proof.
  exact (parseRunnerLog_one_event_per_matching_status Sample.platform
           Sample.github Sample.quiet tt jobStartedOpts Sample.sampleDriver
           _ eq_refl eq_refl eq_refl).
Defined.

(** X21.  On GitHub, when the call names a runner and the output shows
    a job that started, the job is looked up through the runner of that
    name; when the listing of the driver has no runner of that name,
    [parseRunnerLog] throws a [TypeError] (the [id] of [undefined] is read)
    instead of returning the events it parsed. *)
Theorem parseRunnerLog_unknown_runner_name_is_a_type_error :
  forall (pf : Platform) (this : CML) (W : World) (w w1 w2 : state W)
         (opts : RunnerLogOpts) (drv : Driver)
         (runner : string) (now : JsError + string) (listed : list Runner),
    getDriver pf this = inr drv ->
    driver this = Some GITHUB ->
    dataFalsy (data opts) = false ->
    patternMatches (runnerLogPatterns drv) (dataToString pf (data opts))
      "ready" = false ->
    runnerLogPatterns drv "ready" <> None ->
    patternMatches (runnerLogPatterns drv) (dataToString pf (data opts))
      "job_started" = true ->
    name opts = Some runner -> runner <> EmptyString ->
    answer W _ DateNow w = (now, w1) ->
    answer W _ (DrvRunners (Some runner)) w1 = (inr listed, w2) ->
    forallb (fun r => negb (namedRunner (Some runner) r)) listed = true ->
    run W (parseRunnerLog pf this opts) w =
    (Thrown (undefinedProperty "id"), w2,
     [Called DateNow now; Called (DrvRunners (Some runner)) (inr listed)]).
Proof.
  intros pf this W w w1 w2 opts drv runner now listed
         Hdrv Hgh Hdata Hready Hready' Hstarted Hname Hne Hnow Hlist Hnone.
  unfold parseRunnerLog. rewrite Hdata, Hdrv. cbn [lift bind].
  unfold patternMatches in Hready, Hstarted.
  cbn [parseStatuses].
  destruct (runnerLogPatterns drv "ready") as [r0|]; [ | contradiction].
  rewrite Hready.
  destruct (runnerLogPatterns drv "job_started") as [r1|]; [ | discriminate].
  rewrite Hstarted. rewrite run_bind, run_callTotal, Hnow.
  cbn [String.eqb Ascii.eqb Bool.eqb andb].
  rewrite Hname, Hgh, String.eqb_refl.
  apply String.eqb_neq in Hne. cbn [truthyStr]. rewrite Hne. cbn [negb andb].
  rewrite !run_bind. unfold runnerByName, runners. rewrite Hdrv.
  cbn [lift bind]. rewrite !run_bind, run_call, Hlist. cbn [run].
  fold (namedRunner (Some runner)).
  rewrite (find_none_of_forallb _ _ Hnone). reflexivity.
Qed.

Lemma parseRunnerLog_unknown_runner_witness :
  run pooled (parseRunnerLog Sample.platform Sample.github namedJobOpts) tt =
  (Thrown (undefinedProperty "id"), tt,
   [ Called DateNow (inr "2022-01-01T00:00:00.000Z");
     Called (DrvRunners (Some "cml-z")) (inr runnerPool) ]).
Proof.
  exact (parseRunnerLog_unknown_runner_name_is_a_type_error Sample.platform
           Sample.github pooled tt tt tt namedJobOpts Sample.sampleDriver
           "cml-z" _ runnerPool eq_refl eq_refl eq_refl eq_refl
           ltac:(discriminate) eq_refl eq_refl ltac:(discriminate) eq_refl
           eq_refl eq_refl).
Defined.

(** ** cml.js: the watermark, the report and the visitor *)

Lemma trimEnd_app_blank (x y : string) :
  trimEnd y = EmptyString -> trimEnd (x ++ y) = trimEnd x.
Proof.
  intros Hy. induction x as [|c x IH]; [exact Hy | ].
  cbn [append trimEnd]. now rewrite IH.
Qed.

Lemma watermarkTitleOf_prefix (label workflow run : option string) :
  exists rest, watermarkTitleOf label workflow run = "CML watermark" ++ rest.
Proof.
  unfold watermarkTitleOf.
  set (lbl := replaceStr _ "{run}" _).
  assert (Htrim : exists rest,
             trim ("CML watermark " ++ lbl) = "CML watermark" ++ rest).
  { unfold trim. cbn [append trimStart].
    change (isWhiteSpace "C") with false. cbv iota.
    change (String "C" (String "M" (String "L" (String " " (String "w"
             (String "a" (String "t" (String "e" (String "r" (String "m"
             (String "a" (String "r" (String "k" (String " " lbl))))))))))))))
      with ("CML watermark" ++ String " " lbl).
    destruct (trimEnd (String " " lbl)) eqn:E.
    - exists EmptyString. now rewrite trimEnd_app_blank.
    - exists (trimEnd (String " " lbl)).
      rewrite trimEnd_app_keep; [reflexivity | now rewrite E]. }
  destruct Htrim as [rest ->].
  exists (escapeTitle rest). now rewrite escapeTitle_app.
Qed.

(** X22.  The title of every watermark that [genWatermark] renders,
    whatever the label, the workflow and the run, begins with [CML
    watermark]; and a node whose title begins so passes the test of
    [isWatermark]: the visitor of [publishLocalFiles] makes no call for it
    and leaves it as it is. *)
Theorem watermark_node_is_left_alone_by_visitor :
  forall (pf : Platform) (this : CML) (opts : Opts)
         (label workflow run : option string),
    genWatermark label workflow run =
    "![](" ++ WATERMARK_IMAGE ++ " " ++ dquote ++
    watermarkTitleOf label workflow run ++ dquote ++ ")" /\
    (exists rest,
        watermarkTitleOf label workflow run = "CML watermark" ++ rest) /\
    (forall node rest,
        nodeTitle node = Some ("CML watermark" ++ rest) ->
        isWatermark node = true /\ visitor pf this opts node = Ret node).
Proof.
  intros pf this opts label workflow run. split; [reflexivity | ].
  split; [apply watermarkTitleOf_prefix | ].
  intros node rest Htitle.
  assert (Hw : isWatermark node = true).
  { unfold isWatermark, startsWith. rewrite Htitle. now rewrite prefix_app. }
  split; [exact Hw | ].
  unfold visitor, visitorAssigns. rewrite Hw. now rewrite andb_false_r.
Qed.

Lemma find_rev_last {A : Type} (f : A -> bool) (older : list A) (x : A) :
  f x = true -> find f (rev (older ++ [x])) = Some x.
Proof. intros H. rewrite rev_app_distr. cbn. now rewrite H. Qed.

(** X23.  When nothing is published, the report that [commentCreate]
    posts is the text of the user, an empty line and the watermark, so it
    contains the watermark; a comment that carries this report is the one
    [updatableComment] picks when it is the newest of the thread.  What a
    call creates, the next update with the same watermark finds. *)
Theorem commentCreate_report_carries_the_watermark :
  forall (pf : Platform) (settleOrder : nat -> list nat) (this : CML)
         (W : World) (w w' : state W) (opts : Opts) (drv : Driver)
         (watermark report : string) (tr : list Event),
    publish_ opts = false ->
    run W (composeReport pf settleOrder this opts) w =
    (Returned (drv, watermark, report), w', tr) ->
    (exists text, report = text ++ newline ++ newline ++ watermark) /\
    includes report watermark = true /\
    (forall (older : list Comment) (id : Val),
        updatableComment watermark (older ++ [mkComment id report]) =
        Some (mkComment id report)).
Proof.
  intros pf settleOrder this W w w' opts drv watermark report tr Hpub Hrun.
  assert (Htext : exists text, report = text ++ newline ++ newline ++ watermark).
  { unfold composeReport in Hrun.
    destruct (getDriver pf this) as [e|d]; cbn [lift bind] in Hrun;
      [discriminate | ].
    destruct (rmWatermark opts && update opts); [discriminate | ].
    rewrite Hpub in Hrun. rewrite run_bind in Hrun.
    destruct (run W (tryCatch _ _) w) as [[[userReport|e|] w1] t1];
      [ | discriminate..].
    cbn [bind run] in Hrun. injection Hrun as _ <- <- _ _.
    now exists (jsToString userReport). }
  assert (Hinc : includes report watermark = true).
  { destruct Htext as [text ->].
    replace (text ++ newline ++ newline ++ watermark)
      with ((text ++ newline ++ newline) ++ watermark ++ EmptyString)
      by (now rewrite append_nil_r, !append_assoc).
    apply includes_app. }
  repeat split; try assumption.
  intros older id. unfold updatableComment. now apply find_rev_last.
Qed.

Lemma commentCreate_report_witness :
  includes sampleReport sampleWatermark = true /\
  updatableComment sampleWatermark (thread ++ [mkComment (VNum 5) sampleReport])
  = Some (mkComment (VNum 5) sampleReport).
Proof.
  pose proof (commentCreate_report_carries_the_watermark Sample.platform
                Sample.inOrder Sample.github commented tt tt Sample.opts
                Sample.sampleDriver sampleWatermark sampleReport
                [Called (FsReadFile (Some "report.md")) (inr "# Report")]
                eq_refl eq_refl) as (_ & Hinc & Hup).
  split; [exact Hinc | exact (Hup thread (VNum 5))].
Defined.



(** ** cml.js: the cycles of the watch loop *)

Section WatchCycles.

Import WatchLoop.

Variable pf : Platform.
Variable settleOrder : nat -> list nat.
Variable this : CML.
Variable W : World.
Variable opts : Opts.

Lemma resume_fields (s : WatchState W) (i : nat) :
  let s' := resume pf settleOrder this W opts s i in
  cycles W s' = cycles W s /\
  ((first W s' = first W s /\ lock W s' = lock W s) \/ first W s' = false) /\
  (triggerFile opts = None -> unlinks W s' = unlinks W s) /\
  (s' = s \/ inFlight W s <> []).
Proof.
  unfold resume.
  destruct (nth_error (inFlight W s) i) as [[event file cycle| | ]|] eqn:Hn;
    try (cbn; tauto).
  all: assert (Hne : inFlight W s <> [])
         by (intros E; rewrite E in Hn; destruct i; discriminate).
  - destruct (run W _ (world W s)) as [[[v|err|] w] tr].
    + destruct (negb (String.eqb event "unlink") && _) eqn:E.
      * cbn. repeat split; [tauto | | tauto].
        intros Hnone. rewrite Hnone in E. now rewrite andb_false_r in E.
      * cbn. tauto.
    + unfold caught. destruct (answer W unit _ w). cbn. tauto.
    + cbn. tauto.
  - destruct (answer W unit _ (world W s)) as [[err|u] w].
    + unfold caught. destruct (answer W unit _ w). cbn. tauto.
    + cbn. tauto.
Qed.

Lemma cyclesReconcile_snoc (cs : list Opts) (c : Opts) :
  cyclesReconcile cs = true -> watch c = false ->
  (cs = [] \/ update c = true) ->
  cyclesReconcile (cs ++ [c]) = true.
Proof.
  unfold cyclesReconcile. intros H Hw Hu.
  apply andb_prop in H as [H1 H2].
  rewrite forallb_app, H1. cbn [forallb]. rewrite Hw. cbn [negb andb].
  destruct cs as [|c0 cs]; [reflexivity | ].
  cbn [List.app tl] in *. rewrite forallb_app, H2. cbn [forallb].
  destruct Hu as [Hu|Hu]; [discriminate | now rewrite Hu].
Qed.

Lemma cyclesInvariant_step (s : WatchState W) (x : Input) :
  cyclesInvariant W opts s ->
  cyclesInvariant W opts (step pf settleOrder this W opts s x).
Proof.
  intros (Hrec & Hfree & Hone & Hunlink & Hhead & Hflight & Hlater).
  destruct x as [event file|i]; cbn [step].
  - unfold handle. destruct (lock W s) eqn:Hl.
    + repeat split; try assumption. intros _ Hl'. congruence.
    + destruct (answer W unit _ (world W s)) as [r w].
      unfold cyclesInvariant.
      cbn [cycles first lock unlinks inFlight].
      destruct (first W s) eqn:Hf.
      * rewrite (Hfree eq_refl eq_refl). cbn [List.app List.length nth_error].
        repeat split; try (discriminate || lia || assumption).
        intros c H. injection H as <-. cbn. now rewrite orb_false_r.
      * assert (Hne : cycles W s <> []) by now apply Hlater.
        repeat split; try (discriminate || assumption).
        -- apply cyclesReconcile_snoc; [assumption | reflexivity | ].
           right. cbn. apply orb_true_r.
        -- intros c H. apply Hhead.
           destruct (cycles W s); [contradiction | exact H].
        -- intros _ E. now apply app_eq_nil in E as [_ E].
        -- intros _ E. now apply app_eq_nil in E as [_ E].
  - destruct (resume_fields s i) as (Hc & Hfl & Hu & Hsame).
    unfold cyclesInvariant. rewrite Hc.
    repeat split; try assumption.
    + intros Hf Hl. destruct Hfl as [[E1 E2]|E]; [ | congruence].
      apply Hfree; congruence.
    + intros Hf. destruct Hfl as [[E1 E2]|E]; [ | congruence].
      apply Hone; congruence.
    + intros Hnone. rewrite Hu by assumption. now apply Hunlink.
    + intros Hin. destruct Hsame as [E|Hne]; [ | now apply Hflight].
      rewrite E in Hin. now apply Hflight.
    + intros Hf. destruct Hsame as [E|Hne]; [ | now apply Hflight].
      rewrite E in Hf. now apply Hlater.
Qed.

Lemma cyclesInvariant_steps (xs : list Input) (s : WatchState W) :
  cyclesInvariant W opts s ->
  cyclesInvariant W opts (steps pf settleOrder this W opts s xs).
Proof.
  revert s. induction xs as [|x xs IH]; intros s Hinv; [exact Hinv | ].
  cbn. apply IH. now apply cyclesInvariant_step.
Qed.

Lemma cycles_keep_rmWatermark (xs : list Input) (s : WatchState W) :
  Forall (fun c => rmWatermark c = rmWatermark opts) (cycles W s) ->
  Forall (fun c => rmWatermark c = rmWatermark opts)
    (cycles W (steps pf settleOrder this W opts s xs)).
Proof.
  revert s. induction xs as [|x xs IH]; intros s H; [exact H | ].
  cbn [steps fold_left]. apply IH. destruct x as [event file|i]; cbn [step].
  - unfold handle. destruct (lock W s); [exact H | ].
    destruct (answer W unit _ (world W s)) as [r w]. cbn [cycles].
    apply Forall_app. split; [exact H | ]. now constructor.
  - now rewrite (proj1 (resume_fields s i)).
Qed.

End WatchCycles.

Lemma commentCreate_needs_watermark_to_update (pf : Platform)
    (settleOrder : nat -> list nat) (this : CML) (c : Opts) :
  rmWatermark c = true -> update c = true ->
  exists e,
    commentCreate pf settleOrder this c = Throw e /\
    match getDriver pf this with
    | inr _ => e = newError "watermarks are mandatory for updateable comments"
    | inl e' => e = e'
    end.
Proof.
  intros Hrm Hup. unfold commentCreate, composeReport.
  destruct (getDriver pf this) as [e'|drv]; cbn [lift bind].
  - now exists e'.
  - rewrite Hrm, Hup. cbn [andb bind]. eexists. split; reflexivity.
Qed.

(** X25.  In watch mode with [rmWatermark], whatever the watcher
    delivers, every reconciliation that the callback starts after its first
    one is called with [update] set and so throws before any external call:
    only the first reconciliation of the loop can post a comment. *)
Theorem watch_with_rmWatermark_posts_at_most_once :
  forall (pf : Platform) (settleOrder : nat -> list nat) (this : CML)
         (W : World) (opts : Opts) (w0 : state W)
         (xs : list WatchLoop.Input),
    rmWatermark opts = true ->
    let s := WatchLoop.steps pf settleOrder this W opts
               (WatchLoop.initial W w0) xs in
    forall n c,
      nth_error (WatchLoop.cycles W s) (S n) = Some c ->
      exists e,
        commentCreate pf settleOrder this c = Throw e /\
        match getDriver pf this with
        | inr _ =>
            e = newError "watermarks are mandatory for updateable comments"
        | inl e' => e = e'
        end.
Proof.
  intros pf settleOrder this W opts w0 xs Hrm s n c Hc.
  assert (Hinv : cyclesInvariant W opts s).
  { apply cyclesInvariant_steps. unfold cyclesInvariant. cbn.
    repeat split; try (reflexivity || lia || discriminate || congruence). }
  destruct Hinv as (Hrec & _).
  apply andb_prop in Hrec as [_ Hupdate].
  assert (Hkeep : Forall (fun c => rmWatermark c = rmWatermark opts)
                    (WatchLoop.cycles W s))
    by (apply cycles_keep_rmWatermark; constructor).
  apply commentCreate_needs_watermark_to_update.
  - rewrite <- Hrm.
    apply (proj1 (Forall_forall _ _) Hkeep c).
    now apply (nth_error_In _ (S n)).
  - assert (Hin : In c (tl (WatchLoop.cycles W s))).
    { destruct (WatchLoop.cycles W s) as [|c0 cs]; [discriminate | ].
      now apply (nth_error_In _ n). }
    exact (proj1 (forallb_forall _ _) Hupdate c Hin).
Qed.

Lemma watch_with_rmWatermark_witness :
  exists e,
    commentCreate Sample.platform Sample.inOrder Sample.github
      (WatchLoop.cycleOpts watchWithoutWatermarkOpts false) = Throw e /\
    match getDriver Sample.platform Sample.github with
    | inr _ => e = newError "watermarks are mandatory for updateable comments"
    | inl e' => e = e'
    end.
Proof.
  exact (watch_with_rmWatermark_posts_at_most_once Sample.platform
           Sample.inOrder Sample.github commented watchWithoutWatermarkOpts tt
           [ WatchLoop.WatcherEvent "change" "report.md";
             WatchLoop.Settled 0;
             WatchLoop.WatcherEvent "change" "report.md" ]
           eq_refl 0 (WatchLoop.cycleOpts watchWithoutWatermarkOpts false)
           eq_refl).
Defined.

(** X26.  Whatever the watcher delivers, no reconciliation started by
    the callback watches in its turn; the first one has the [update] flag of
    the call that started the loop and every later one has it set, so after
    the first comment the loop updates instead of creating; and without a
    trigger file the loop never unlinks a file. *)
Theorem watch_loop_cycles_never_watch_and_update_after_first :
  forall (pf : Platform) (settleOrder : nat -> list nat) (this : CML)
         (W : World) (opts : Opts) (w0 : state W)
         (xs : list WatchLoop.Input),
    let s := WatchLoop.steps pf settleOrder this W opts
               (WatchLoop.initial W w0) xs in
    forallb (fun c => negb (watch c)) (WatchLoop.cycles W s) = true /\
    forallb update (tl (WatchLoop.cycles W s)) = true /\
    (forall c, nth_error (WatchLoop.cycles W s) 0 = Some c ->
               update c = update opts) /\
    (triggerFile opts = None -> WatchLoop.unlinks W s = 0).
Proof.
  intros pf settleOrder this W opts w0 xs s.
  assert (Hinv : cyclesInvariant W opts s).
  { apply cyclesInvariant_steps. unfold cyclesInvariant. cbn.
    repeat split; try (reflexivity || lia || discriminate || congruence). }
  destruct Hinv as (Hrec & _ & _ & Hunlink & Hhead & _).
  apply andb_prop in Hrec as [H1 H2]. now repeat split.
Qed.

Lemma resume_awaiting_comment (pf : Platform) (settleOrder : nat -> list nat)
    (this : CML) (W : World) (opts : Opts) (s : WatchLoop.WatchState W)
    (event file : string) (cycle : Opts) :
  WatchLoop.inFlight W s = [WatchLoop.AwaitCommentCreate event file cycle] ->
  WatchLoop.resume pf settleOrder this W opts s 0 =
  let '(o, w, _) :=
    run W (commentCreate pf settleOrder this cycle) (WatchLoop.world W s) in
  match o with
  | Returned _ =>
      if negb (String.eqb event "unlink") &&
         match triggerFile opts with
         | Some f => String.eqb file f
         | None => false
         end
      then
        WatchLoop.mkWatchState W (WatchLoop.first W s) (WatchLoop.lock W s)
          [WatchLoop.AwaitUnlink] w (WatchLoop.cycles W s)
          (S (WatchLoop.unlinks W s))
      else
        WatchLoop.mkWatchState W false false [] w (WatchLoop.cycles W s)
          (WatchLoop.unlinks W s)
  | Thrown err =>
      WatchLoop.mkWatchState W false false []
        (snd (answer W _ (Winston "warn" (errMessage err)) w))
        (WatchLoop.cycles W s) (WatchLoop.unlinks W s)
  | Pending =>
      WatchLoop.mkWatchState W (WatchLoop.first W s) (WatchLoop.lock W s)
        [WatchLoop.AwaitForever] w (WatchLoop.cycles W s)
        (WatchLoop.unlinks W s)
  end.
Proof.
  intros H. unfold WatchLoop.resume. rewrite H. cbn [nth_error].
  destruct (run W _ (WatchLoop.world W s)) as [[[v|err|] w] tr].
  - destruct (_ && _); unfold WatchLoop.finish; rewrite ?H; reflexivity.
  - unfold WatchLoop.caught, WatchLoop.finish.
    destruct (answer W unit _ w) as [r w']. now rewrite ?H.
  - reflexivity.
Qed.

(** X27.  A run of the callback always ends with the lock released and
    [first] cleared, whether its reconciliation returned or threw.  An
    error of [commentCreate] is logged and the callback ends, without an
    unlink.  After a reconciliation that returned, when the event is not an
    [unlink] and its path is the trigger file, the callback calls
    [fs.unlink] on that file, keeps the lock while that call is pending,
    and ends when it settles, after logging its error if it failed; for
    any other event it ends at once, without an unlink.  While the
    reconciliation is pending the lock stays as it is. *)
Theorem watch_callback_always_releases_the_lock :
  forall (pf : Platform) (settleOrder : nat -> list nat) (this : CML)
         (W : World) (opts : Opts) (s : WatchLoop.WatchState W)
         (event file : string) (cycle : Opts),
    WatchLoop.inFlight W s = [WatchLoop.AwaitCommentCreate event file cycle] ->
    let s1 := WatchLoop.resume pf settleOrder this W opts s 0 in
    let s2 := WatchLoop.resume pf settleOrder this W opts s1 0 in
    match run W (commentCreate pf settleOrder this cycle)
            (WatchLoop.world W s) with
    | (Thrown err, w, _) =>
        callbackEnded W s1 /\
        WatchLoop.unlinks W s1 = WatchLoop.unlinks W s /\
        WatchLoop.world W s1 =
        snd (answer W _ (Winston "warn" (errMessage err)) w)
    | (Returned _, w, _) =>
        (event <> "unlink" -> triggerFile opts = Some file ->
         WatchLoop.inFlight W s1 = [WatchLoop.AwaitUnlink] /\
         WatchLoop.lock W s1 = WatchLoop.lock W s /\
         WatchLoop.first W s1 = WatchLoop.first W s /\
         WatchLoop.unlinks W s1 = S (WatchLoop.unlinks W s) /\
         WatchLoop.world W s1 = w /\
         callbackEnded W s2 /\
         WatchLoop.unlinks W s2 = S (WatchLoop.unlinks W s) /\
         WatchLoop.world W s2 =
         match answer W _ (FsUnlink (Some file)) w with
         | (inr _, w') => w'
         | (inl err, w') =>
             snd (answer W _ (Winston "warn" (errMessage err)) w')
         end) /\
        (event = "unlink" \/ triggerFile opts <> Some file ->
         callbackEnded W s1 /\
         WatchLoop.unlinks W s1 = WatchLoop.unlinks W s /\
         WatchLoop.world W s1 = w)
    | (Pending, w, _) =>
        WatchLoop.inFlight W s1 = [WatchLoop.AwaitForever] /\
        WatchLoop.lock W s1 = WatchLoop.lock W s /\
        WatchLoop.first W s1 = WatchLoop.first W s /\
        WatchLoop.unlinks W s1 = WatchLoop.unlinks W s
    end.
Proof.
  intros pf settleOrder this W opts s event file cycle Hflight s1 s2.
  subst s2 s1.
  rewrite (resume_awaiting_comment pf settleOrder this W opts s event file
             cycle Hflight).
  destruct (run W (commentCreate pf settleOrder this cycle)
              (WatchLoop.world W s)) as [[[v|err|] w] tr].
  - split.
    + intros Hev Htf. apply String.eqb_neq in Hev.
      rewrite Hev, Htf, String.eqb_refl. cbn [negb andb].
      do 5 (split; [reflexivity | ]).
      unfold WatchLoop.resume. cbn [WatchLoop.inFlight nth_error].
      rewrite Htf. cbn [WatchLoop.world].
      destruct (answer W unit (FsUnlink (Some file)) w) as [[e|u] w'];
        unfold WatchLoop.caught, WatchLoop.finish;
        try destruct (answer W unit _ w'); now repeat split.
    + intros Hcase.
      assert (Hcond : negb (String.eqb event "unlink") &&
                      match triggerFile opts with
                      | Some f => String.eqb file f
                      | None => false
                      end = false).
      { destruct Hcase as [->|Hne]; [reflexivity | ].
        destruct (triggerFile opts) as [f|]; [ | apply andb_false_r].
        destruct (String.eqb file f) eqn:Hf; [ | apply andb_false_r].
        apply String.eqb_eq in Hf. now subst f. }
      rewrite Hcond. now repeat split.
  - now repeat split.
  - now repeat split.
Qed.

Lemma watch_callback_releases_the_lock_witness :
  let s :=
    WatchLoop.handle commented triggerOpts (WatchLoop.initial commented tt)
      "add" "trigger.txt" in
  let s1 :=
    WatchLoop.resume Sample.platform Sample.inOrder Sample.github commented
      triggerOpts s 0 in
  let s2 :=
    WatchLoop.resume Sample.platform Sample.inOrder Sample.github commented
      triggerOpts s1 0 in
  WatchLoop.inFlight commented s1 = [WatchLoop.AwaitUnlink] /\
  WatchLoop.lock commented s1 = true /\
  WatchLoop.first commented s1 = true /\
  WatchLoop.unlinks commented s1 = 1 /\
  WatchLoop.world commented s1 = tt /\
  callbackEnded commented s2 /\
  WatchLoop.unlinks commented s2 = 1 /\
  WatchLoop.world commented s2 = tt.
Proof.
  exact (proj1
           (watch_callback_always_releases_the_lock Sample.platform
              Sample.inOrder Sample.github commented triggerOpts
              (WatchLoop.handle commented triggerOpts
                 (WatchLoop.initial commented tt) "add" "trigger.txt")
              "add" "trigger.txt" (WatchLoop.cycleOpts triggerOpts true)
              eq_refl)
           ltac:(discriminate) eq_refl).
Defined.
